(** * tcan / yalc: a shallow embedding of the device-bus runtime

    The development follows the headers of the repository:

    - [CInt]      : the fixed-width integer conversions the headers rely on;
    - [Yalc]      : yalc/CANMsg.hpp, the fixed-capacity frame;
    - [Device]    : tcan/Device.hpp, the device base class;
    - [Bus]       : tcan/Bus.hpp, the generic bus runtime (class template
                    [Bus<Msg>]), written in a small state-and-failure monad
                    that threads the bus object, the transport driver and a
                    trace of the observable effects (log lines,
                    notifications, lock operations, driver calls, thread
                    operations);
    - [CanBus]    : tcan_can/CanBus.hpp, the dispatch table and SYNC emission;
    - [WaitQueue] : the protocol of [Bus::waitForEmptyQueue] as a transition
                    system of the calling thread against its environment;
    - [Workers]   : the receive and transmit loops of tcan/Bus.hpp, run for a
                    bounded number of passes, and sequences of calls;
    - [DeviceCanOpen], [Registry] : the identifiers of yalc/DeviceCanOpen.hpp
                    and sequences of [CanBus::addCanMessage] calls.

    Part I holds the definitions, Part II the theorems.  Fixed-width C++
    integers are integers of [Z] with the conversions written out; an
    operation whose behaviour C++ leaves undefined yields [None]. *)

From Stdlib Require Import ZArith Lia Bool List String.
From stdpp Require Import base option list countable gmap.

Local Open Scope Z_scope.

(** * Part I: the embedding *)

(** ** Fixed-width integers *)

Module CInt.

(** [static_cast<uintN_t>]: reduction modulo [2^w]. *)
Definition to_uint (w x : Z) : Z := x mod 2 ^ w.

(** [static_cast<intN_t>]: the two's complement representative. *)
Definition to_int (w x : Z) : Z := (x + 2 ^ (w - 1)) mod 2 ^ w - 2 ^ (w - 1).

Definition in_uint (w x : Z) : Prop := 0 <= x < 2 ^ w.
Definition in_int (w x : Z) : Prop := - 2 ^ (w - 1) <= x < 2 ^ (w - 1).

(** [static_cast<uint8_t>((value >> s) & 0xFF)]: on a signed operand the
    shift is the arithmetic one, which is [Z.shiftr] on [Z]. *)
Definition octet (value s : Z) : Z := to_uint 8 (Z.land (Z.shiftr value s) 255).

(** [x << s] evaluated in [int], 32 bits wide: the product, converted to
    [int] when it does not fit. *)
Definition shl_int (x s : Z) : Z := to_int 32 (Z.shiftl x s).

(** [x << s] evaluated in [uint32_t]. *)
Definition shl_uint32 (x s : Z) : Z := to_uint 32 (Z.shiftl x s).

End CInt.

(** ** yalc/CANMsg.hpp *)

Module Yalc.
Import CInt.

(** [uint8_t data_[8]] is a list of eight octets; the other members are as
    declared. *)
Record CANMsg := mkCANMsg {
  COBId_ : Z;
  flag_ : bool;
  length_ : Z;
  data_ : list Z
}.

Definition zeros8 : list Z := [0; 0; 0; 0; 0; 0; 0; 0].

(** [a[i]] read from an array of [length a] elements. *)
Definition load (a : list Z) (i : Z) : option Z :=
  if 0 <=? i then a !! Z.to_nat i else None.

(** [a[i] = b]. *)
Definition store (a : list Z) (i : Z) (b : Z) : option (list Z) :=
  if (0 <=? i) && (i <? Z.of_nat (length a))
  then Some (<[Z.to_nat i := b]> a)
  else None.

(** [std::copy(&src[i], &src[i + n], &dst[i])], element by element. *)
Fixpoint copy_from (src : list Z) (i : Z) (n : nat) (dst : list Z)
  : option (list Z) :=
  match n with
  | O => Some dst
  | S n' =>
      b ← load src i;
      dst' ← store dst i b;
      copy_from src (i + 1) n' dst'
  end.

Definition std_copy (src : list Z) (n : nat) (dst : list Z) : option (list Z) :=
  copy_from src 0 n dst.

(** [nullptr] as a source range: there is nothing to read from it. *)
Definition nullptr : list Z := [].

(** [CANMsg(const uint32_t COBId)] *)
Definition CANMsg_id (COBId : Z) : CANMsg :=
  mkCANMsg COBId false 0 zeros8.

(** [CANMsg()] *)
Definition CANMsg_default : CANMsg := CANMsg_id 0.

(** [CANMsg(const uint32_t COBId, const uint8_t length, const uint8_t* data)] *)
Definition CANMsg_ptr (COBId length : Z) (data : list Z) : option CANMsg :=
  d ← std_copy data (Z.to_nat length) zeros8;
  Some (mkCANMsg COBId false length d).

(** [CANMsg(COBId, length, std::initializer_list<uint8_t> data)]: the whole
    list is copied, whatever [length] says. *)
Definition CANMsg_list (COBId length_arg : Z) (data : list Z) : option CANMsg :=
  d ← std_copy data (length data) zeros8;
  Some (mkCANMsg COBId false length_arg d).

Definition getCOBId (m : CANMsg) : Z := COBId_ m.
Definition getFlag (m : CANMsg) : bool := flag_ m.
Definition getData (m : CANMsg) : list Z := data_ m.
Definition getLength (m : CANMsg) : Z := length_ m.

Definition setFlag (flag : bool) (m : CANMsg) : CANMsg :=
  mkCANMsg (COBId_ m) flag (length_ m) (data_ m).

Definition with_data (m : CANMsg) (d : list Z) : CANMsg :=
  mkCANMsg (COBId_ m) (flag_ m) (length_ m) d.

(** [setData(const uint8_t length, const uint8_t* data)] *)
Definition setData (length : Z) (data : list Z) (m : CANMsg) : option CANMsg :=
  d ← std_copy data (Z.to_nat length) (data_ m);
  Some (mkCANMsg (COBId_ m) (flag_ m) length d).

(** The six overloads of [write(value, pos)], named by the static type of
    [value]. *)
Definition write_int32 (value pos : Z) (m : CANMsg) : option CANMsg :=
  d ← store (data_ m) (3 + pos) (octet value 24);
  d ← store d (2 + pos) (octet value 16);
  d ← store d (1 + pos) (octet value 8);
  d ← store d (0 + pos) (octet value 0);
  Some (with_data m d).

Definition write_uint32 (value pos : Z) (m : CANMsg) : option CANMsg :=
  d ← store (data_ m) (3 + pos) (octet value 24);
  d ← store d (2 + pos) (octet value 16);
  d ← store d (1 + pos) (octet value 8);
  d ← store d (0 + pos) (octet value 0);
  Some (with_data m d).

Definition write_int16 (value pos : Z) (m : CANMsg) : option CANMsg :=
  d ← store (data_ m) (1 + pos) (octet value 8);
  d ← store d (0 + pos) (octet value 0);
  Some (with_data m d).

Definition write_uint16 (value pos : Z) (m : CANMsg) : option CANMsg :=
  d ← store (data_ m) (1 + pos) (octet value 8);
  d ← store d (0 + pos) (octet value 0);
  Some (with_data m d).

Definition write_int8 (value pos : Z) (m : CANMsg) : option CANMsg :=
  d ← store (data_ m) (0 + pos) (to_uint 8 value);
  Some (with_data m d).

Definition write_uint8 (value pos : Z) (m : CANMsg) : option CANMsg :=
  d ← store (data_ m) (0 + pos) value;
  Some (with_data m d).

(** The value expressions of the readers, on the octets loaded.  The
    operands of [|] are converted to the type named in the cast and, when
    that is narrower than [int], promoted to [int]; the result is converted
    to the return type. *)
Definition join_int32 (d3 d2 d1 d0 : Z) : Z :=
  to_int 32
    (Z.lor (Z.lor (Z.lor (shl_int (to_int 32 d3) 24) (shl_int (to_int 32 d2) 16))
                  (shl_int (to_int 32 d1) 8))
           (to_int 32 d0)).

Definition join_uint32 (d3 d2 d1 d0 : Z) : Z :=
  to_uint 32
    (Z.lor (Z.lor (Z.lor (shl_uint32 (to_uint 32 d3) 24)
                         (shl_uint32 (to_uint 32 d2) 16))
                  (shl_uint32 (to_uint 32 d1) 8))
           (to_uint 32 d0)).

Definition join_int16 (d1 d0 : Z) : Z :=
  to_int 16 (Z.lor (shl_int (to_int 16 d1) 8) (to_int 16 d0)).

Definition join_uint16 (d1 d0 : Z) : Z :=
  to_uint 16 (Z.lor (shl_int (to_uint 16 d1) 8) (to_uint 16 d0)).

Definition readint32 (pos : Z) (m : CANMsg) : option Z :=
  d3 ← load (data_ m) (3 + pos);
  d2 ← load (data_ m) (2 + pos);
  d1 ← load (data_ m) (1 + pos);
  d0 ← load (data_ m) (0 + pos);
  Some (join_int32 d3 d2 d1 d0).

Definition readuint32 (pos : Z) (m : CANMsg) : option Z :=
  d3 ← load (data_ m) (3 + pos);
  d2 ← load (data_ m) (2 + pos);
  d1 ← load (data_ m) (1 + pos);
  d0 ← load (data_ m) (0 + pos);
  Some (join_uint32 d3 d2 d1 d0).

Definition readint16 (pos : Z) (m : CANMsg) : option Z :=
  d1 ← load (data_ m) (1 + pos);
  d0 ← load (data_ m) (0 + pos);
  Some (join_int16 d1 d0).

Definition readuint16 (pos : Z) (m : CANMsg) : option Z :=
  d1 ← load (data_ m) (1 + pos);
  d0 ← load (data_ m) (0 + pos);
  Some (join_uint16 d1 d0).

Definition readint8 (pos : Z) (m : CANMsg) : option Z :=
  d0 ← load (data_ m) (0 + pos);
  Some (to_int 8 d0).

Definition readuint8 (pos : Z) (m : CANMsg) : option Z :=
  load (data_ m) (0 + pos).

(** Overload resolution: [write(v, pos)] picks its body from the static
    type of [v], and each reader is named after the type it returns. *)
Inductive IntType : Type :=
| Int8 | UInt8 | Int16 | UInt16 | Int32 | UInt32.

Definition sizeof (ty : IntType) : Z :=
  match ty with
  | Int8 | UInt8 => 1
  | Int16 | UInt16 => 2
  | Int32 | UInt32 => 4
  end.

Definition in_type (ty : IntType) (v : Z) : Prop :=
  match ty with
  | Int8 => in_int 8 v
  | UInt8 => in_uint 8 v
  | Int16 => in_int 16 v
  | UInt16 => in_uint 16 v
  | Int32 => in_int 32 v
  | UInt32 => in_uint 32 v
  end.

Definition write (ty : IntType) : Z -> Z -> CANMsg -> option CANMsg :=
  match ty with
  | Int8 => write_int8
  | UInt8 => write_uint8
  | Int16 => write_int16
  | UInt16 => write_uint16
  | Int32 => write_int32
  | UInt32 => write_uint32
  end.

Definition read (ty : IntType) : Z -> CANMsg -> option Z :=
  match ty with
  | Int8 => readint8
  | UInt8 => readuint8
  | Int16 => readint16
  | UInt16 => readuint16
  | Int32 => readint32
  | UInt32 => readuint32
  end.

(** The array member always has its eight elements. *)
Definition wf (m : CANMsg) : Prop := length (data_ m) = 8%nat.

(** An octet. *)
Definition is_octet (b : Z) : Prop := 0 <= b < 256.

(** What a write of a value of type [ty] at [pos] leaves in [m'], given
    the frame [m] it started from. *)
Definition write_post (ty : IntType) (v pos : Z) (m m' : CANMsg) : Prop :=
  read ty pos m' = Some v /\
  (forall i, 0 <= i < sizeof ty ->
     load (data_ m') (pos + i) = Some ((v / 2 ^ (8 * i)) mod 256)) /\
  (forall j, j < pos \/ pos + sizeof ty <= j ->
     load (data_ m') j = load (data_ m) j) /\
  COBId_ m' = COBId_ m /\ flag_ m' = flag_ m /\ length_ m' = length_ m /\
  wf m'.

End Yalc.

(** ** tcan/Device.hpp and tcan/DeviceOptions.hpp *)

Module Device.
Import CInt.

Record DeviceOptions := mkDeviceOptions {
  nodeId : Z;
  name : string;
  maxDeviceTimeoutCounter : Z
}.

(** [DeviceOptions(node_id, node_name)]: the limit defaults to 20. *)
Definition DeviceOptions_ctor (node_id : Z) (node_name : string) : DeviceOptions :=
  mkDeviceOptions node_id node_name 20.

(** [bus_] is the back pointer, [None] for [nullptr]; buses are named by a
    number. *)
Record Device := mkDevice {
  options_ : DeviceOptions;
  deviceTimeoutCounter_ : Z;
  bus_ : option nat
}.

(** [Device(DeviceOptions* options)] *)
Definition Device_ctor (options : DeviceOptions) : Device :=
  mkDevice options 0 None.

Definition getNodeId (d : Device) : Z := nodeId (options_ d).
Definition getName (d : Device) : string := name (options_ d).

(** [!(max != 0 && (deviceTimeoutCounter_++ > max))]: [&&] evaluates its
    right operand, and with it the post-increment, only when the left one
    holds; the comparison sees the value from before the increment; the
    counter is an [unsigned int] of 32 bits. *)
Definition checkDeviceTimeout (d : Device) : bool * Device :=
  if negb (maxDeviceTimeoutCounter (options_ d) =? 0) then
    let old := deviceTimeoutCounter_ d in
    let d' := mkDevice (options_ d) (to_uint 32 (old + 1)) (bus_ d) in
    (negb (old >? maxDeviceTimeoutCounter (options_ d)), d')
  else (true, d).

(** The default [virtual bool sanityCheck()]. *)
Definition sanityCheck (d : Device) : bool * Device := checkDeviceTimeout d.

(** [n] consecutive sanity checks, oldest result first. *)
Fixpoint sanityChecks (n : nat) (d : Device) : list bool * Device :=
  match n with
  | O => ([], d)
  | S n' =>
      let '(r, d1) := sanityCheck d in
      let '(rs, d2) := sanityChecks n' d1 in
      (r :: rs, d2)
  end.

End Device.

(** ** tcan/Bus.hpp *)

Module Bus.

(** Modelled from the spec: tcan/BusOptions.hpp is not among the sources.
    The record has the members Bus.hpp reads; the spec lists them as the
    bus configuration ([mode], [activateBusOnReception], [startPassive],
    [maxQueueSize], [sanityCheckIntervalMs] and the three priorities). *)
Record BusOptions := mkBusOptions {
  name_ : string;
  asynchronous_ : bool;
  activateBusOnReception_ : bool;
  startPassive_ : bool;
  maxQueueSize_ : Z;
  sanityCheckInterval_ : Z;
  priorityReceiveThread_ : Z;
  priorityTransmitThread_ : Z;
  prioritySanityCheckThread_ : Z
}.

(** The three [std::thread] members. *)
Inductive Thread : Type :=
| receiveThread_ | transmitThread_ | sanityCheckThread_.

(** The member functions the threads run. *)
Inductive Worker : Type :=
| receiveWorker | transmitWorker | sanityCheckWorker.

Inductive CondVar : Type :=
| condTransmitThread_ | condOutputQueueEmpty_.

Inductive SchedPolicy : Type :=
| SCHED_OTHER | SCHED_FIFO | SCHED_RR.

(** The log lines of Bus.hpp, by their text. *)
Inductive LogLine : Type :=
| FailedToSetReceiveThreadPriority
| FailedToSetTransmitThreadPriority
| ExceedingMaxQueueSizeDroppingMessage
| AutoActivatedBus.

(** What a member function does to the world outside the bus object. *)
Inductive Event (Msg : Type) : Type :=
| Log (l : LogLine)
| NotifyAll (c : CondVar)
| Wait (c : CondVar)
| Lock
| Unlock
| CallInitializeInterface
| CallReadData
| CallWriteData (msg : Msg)
| ThreadStart (t : Thread) (f : Worker)
| ThreadJoin (t : Thread)
| SetSchedParam (t : Thread) (policy : SchedPolicy) (priority : Z).

Arguments Log {Msg} l.
Arguments NotifyAll {Msg} c.
Arguments Wait {Msg} c.
Arguments Lock {Msg}.
Arguments Unlock {Msg}.
Arguments CallInitializeInterface {Msg}.
Arguments CallReadData {Msg}.
Arguments CallWriteData {Msg} msg.
Arguments ThreadStart {Msg} t f.
Arguments ThreadJoin {Msg} t.
Arguments SetSchedParam {Msg} t policy priority.

(** The data members of [Bus<Msg>]; a thread member holds the function its
    thread runs once it was started. [std::queue] is a list, front first. *)
Record Bus (Msg : Type) := mkBus {
  isMissingDeviceOrHasError_ : bool;
  allDevicesActive_ : bool;
  isPassive_ : bool;
  options_ : BusOptions;
  outgoingMsgs_ : list Msg;
  threads_ : Thread -> option Worker;
  running_ : bool
}.

Arguments mkBus {Msg} _ _ _ _ _ _ _.
Arguments isMissingDeviceOrHasError_ {Msg} _.
Arguments allDevicesActive_ {Msg} _.
Arguments isPassive_ {Msg} _.
Arguments options_ {Msg} _.
Arguments outgoingMsgs_ {Msg} _.
Arguments threads_ {Msg} _ _.
Arguments running_ {Msg} _.

(** The bus object, the transport behind the pure virtual functions, and
    the effects so far, oldest first. *)
Record World (Msg Driver : Type) := mkWorld {
  bus : Bus Msg;
  driver : Driver;
  trace : list (Event Msg)
}.

Arguments mkWorld {Msg Driver} _ _ _.
Arguments bus {Msg Driver} _.
Arguments driver {Msg Driver} _.
Arguments trace {Msg Driver} _.

(** What a call that may block comes to. *)
Inductive Outcome (A : Type) : Type :=
| Returned (a : A)
| Blocked.

Arguments Returned {A} a.
Arguments Blocked {A}.

Section BusOf.

Context {Msg Driver : Type}.

(** The pure virtual functions of the transport. *)
Variable initializeInterface : Driver -> bool * Driver.
Variable readData : Driver -> bool * Driver.
Variable writeData : Msg -> Driver -> bool * Driver.

(** The return code of [pthread_setschedparam], 0 for success. *)
Variable pthread_setschedparam : Thread -> SchedPolicy -> Z -> Z.

(** Computations of the member functions: state passing over the world;
    [None] is undefined behaviour. *)
Definition M (A : Type) : Type :=
  World Msg Driver -> option (A * World Msg Driver).

#[export] Instance M_ret : MRet M := fun A a w => Some (a, w).

#[export] Instance M_bind : MBind M := fun A B f c w =>
  match c w with
  | Some (a, w') => f a w'
  | None => None
  end.

Definition undefined {A : Type} : M A := fun _ => None.

(** The value of an expression that may be undefined. *)
Definition defined {A : Type} (o : option A) : M A :=
  match o with
  | Some a => mret a
  | None => undefined
  end.

Definition get_bus : M (Bus Msg) := fun w => Some (bus w, w).

Definition put_bus (b : Bus Msg) : M unit :=
  fun w => Some (tt, mkWorld b (driver w) (trace w)).

Definition emit (e : Event Msg) : M unit :=
  fun w => Some (tt, mkWorld (bus w) (driver w) (trace w ++ [e])).

(** A call through one of the virtual functions. *)
Definition call (e : Event Msg) (f : Driver -> bool * Driver) : M bool :=
  fun w =>
    let '(r, d) := f (driver w) in
    Some (r, mkWorld (bus w) d (trace w ++ [e])).

Definition set_running (r : bool) : M unit :=
  b ← get_bus;
  put_bus (mkBus (isMissingDeviceOrHasError_ b) (allDevicesActive_ b)
             (isPassive_ b) (options_ b) (outgoingMsgs_ b) (threads_ b) r).

Definition set_isPassive (p : bool) : M unit :=
  b ← get_bus;
  put_bus (mkBus (isMissingDeviceOrHasError_ b) (allDevicesActive_ b)
             p (options_ b) (outgoingMsgs_ b) (threads_ b) (running_ b)).

Definition set_outgoingMsgs (q : list Msg) : M unit :=
  b ← get_bus;
  put_bus (mkBus (isMissingDeviceOrHasError_ b) (allDevicesActive_ b)
             (isPassive_ b) (options_ b) q (threads_ b) (running_ b)).

Definition thread_eqb (s t : Thread) : bool :=
  match s, t with
  | receiveThread_, receiveThread_
  | transmitThread_, transmitThread_
  | sanityCheckThread_, sanityCheckThread_ => true
  | _, _ => false
  end.

(** [t = std::thread(&Bus::f, this)].  The member is taken to hold no
    thread, as on a bus that was constructed and not initialised before:
    assigning to a member that holds one calls [std::terminate], which
    the definition does not tell apart. *)
Definition thread_start (t : Thread) (f : Worker) : M unit :=
  b ← get_bus;
  put_bus (mkBus (isMissingDeviceOrHasError_ b) (allDevicesActive_ b)
             (isPassive_ b) (options_ b) (outgoingMsgs_ b)
             (fun s => if thread_eqb s t then Some f else threads_ b s)
             (running_ b)) ;;
  emit (ThreadStart t f).

(** [outgoingMsgs_.front()], [push], [pop]; the first and the last are
    undefined on an empty queue. *)
Definition front : M Msg :=
  b ← get_bus;
  match outgoingMsgs_ b with
  | msg :: _ => mret msg
  | [] => undefined
  end.

Definition push (msg : Msg) : M unit :=
  b ← get_bus;
  set_outgoingMsgs (outgoingMsgs_ b ++ [msg]).

Definition pop : M unit :=
  b ← get_bus;
  match outgoingMsgs_ b with
  | _ :: q => set_outgoingMsgs q
  | [] => undefined
  end.

(** [Bus(BusOptions* options)] *)
Definition Bus_ctor (options : BusOptions) : Bus Msg :=
  mkBus false false (startPassive_ options) options [] (fun _ => None) false.

(** [sched.sched_priority = priority;
     if (pthread_setschedparam(t.native_handle(), SCHED_FIFO, &sched) != 0)
       MELO_WARN(line)] *)
Definition set_priority (t : Thread) (priority : Z) (line : LogLine) : M unit :=
  emit (SetSchedParam t SCHED_FIFO priority) ;;
  if negb (pthread_setschedparam t SCHED_FIFO priority =? 0)
  then emit (Log line)
  else mret tt.

Definition initBus : M bool :=
  ok ← call CallInitializeInterface initializeInterface;
  if negb ok then mret false
  else
    set_running true ;;
    b ← get_bus;
    (if asynchronous_ (options_ b) then
       thread_start receiveThread_ receiveWorker ;;
       thread_start transmitThread_ transmitWorker ;;
       set_priority receiveThread_ (priorityReceiveThread_ (options_ b))
         FailedToSetReceiveThreadPriority ;;
       set_priority receiveThread_ (priorityTransmitThread_ (options_ b))
         FailedToSetTransmitThreadPriority ;;
       (if sanityCheckInterval_ (options_ b) >? 0 then
          thread_start sanityCheckThread_ sanityCheckWorker ;;
          set_priority receiveThread_ (prioritySanityCheckThread_ (options_ b))
            FailedToSetReceiveThreadPriority
        else mret tt)
     else mret tt) ;;
    mret true.

Definition checkOutgoingMsgsSize : M unit :=
  b ← get_bus;
  if Z.of_nat (length (outgoingMsgs_ b)) >=? maxQueueSize_ (options_ b)
  then emit (Log ExceedingMaxQueueSizeDroppingMessage)
  else mret tt.

Definition sendMessageWithoutLock (msg : Msg) : M unit :=
  checkOutgoingMsgsSize ;;
  push msg ;;
  emit (NotifyAll condTransmitThread_).

Definition emplaceMessageWithoutLock (msg : Msg) : M unit :=
  checkOutgoingMsgsSize ;;
  push msg ;;
  emit (NotifyAll condTransmitThread_).

(** [std::lock_guard] locks on entry and unlocks on return. *)
Definition sendMessage (msg : Msg) : M unit :=
  emit Lock ;;
  sendMessageWithoutLock msg ;;
  emit Unlock.

Definition emplaceMessage (msg : Msg) : M unit :=
  emit Lock ;;
  emplaceMessageWithoutLock msg ;;
  emit Unlock.

Definition activate : M unit := set_isPassive false.
Definition passivate : M unit := set_isPassive true.

Definition isPassive : M bool := b ← get_bus; mret (isPassive_ b).

(** [bool writeMessage(bool& writeError)]: the result pairs the value
    returned with the value left in [writeError]. *)
Definition writeMessage : M (bool * bool) :=
  b ← get_bus;
  if negb (length (outgoingMsgs_ b) =? 0)%nat then
    writeSuccess ←
      (if isPassive_ b then mret true
       else msg ← front; call (CallWriteData msg) (writeData msg));
    if writeSuccess : bool then
      pop ;;
      mret (true, false)
    else mret (false, true)
  else mret (false, false).

Definition readMessage : M bool :=
  ok ← call CallReadData readData;
  if ok : bool then
    b ← get_bus;
    (if isPassive_ b && activateBusOnReception_ (options_ b) then
       set_isPassive false ;;
       emit (Log AutoActivatedBus)
     else mret tt) ;;
    mret true
  else mret false.

(** [std::thread::join] returns when the thread has finished and blocks
    until then.  Whether the worker behind a thread member finishes is not
    decided by the caller: it is the environment's. *)
Variable finishes : Thread -> bool.

(** [if(t.joinable()) { t.join(); }]: a member that holds a thread is
    joinable.  The call of [join] is an event; when the worker finishes
    the call returns and the member is not joinable any more, otherwise
    the caller stays blocked in it. *)
Definition join_if_joinable (t : Thread) : M (Outcome unit) :=
  b ← get_bus;
  match threads_ b t with
  | Some _ =>
      emit (ThreadJoin t) ;;
      if finishes t then
        put_bus (mkBus (isMissingDeviceOrHasError_ b) (allDevicesActive_ b)
                   (isPassive_ b) (options_ b) (outgoingMsgs_ b)
                   (fun s => if thread_eqb s t then None else threads_ b s)
                   (running_ b)) ;;
        mret (Returned tt)
      else mret Blocked
  | None => mret (Returned tt)
  end.

(** The next statement is reached when the call before it has returned. *)
Definition and_then (c k : M (Outcome unit)) : M (Outcome unit) :=
  r ← c;
  match r with
  | Returned _ => k
  | Blocked => mret Blocked
  end.

(** [stopThreads(wait)] *)
Definition stopThreads (wait : bool) : M (Outcome unit) :=
  set_running false ;;
  emit (NotifyAll condTransmitThread_) ;;
  emit (NotifyAll condOutputQueueEmpty_) ;;
  if wait then
    and_then (join_if_joinable receiveThread_)
      (and_then (join_if_joinable transmitThread_)
         (join_if_joinable sanityCheckThread_))
  else mret (Returned tt).

(** [processOutputQueue]: one pass of the transmit loop.  With the queue
    empty and the bus running the call notifies [condOutputQueueEmpty_] and
    is suspended in [condTransmitThread_.wait(lock)], which gives up the
    lock: that is [Blocked].  When woken, [wait] takes the lock again and
    the loop condition is tested anew, which is this function run from the
    state found then.  The [std::unique_lock] unlocks on return when it
    owns the lock. *)
Definition processOutputQueue : M (Outcome bool) :=
  emit Lock ;;
  b ← get_bus;
  if (length (outgoingMsgs_ b) =? 0)%nat && running_ b then
    emit (NotifyAll condOutputQueueEmpty_) ;;
    emit (Wait condTransmitThread_) ;;
    mret Blocked
  else if negb (running_ b) then
    emit Unlock ;;
    mret (Returned true)
  else
    msg ← front;
    emit Unlock ;;
    p ← isPassive;
    writeSuccess ←
      (if p : bool then mret true
       else call (CallWriteData msg) (writeData msg));
    (if writeSuccess : bool then
       emit Lock ;;
       pop ;;
       emit Unlock
     else mret tt) ;;
    mret (Returned writeSuccess).

(** *** Observations on worlds and traces *)

(** The bus with another queue. *)
Definition with_queue (b : Bus Msg) (q : list Msg) : Bus Msg :=
  mkBus (isMissingDeviceOrHasError_ b) (allDevicesActive_ b)
    (isPassive_ b) (options_ b) q (threads_ b) (running_ b).

(** A world with further events. *)
Definition after (w : World Msg Driver) (events : list (Event Msg))
  : World Msg Driver :=
  mkWorld (bus w) (driver w) (trace w ++ events).

(** The log line of [checkOutgoingMsgsSize], when it is written. *)
Definition overflow_log (w : World Msg Driver) : list (Event Msg) :=
  if Z.of_nat (length (outgoingMsgs_ (bus w))) >=? maxQueueSize_ (options_ (bus w))
  then [Log ExceedingMaxQueueSizeDroppingMessage]
  else [].

(** The calls of [pthread_setschedparam] in a trace: the thread whose
    handle was passed, the policy and the priority. *)
Fixpoint sched_calls (t : list (Event Msg)) : list (Thread * SchedPolicy * Z) :=
  match t with
  | [] => []
  | SetSchedParam th policy priority :: t' =>
      (th, policy, priority) :: sched_calls t'
  | _ :: t' => sched_calls t'
  end.

(** The frames handed to [writeData] in a trace. *)
Fixpoint write_calls (t : list (Event Msg)) : list Msg :=
  match t with
  | [] => []
  | CallWriteData msg :: t' => msg :: write_calls t'
  | _ :: t' => write_calls t'
  end.

(** The lock operations in a trace. *)
Fixpoint lock_events (t : list (Event Msg)) : list (Event Msg) :=
  match t with
  | [] => []
  | Lock :: t' => Lock :: lock_events t'
  | Unlock :: t' => Unlock :: lock_events t'
  | _ :: t' => lock_events t'
  end.

(** The head frame was popped on the way from [w] to [w']; the queue was
    left as it was. *)
Definition popped (w w' : World Msg Driver) : Prop :=
  exists msg, outgoingMsgs_ (bus w) = msg :: outgoingMsgs_ (bus w').

Definition retained (w w' : World Msg Driver) : Prop :=
  outgoingMsgs_ (bus w') = outgoingMsgs_ (bus w).

(** What the driver answers when handed the head frame in [w]. *)
Definition writeData_answers (w : World Msg Driver) (answer : bool) : Prop :=
  exists msg q, outgoingMsgs_ (bus w) = msg :: q /\
                fst (writeData msg (driver w)) = answer.

(** One attempt to transmit the head frame took [w] to [w'] and reported
    [success]: the frame is popped iff the bus was passive or [writeData]
    returned true, and retained otherwise; a passive bus reports success
    and does not call [writeData]; an active bus calls it once, on the
    head frame, and reports its answer. *)
Definition transmit_attempt (w : World Msg Driver) (success : bool)
    (w' : World Msg Driver) : Prop :=
  (popped w w' <-> isPassive_ (bus w) = true \/ writeData_answers w true) /\
  (retained w w' <-> ~ popped w w') /\
  (isPassive_ (bus w) = true ->
     success = true /\ driver w' = driver w /\
     write_calls (trace w') = write_calls (trace w)) /\
  (isPassive_ (bus w) = false ->
     writeData_answers w success /\
     (exists msg, head (outgoingMsgs_ (bus w)) = Some msg /\
                  driver w' = snd (writeData msg (driver w)) /\
                  write_calls (trace w') = write_calls (trace w) ++ [msg])) /\
  (isPassive_ (bus w) = false -> writeData_answers w false -> retained w w') /\
  isPassive_ (bus w') = isPassive_ (bus w) /\
  running_ (bus w') = running_ (bus w) /\
  options_ (bus w') = options_ (bus w).

End BusOf.

End Bus.

(** ** tcan_can/CanBus.hpp *)

Module CanBus.
Import Bus.

(** Modelled from the spec: tcan_can/CanMsg.hpp is not among the sources.
    The spec's Frame is constructed "with identifier, length, and optional
    payload (pointer+length or literal sequence); unset bytes are zero",
    which is the frame of yalc/CANMsg.hpp and its constructor from a
    pointer. *)
Definition CanMsg : Type := Yalc.CANMsg.

Definition CanMsg_ctor (id length : Z) (data : list Z) : option CanMsg :=
  Yalc.CANMsg_ptr id length data.

Record CanFrameIdentifier := mkCanFrameIdentifier {
  identifier : Z;
  mask : Z
}.

(** [explicit CanFrameIdentifier(uint32_t id, uint32_t msk = 0xffffffffu)]
    with the default mask. *)
Definition CanFrameIdentifier_id (id : Z) : CanFrameIdentifier :=
  mkCanFrameIdentifier id 0xffffffff.

(** [bool operator==(const CanFrameIdentifier& rhs) const] *)
Definition CanFrameIdentifier_eq (lhs rhs : CanFrameIdentifier) : bool :=
  (identifier lhs =? identifier rhs) && (mask lhs =? mask rhs).

(** [operator==] is the key equality of the dispatch map; it decides
    equality of matchers. *)
#[export] Instance CanFrameIdentifier_eq_dec : EqDecision CanFrameIdentifier.
Proof.
  intros lhs rhs.
  destruct (CanFrameIdentifier_eq lhs rhs) eqn:E.
  - left. destruct lhs, rhs. unfold CanFrameIdentifier_eq in E. simpl in E.
    apply andb_true_iff in E. destruct E as [Ei Em].
    apply Z.eqb_eq in Ei. apply Z.eqb_eq in Em. congruence.
  - right. intros ->. unfold CanFrameIdentifier_eq in E.
    rewrite !Z.eqb_refl in E. discriminate E.
Defined.

#[export] Instance CanFrameIdentifier_countable : Countable CanFrameIdentifier.
Proof.
  apply (inj_countable' (fun k => (identifier k, mask k))
                        (fun p => mkCanFrameIdentifier (fst p) (snd p))).
  intros []. reflexivity.
Defined.

Section CanBusOf.

(** Objects are named by their address.  [Fp] is the type of the pointers
    to the member functions of [T] that take a [const CanMsg&] and return
    [bool]. *)
Context {Fp : Type}.

Definition Ptr : Type := nat.

(** [std::bind(fp, device, std::placeholders::_1)] holds its two
    arguments. *)
Record CallbackPtr := bind {
  bound_fp : Fp;
  bound_object : Ptr
}.

(** The mapped type [std::pair<CanDevice*, CallbackPtr>]; [None] is
    [nullptr]. *)
Definition Slot : Type := option Ptr * CallbackPtr.

(** The members CanBus adds to [Bus<CanMsg>]. *)
Record CanBus := mkCanBus {
  devices_ : list Ptr;
  canFrameIdentifierToFunctionMap_ : gmap CanFrameIdentifier Slot;
  unmappedMessageCallbackFunction_ : option CallbackPtr
}.

(** [std::unordered_map::emplace(key, value).second], with the map it
    leaves: an element is inserted when no element has an equal key.  The
    hasher combines the two members of the key, so equal keys hash alike
    and the map is the finite map over key equality. *)
Definition emplace (key : CanFrameIdentifier) (value : Slot)
    (m : gmap CanFrameIdentifier Slot) : bool * gmap CanFrameIdentifier Slot :=
  match m !! key with
  | Some _ => (false, m)
  | None => (true, <[key := value]> m)
  end.

Definition emplace_in (key : CanFrameIdentifier) (value : Slot) (c : CanBus)
  : bool * CanBus :=
  let '(inserted, m) := emplace key value (canFrameIdentifierToFunctionMap_ c) in
  (inserted, mkCanBus (devices_ c) m (unmappedMessageCallbackFunction_ c)).

(** The four overloads of [addCanMessage]: by frame id or by matcher, and
    for a [T] that is not derived from [CanDevice] ([object]) or one that
    is ([device]). *)
Definition addCanMessage_id_object (canFrameId : Z) (object : Ptr) (fp : Fp)
    (c : CanBus) : bool * CanBus :=
  emplace_in (CanFrameIdentifier_id canFrameId) (None, bind fp object) c.

Definition addCanMessage_id_device (canFrameId : Z) (device : Ptr) (fp : Fp)
    (c : CanBus) : bool * CanBus :=
  emplace_in (CanFrameIdentifier_id canFrameId) (Some device, bind fp device) c.

Definition addCanMessage_matcher_object (matcher : CanFrameIdentifier)
    (object : Ptr) (fp : Fp) (c : CanBus) : bool * CanBus :=
  emplace_in matcher (None, bind fp object) c.

Definition addCanMessage_matcher_device (matcher : CanFrameIdentifier)
    (device : Ptr) (fp : Fp) (c : CanBus) : bool * CanBus :=
  emplace_in matcher (Some device, bind fp device) c.

(** [addCanMessage(matcher, device, fp)] for either kind of [T]. *)
Definition addCanMessage (matcher : CanFrameIdentifier) (is_device : bool)
    (device : Ptr) (fp : Fp) (c : CanBus) : bool * CanBus :=
  if is_device then addCanMessage_matcher_device matcher device fp c
  else addCanMessage_matcher_object matcher device fp c.

Definition setUnmappedMessageCallback (callbackPtr : CallbackPtr) (c : CanBus)
  : CanBus :=
  mkCanBus (devices_ c) (canFrameIdentifierToFunctionMap_ c) (Some callbackPtr).

(** The slot [addCanMessage] stores for an object that is a device, or is
    not. *)
Definition slot_of (is_device : bool) (device : Ptr) (fp : Fp) : Slot :=
  (if is_device then Some device else None, bind fp device).

(** A matcher equal to [matcher] under [operator==] is a key of the
    dispatch map. *)
Definition registered (matcher : CanFrameIdentifier) (c : CanBus) : Prop :=
  exists key slot,
    canFrameIdentifierToFunctionMap_ c !! key = Some slot /\
    CanFrameIdentifier_eq key matcher = true.

End CanBusOf.

Section Sync.

Context {Driver : Type}.

(** [sendMessage(CanMsg(0x80, 0, nullptr))] *)
Definition sendSync : M (Msg := CanMsg) (Driver := Driver) unit :=
  msg ← defined (CanMsg_ctor 0x80 0 Yalc.nullptr);
  sendMessage msg.

(** [sendMessageWithoutLock(CanMsg(0x80, 0, nullptr))] *)
Definition sendSyncWithoutLock : M (Msg := CanMsg) (Driver := Driver) unit :=
  msg ← defined (CanMsg_ctor 0x80 0 Yalc.nullptr);
  sendMessageWithoutLock msg.

End Sync.

End CanBus.

(** ** [Bus::waitForEmptyQueue] among the other threads *)

Module WaitQueue.

(** Who owns [outgointMsgsMutex_]: the thread that called
    [waitForEmptyQueue], or some other thread. *)
Inductive Holder : Type :=
| Caller | Other.

(** What the predicate of the wait reads, and the mutex. *)
Record Shared (Msg : Type) := mkShared {
  outgoingMsgs_ : list Msg;
  running_ : bool;
  outgointMsgsMutex_ : option Holder
}.

Arguments mkShared {Msg} _ _ _.
Arguments outgoingMsgs_ {Msg} _.
Arguments running_ {Msg} _.
Arguments outgointMsgsMutex_ {Msg} _.

(** Where the caller is.  [condOutputQueueEmpty_.wait(lock, pred)] is
    [while (!pred()) wait(lock);], and [wait(lock)] releases the lock,
    sleeps until notified (or woken for no reason) and takes the lock
    again before it returns. *)
Inductive Pc : Type :=
| Entry      (* about to construct the unique_lock: blocks until it owns the mutex *)
| Testing    (* owns the mutex, evaluates the predicate *)
| Sleeping   (* inside wait(lock): the mutex is released *)
| Waking     (* woken inside wait(lock): blocks until it owns the mutex again *)
| Returned.  (* waitForEmptyQueue has returned *)

(** [outgoingMsgs_.size() == 0 || !running_] *)
Definition predicate {Msg : Type} (s : Shared Msg) : bool :=
  (length (outgoingMsgs_ s) =? 0)%nat || negb (running_ s).

Definition with_mutex {Msg : Type} (s : Shared Msg) (h : option Holder)
  : Shared Msg :=
  mkShared (outgoingMsgs_ s) (running_ s) h.

Definition with_queue {Msg : Type} (s : Shared Msg) (q : list Msg)
  : Shared Msg :=
  mkShared q (running_ s) (outgointMsgsMutex_ s).

Definition with_running {Msg : Type} (s : Shared Msg) (r : bool)
  : Shared Msg :=
  mkShared (outgoingMsgs_ s) r (outgointMsgsMutex_ s).

(** One step of the caller. *)
Definition caller_step {Msg : Type} (st : Pc * Shared Msg) : Pc * Shared Msg :=
  let '(pc, s) := st in
  match pc with
  | Entry | Waking =>
      match outgointMsgsMutex_ s with
      | None => (Testing, with_mutex s (Some Caller))
      | Some _ => (pc, s)
      end
  | Testing =>
      if predicate s then (Returned, s)
      else (Sleeping, with_mutex s None)
  | Sleeping => (Sleeping, s)
  | Returned => (Returned, s)
  end.

(** What can happen next: a step of the caller, a wake-up of the sleeping
    caller ([notify_all] on [condOutputQueueEmpty_], or a spurious one), or
    a step of another thread.  The other threads lock and unlock the mutex,
    push and pop while they own it (as every access to the queue in
    Bus.hpp does), and store to the atomic [running_] at any time. *)
Inductive Action (Msg : Type) : Type :=
| CallerStep
| WakeUp
| OtherLock
| OtherUnlock
| OtherPush (msg : Msg)
| OtherPop
| StoreRunning (r : bool).

Arguments CallerStep {Msg}.
Arguments WakeUp {Msg}.
Arguments OtherLock {Msg}.
Arguments OtherUnlock {Msg}.
Arguments OtherPush {Msg} msg.
Arguments OtherPop {Msg}.
Arguments StoreRunning {Msg} r.

Definition owned_by_other {Msg : Type} (s : Shared Msg) : bool :=
  match outgointMsgsMutex_ s with
  | Some Other => true
  | _ => false
  end.

Definition step {Msg : Type} (a : Action Msg) (st : Pc * Shared Msg)
  : Pc * Shared Msg :=
  let '(pc, s) := st in
  match a with
  | CallerStep => caller_step st
  | WakeUp =>
      match pc with
      | Sleeping => (Waking, s)
      | _ => st
      end
  | OtherLock =>
      match outgointMsgsMutex_ s with
      | None => (pc, with_mutex s (Some Other))
      | Some _ => st
      end
  | OtherUnlock =>
      if owned_by_other s then (pc, with_mutex s None) else st
  | OtherPush msg =>
      if owned_by_other s then (pc, with_queue s (outgoingMsgs_ s ++ [msg]))
      else st
  | OtherPop =>
      if owned_by_other s then (pc, with_queue s (tail (outgoingMsgs_ s)))
      else st
  | StoreRunning r => (pc, with_running s r)
  end.

(** A schedule is run from left to right. *)
Definition run {Msg : Type} (schedule : list (Action Msg))
    (st : Pc * Shared Msg) : Pc * Shared Msg :=
  fold_left (fun st a => step a st) schedule st.

(** The call starts at [Entry]. *)
Definition waitForEmptyQueue {Msg : Type} (schedule : list (Action Msg))
    (s : Shared Msg) : Pc * Shared Msg :=
  run schedule (Entry, s).


End WaitQueue.

(** ** Concrete buses *)

Module Examples.
Import Bus.

(** A transport that accepts every frame, one that refuses every frame,
    and a system that grants every priority. *)
Definition accept_all : Z -> unit -> bool * unit := fun _ d => (true, d).
Definition refuse_all : Z -> unit -> bool * unit := fun _ d => (false, d).
Definition interface_up : unit -> bool * unit := fun d => (true, d).
Definition priority_granted : Thread -> SchedPolicy -> Z -> Z := fun _ _ _ => 0.

(** An asynchronous bus with room for two frames and the priorities 10,
    20 and 30 for the receive, transmit and sanity-check threads. *)
Definition can0 : BusOptions :=
  mkBusOptions "can0" true false false 2 100 10 20 30.

(** The bus as constructed. *)
Definition fresh_world : World Z unit :=
  mkWorld (Bus_ctor can0) tt [].

(** A running bus whose queue holds [maxQueueSize_] frames. *)
Definition full_world : World Z unit :=
  mkWorld (mkBus false false false can0 [1; 2] (fun _ => None) true) tt [].

(** A running, active bus with one frame queued. *)
Definition active_world : World Z unit :=
  mkWorld (mkBus false false false can0 [7] (fun _ => None) true) tt [].

(** A passive bus with one frame queued whose [running_] is false, as
    after [stopThreads]. *)
Definition stopped_passive_world : World Z unit :=
  mkWorld (mkBus false false true can0 [7] (fun _ => None) false) tt [].

(** A running bus with nothing queued. *)
Definition idle_world : World Z unit :=
  mkWorld (mkBus false false false can0 [] (fun _ => None) true) tt [].

(** A CAN bus as constructed. *)
Definition can_world : World CanBus.CanMsg unit :=
  mkWorld (Bus_ctor can0) tt [].

(** A run in which the call returns: the caller finds a frame queued and
    sleeps, the transmit thread pops the frame under the lock and
    notifies, and the caller wakes, takes the lock and returns. *)
Definition drain_schedule : list (WaitQueue.Action Z) :=
  [WaitQueue.CallerStep; WaitQueue.CallerStep; WaitQueue.OtherLock;
   WaitQueue.OtherPop; WaitQueue.OtherUnlock; WaitQueue.WakeUp;
   WaitQueue.CallerStep].

End Examples.

(** ** tcan/Bus.hpp: the worker loops and sequences of calls *)

Module Workers.
Import Bus.

(** How a run of a worker loop ends: the loop was left because [running_]
    is false (the thread then writes its "... thread for bus ...
    terminated" line and ends), the thread is suspended in a wait, or the
    passes granted to the run are used up. *)
Inductive LoopEnd : Type :=
| Terminated
| Suspended
| OutOfFuel.

Section WorkersOf.

Context {Msg Driver : Type}.

Variable readData : Driver -> bool * Driver.
Variable writeData : Msg -> Driver -> bool * Driver.

(** [while(running_) { processOutputQueue(); }], for at most [fuel]
    passes. *)
Fixpoint transmitWorker (fuel : nat) : M (Msg := Msg) (Driver := Driver) LoopEnd :=
  b ← get_bus;
  if running_ b then
    match fuel with
    | O => mret OutOfFuel
    | S fuel' =>
        r ← processOutputQueue writeData;
        match r with
        | Returned _ => transmitWorker fuel'
        | Blocked => mret Suspended
        end
    end
  else mret Terminated.

(** [while(running_) { readMessage(); }], for at most [fuel] passes. *)
Fixpoint receiveWorker (fuel : nat) : M (Msg := Msg) (Driver := Driver) LoopEnd :=
  b ← get_bus;
  if running_ b then
    match fuel with
    | O => mret OutOfFuel
    | S fuel' =>
        readMessage readData ;;
        receiveWorker fuel'
    end
  else mret Terminated.

(** A producer that calls [sendMessage] for each frame in turn. *)
Fixpoint sendMessages (msgs : list Msg) : M (Msg := Msg) (Driver := Driver) unit :=
  match msgs with
  | [] => mret tt
  | msg :: rest => sendMessage msg ;; sendMessages rest
  end.

(** A frame sent while passive, a run of the transmit loop, then
    activation, a second frame and another run. *)
Definition passive_then_active (a b : Msg)
  : M (Msg := Msg) (Driver := Driver) LoopEnd :=
  passivate ;;
  sendMessage a ;;
  transmitWorker 2 ;;
  activate ;;
  sendMessage b ;;
  transmitWorker 2.

(** The threads started and the threads joined in a trace, in order. *)
Fixpoint started (t : list (Event Msg)) : list Thread :=
  match t with
  | [] => []
  | ThreadStart th _ :: t' => th :: started t'
  | _ :: t' => started t'
  end.

Fixpoint joined (t : list (Event Msg)) : list Thread :=
  match t with
  | [] => []
  | ThreadJoin th :: t' => th :: joined t'
  | _ :: t' => joined t'
  end.

(** The calls of [readData] in a trace. *)
Fixpoint read_calls (t : list (Event Msg)) : nat :=
  match t with
  | [] => O
  | CallReadData :: t' => S (read_calls t')
  | _ :: t' => read_calls t'
  end.

(** The threads [initBus] starts on the options [o] once the interface is
    up, and the member function each thread member is started with. *)
Definition threads_of (o : BusOptions) : list Thread :=
  if asynchronous_ o
  then receiveThread_ :: transmitThread_ ::
       (if sanityCheckInterval_ o >? 0 then [sanityCheckThread_] else [])
  else [].

Definition worker_of (th : Thread) : Worker :=
  match th with
  | receiveThread_ => Bus.receiveWorker
  | transmitThread_ => Bus.transmitWorker
  | sanityCheckThread_ => Bus.sanityCheckWorker
  end.

(** How often the line "Auto-activated bus ..." was logged in a trace. *)
Fixpoint auto_activations (t : list (Event Msg)) : nat :=
  match t with
  | [] => O
  | Log AutoActivatedBus :: t' => S (auto_activations t')
  | _ :: t' => auto_activations t'
  end.

(** The thread members that hold a thread, in the order in which
    [stopThreads] looks at them. *)
Definition joinable (b : Bus Msg) : list Thread :=
  List.filter (fun th => match threads_ b th with Some _ => true | None => false end)
    [receiveThread_; transmitThread_; sanityCheckThread_].

(** The members [stopThreads(true)] calls [join] on, given the joinable
    ones in its order: each in turn, up to and including the first whose
    worker does not finish; and those of them whose [join] returns. *)
Fixpoint join_calls (finishes : Thread -> bool) (ths : list Thread)
  : list Thread :=
  match ths with
  | [] => []
  | th :: rest => th :: (if finishes th then join_calls finishes rest else [])
  end.

Fixpoint joins_returned (finishes : Thread -> bool) (ths : list Thread)
  : list Thread :=
  match ths with
  | [] => []
  | th :: rest =>
      if finishes th then th :: joins_returned finishes rest else []
  end.

(** The two worlds have the same flags, options and thread members. *)
Definition same_settings (w w' : World Msg Driver) : Prop :=
  isMissingDeviceOrHasError_ (bus w') = isMissingDeviceOrHasError_ (bus w) /\
  allDevicesActive_ (bus w') = allDevicesActive_ (bus w) /\
  isPassive_ (bus w') = isPassive_ (bus w) /\
  options_ (bus w') = options_ (bus w) /\
  threads_ (bus w') = threads_ (bus w) /\
  running_ (bus w') = running_ (bus w).

End WorkersOf.

End Workers.

(** ** yalc/CANMsg.hpp: octets and ranges *)

Module Octets.
Import CInt Yalc.

(** Every element of [data_] is a [uint8_t]. *)
Definition octets (m : CANMsg) : Prop := Forall is_octet (data_ m).

(** The index ranges [[p1, p1 + n1)] and [[p2, p2 + n2)] do not meet. *)
Definition apart (p1 n1 p2 n2 : Z) : Prop := p1 + n1 <= p2 \/ p2 + n2 <= p1.

End Octets.

(** ** yalc/DeviceCanOpen.hpp: the identifiers *)

Module DeviceCanOpen.

Definition TxPDO1Id : Z := 0x180.
Definition TxPDO2Id : Z := 0x280.
Definition TxPDO3Id : Z := 0x380.
Definition TxPDO4Id : Z := 0x480.
Definition TxSDOId : Z := 0x580.
Definition TxNMT : Z := 0x700.

Definition RxPDOSyncId : Z := 0x80.
Definition RxPDO1Id : Z := 0x200.
Definition RxPDO2Id : Z := 0x300.
Definition RxPDO3Id : Z := 0x400.
Definition RxPDO4Id : Z := 0x500.
Definition RxSDOId : Z := 0x600.

(** The identifiers a device sends on, and a bus listens on. *)
Definition TxIds : list Z :=
  [TxPDO1Id; TxPDO2Id; TxPDO3Id; TxPDO4Id; TxSDOId; TxNMT].

(** [DeviceCanOpen::TxSDOId + getNodeId()] and the like: the sum of an
    [int] constant and the [uint32_t] node id, taken in [uint32_t]. *)
Definition cob_id (base nodeId : Z) : Z := CInt.to_uint 32 (base + nodeId).

End DeviceCanOpen.

(** ** tcan_can/CanBus.hpp: sequences of registrations *)

Module Registry.
Import CanBus.

Section RegistryOf.

Context {Fp : Type}.

(** The arguments of one call of [addCanMessage(matcher, device, fp)]. *)
Record Registration := mkRegistration {
  reg_matcher : CanFrameIdentifier;
  reg_is_device : bool;
  reg_device : Ptr;
  reg_fp : Fp
}.

(** The calls made one after the other, with what each returned. *)
Fixpoint addCanMessages (regs : list Registration) (c : CanBus (Fp := Fp))
  : list bool * CanBus (Fp := Fp) :=
  match regs with
  | [] => ([], c)
  | r :: rest =>
      let '(ok, c1) :=
        addCanMessage (reg_matcher r) (reg_is_device r) (reg_device r)
          (reg_fp r) c in
      let '(oks, c2) := addCanMessages rest c1 in
      (ok :: oks, c2)
  end.

(** The slot of the first registration for [matcher] in a sequence. *)
Fixpoint first_slot (matcher : CanFrameIdentifier) (regs : list Registration)
  : option (Slot (Fp := Fp)) :=
  match regs with
  | [] => None
  | r :: rest =>
      if CanFrameIdentifier_eq (reg_matcher r) matcher
      then Some (slot_of (reg_is_device r) (reg_device r) (reg_fp r))
      else first_slot matcher rest
  end.

(** The call [addCanMessage(base + nodeId, device, fp)] for a [device]
    derived from [CanDevice]. *)
Definition by_id (base nodeId : Z) (device : Ptr) (fp : Fp) : Registration :=
  mkRegistration (CanFrameIdentifier_id (DeviceCanOpen.cob_id base nodeId))
    true device fp.

(** The number of calls that returned true. *)
Definition accepted (results : list bool) : nat :=
  length (List.filter (fun ok => ok) results).

End RegistryOf.

Arguments Registration Fp : clear implicits.

End Registry.

(** ** More concrete buses, frames and registrations *)

Module Scenarios.
Import Bus.

(** A running, passive bus with two frames queued. *)
Definition passive_world : World Z unit :=
  mkWorld (mkBus false false true Examples.can0 [7; 8] (fun _ => None) true) tt [].

(** A transport on which every read yields a frame. *)
Definition frame_received : unit -> bool * unit := fun d => (true, d).

(** A frame with eight data octets. *)
Definition sample_frame : Yalc.CANMsg :=
  Yalc.mkCANMsg 0x201 false 8 [1; 2; 3; 4; 250; 251; 252; 253].

(** A CAN bus with nothing registered; member functions are named by a
    number. *)
Definition empty_bus : CanBus.CanBus (Fp := nat) := CanBus.mkCanBus [] ∅ None.

(** The SDO, heartbeat and first PDO identifiers of the nodes 1 and 2, for
    the devices at the addresses 10 and 20. *)
Definition two_nodes : list (Z * Z * CanBus.Ptr * nat) :=
  [(DeviceCanOpen.TxSDOId, 1, 10%nat, 0%nat);
   (DeviceCanOpen.TxNMT, 1, 10%nat, 1%nat);
   (DeviceCanOpen.TxPDO1Id, 1, 10%nat, 2%nat);
   (DeviceCanOpen.TxSDOId, 2, 20%nat, 0%nat);
   (DeviceCanOpen.TxNMT, 2, 20%nat, 1%nat);
   (DeviceCanOpen.TxPDO1Id, 2, 20%nat, 2%nat)].

End Scenarios.

(** * Part II: the properties *)

(** ** The frame: conversions, loads and stores *)

Module YalcFacts.
Import CInt Yalc.

(** *** Arithmetic of the conversions *)

(** The conversions at the widths in use, as remainders. *)
Ltac widths :=
  repeat match goal with
    | |- context [to_uint 8 ?x] => change (to_uint 8 x) with (x mod 256)
    | |- context [to_uint 16 ?x] => change (to_uint 16 x) with (x mod 65536)
    | |- context [to_uint 32 ?x] =>
        change (to_uint 32 x) with (x mod 4294967296)
    | |- context [to_int 8 ?x] =>
        change (to_int 8 x) with ((x + 128) mod 256 - 128)
    | |- context [to_int 16 ?x] =>
        change (to_int 16 x) with ((x + 32768) mod 65536 - 32768)
    | |- context [to_int 32 ?x] =>
        change (to_int 32 x)
          with ((x + 2147483648) mod 4294967296 - 2147483648)
    end.

Ltac pow2 :=
  change (2 ^ 8) with 256 in *; change (2 ^ 16) with 65536 in *;
  change (2 ^ 24) with 16777216 in *; change (2 ^ 32) with 4294967296 in *.

Ltac euclid := pow2; Z.div_mod_to_equations; lia.

Lemma octet_div_mod value s :
  0 <= s -> octet value s = (value / 2 ^ s) mod 256.
Proof.
  intros Hs. unfold octet. widths.
  change 255 with (Z.ones 8).
  rewrite Z.land_ones by lia.
  rewrite Z.shiftr_div_pow2 by lia.
  change (2 ^ 8) with 256.
  rewrite Z.mod_mod by lia. reflexivity.
Qed.

Lemma octet_range value s : 0 <= s -> 0 <= octet value s < 256.
Proof.
  intros Hs. rewrite octet_div_mod by assumption.
  apply Z.mod_pos_bound. lia.
Qed.

(** Bitwise or of a multiple of [2^n] with a value below [2^n] is their
    sum: the two have no bit in common. *)
Lemma lor_high_low h r n :
  0 <= n -> 0 <= r < 2 ^ n -> Z.lor (h * 2 ^ n) r = h * 2 ^ n + r.
Proof.
  intros Hn Hr.
  assert (Hdisj : Z.land (h * 2 ^ n) r = 0).
  { apply Z.bits_inj'. intros i Hi.
    rewrite Z.land_spec, Z.bits_0.
    destruct (Z.lt_ge_cases i n) as [Hlt | Hge].
    - rewrite Z.mul_pow2_bits_low by lia. reflexivity.
    - rewrite <- (Z.mod_small r (2 ^ n)) by lia.
      rewrite Z.mod_pow2_bits_high by lia.
      apply andb_false_r. }
  rewrite <- Z.lxor_lor by assumption.
  symmetry. apply Z.add_nocarry_lxor. assumption.
Qed.

Lemma lor_add n x r :
  0 <= n -> x mod 2 ^ n = 0 -> 0 <= r < 2 ^ n -> Z.lor x r = x + r.
Proof.
  intros Hn Hx Hr.
  assert (Hpos : 0 < 2 ^ n) by (apply Z.pow_pos_nonneg; lia).
  rewrite (Z.div_mod x (2 ^ n)) at 1 2 by lia.
  rewrite Hx, Z.add_0_r, (Z.mul_comm (2 ^ n)).
  apply lor_high_low; assumption.
Qed.

Lemma join_uint32_sum b3 b2 b1 b0 :
  is_octet b3 -> is_octet b2 -> is_octet b1 -> is_octet b0 ->
  join_uint32 b3 b2 b1 b0 = b3 * 16777216 + b2 * 65536 + b1 * 256 + b0.
Proof.
  unfold is_octet. intros H3 H2 H1 H0.
  unfold join_uint32, shl_uint32.
  rewrite !Z.shiftl_mul_pow2 by lia. widths.
  change (2 ^ 24) with 16777216. change (2 ^ 16) with 65536.
  change (2 ^ 8) with 256.
  rewrite (Z.mod_small b3), (Z.mod_small b2), (Z.mod_small b1),
    (Z.mod_small b0) by lia.
  rewrite (Z.mod_small (b3 * _)), (Z.mod_small (b2 * _)),
    (Z.mod_small (b1 * _)) by lia.
  rewrite (lor_add 24 (b3 * 16777216) (b2 * 65536)) by euclid.
  rewrite (lor_add 16 (_ + _) (b1 * 256)) by euclid.
  rewrite (lor_add 8 (_ + _) b0) by euclid.
  apply Z.mod_small. lia.
Qed.

Lemma join_int32_sum b3 b2 b1 b0 :
  is_octet b3 -> is_octet b2 -> is_octet b1 -> is_octet b0 ->
  join_int32 b3 b2 b1 b0 =
  to_int 32 (b3 * 16777216 + b2 * 65536 + b1 * 256 + b0).
Proof.
  unfold is_octet. intros H3 H2 H1 H0.
  unfold join_int32, shl_int.
  rewrite !Z.shiftl_mul_pow2 by lia.
  change (2 ^ 24) with 16777216. change (2 ^ 16) with 65536.
  change (2 ^ 8) with 256.
  assert (E3 : to_int 32 b3 = b3) by (widths; euclid).
  assert (E2 : to_int 32 b2 = b2) by (widths; euclid).
  assert (E1 : to_int 32 b1 = b1) by (widths; euclid).
  assert (E0 : to_int 32 b0 = b0) by (widths; euclid).
  rewrite E3, E2, E1, E0.
  assert (S2 : to_int 32 (b2 * 65536) = b2 * 65536) by (widths; euclid).
  assert (S1 : to_int 32 (b1 * 256) = b1 * 256) by (widths; euclid).
  rewrite S2, S1.
  set (h := to_int 32 (b3 * 16777216)).
  assert (Hh : h mod 16777216 = 0 /\
               (h = b3 * 16777216 \/ h = b3 * 16777216 - 4294967296)).
  { subst h. widths. euclid. }
  destruct Hh as [Hmod Hcase].
  rewrite (lor_add 24 h (b2 * 65536)) by euclid.
  rewrite (lor_add 16 (_ + _) (b1 * 256)) by euclid.
  rewrite (lor_add 8 (_ + _) b0) by euclid.
  widths. euclid.
Qed.

Lemma join_int16_sum b1 b0 :
  is_octet b1 -> is_octet b0 ->
  join_int16 b1 b0 = to_int 16 (b1 * 256 + b0).
Proof.
  unfold is_octet. intros H1 H0.
  unfold join_int16, shl_int.
  rewrite !Z.shiftl_mul_pow2 by lia. pow2.
  assert (E1 : to_int 16 b1 = b1) by (widths; euclid).
  assert (E0 : to_int 16 b0 = b0) by (widths; euclid).
  rewrite E1, E0.
  assert (S1 : to_int 32 (b1 * 256) = b1 * 256) by (widths; euclid).
  rewrite S1.
  rewrite (lor_add 8 (b1 * 256) b0) by euclid.
  reflexivity.
Qed.

Lemma join_uint16_sum b1 b0 :
  is_octet b1 -> is_octet b0 ->
  join_uint16 b1 b0 = b1 * 256 + b0.
Proof.
  unfold is_octet. intros H1 H0.
  unfold join_uint16, shl_int.
  rewrite !Z.shiftl_mul_pow2 by lia. pow2.
  assert (E1 : to_uint 16 b1 = b1) by (widths; euclid).
  assert (E0 : to_uint 16 b0 = b0) by (widths; euclid).
  rewrite E1, E0.
  assert (S1 : to_int 32 (b1 * 256) = b1 * 256) by (widths; euclid).
  rewrite S1.
  rewrite (lor_add 8 (b1 * 256) b0) by euclid.
  widths. euclid.
Qed.

(** The octets a write stores, read back and joined, give the value. *)
Lemma join_int32_octets v :
  in_int 32 v ->
  join_int32 (octet v 24) (octet v 16) (octet v 8) (octet v 0) = v.
Proof.
  intros Hv. unfold in_int in Hv. change (2 ^ (32 - 1)) with 2147483648 in Hv.
  rewrite join_int32_sum by (apply octet_range; lia).
  rewrite !octet_div_mod by lia. widths.
  change (2 ^ 0) with 1. euclid.
Qed.

Lemma join_uint32_octets v :
  in_uint 32 v ->
  join_uint32 (octet v 24) (octet v 16) (octet v 8) (octet v 0) = v.
Proof.
  intros Hv. unfold in_uint in Hv.
  rewrite join_uint32_sum by (apply octet_range; lia).
  rewrite !octet_div_mod by lia.
  change (2 ^ 0) with 1. euclid.
Qed.

Lemma join_int16_octets v :
  in_int 16 v -> join_int16 (octet v 8) (octet v 0) = v.
Proof.
  intros Hv. unfold in_int in Hv. change (2 ^ (16 - 1)) with 32768 in Hv.
  rewrite join_int16_sum by (apply octet_range; lia).
  rewrite !octet_div_mod by lia. widths.
  change (2 ^ 0) with 1. euclid.
Qed.

Lemma join_uint16_octets v :
  in_uint 16 v -> join_uint16 (octet v 8) (octet v 0) = v.
Proof.
  intros Hv. unfold in_uint in Hv.
  rewrite join_uint16_sum by (apply octet_range; lia).
  rewrite !octet_div_mod by lia.
  change (2 ^ 0) with 1. euclid.
Qed.

Lemma to_int8_to_uint8 v : in_int 8 v -> to_int 8 (to_uint 8 v) = v.
Proof.
  unfold in_int. change (2 ^ (8 - 1)) with 128. intros Hv. widths. euclid.
Qed.

(** *** Loads and stores *)

Lemma store_Some d i b d' :
  store d i b = Some d' ->
  0 <= i < Z.of_nat (length d) /\ d' = <[Z.to_nat i := b]> d.
Proof.
  unfold store. intros H.
  destruct (0 <=? i) eqn:E0; destruct (i <? Z.of_nat (length d)) eqn:E1;
    simpl in H; try discriminate H.
  apply Z.leb_le in E0. apply Z.ltb_lt in E1.
  split; [lia | congruence].
Qed.

Lemma store_defined d i b :
  0 <= i < Z.of_nat (length d) -> store d i b = Some (<[Z.to_nat i := b]> d).
Proof.
  intros [H0 H1]. unfold store.
  apply Z.leb_le in H0. apply Z.ltb_lt in H1. rewrite H0, H1. reflexivity.
Qed.

Lemma store_length d i b d' :
  store d i b = Some d' -> length d' = length d.
Proof.
  intros H. apply store_Some in H as [_ ->]. apply length_insert.
Qed.

Lemma load_store_eq d i b d' :
  store d i b = Some d' -> load d' i = Some b.
Proof.
  intros H. apply store_Some in H as [[H0 H1] ->].
  unfold load. apply Z.leb_le in H0 as E. rewrite E.
  apply list_lookup_insert_eq. lia.
Qed.

Lemma load_store_ne d i j b d' :
  store d i b = Some d' -> i <> j -> load d' j = load d j.
Proof.
  intros H Hne. apply store_Some in H as [[H0 H1] ->].
  unfold load. destruct (0 <=? j) eqn:E; [| reflexivity].
  apply Z.leb_le in E. apply list_lookup_insert_ne. lia.
Qed.

(** One store into an array of eight elements: it is defined, keeps the
    length, is read back, and leaves the other elements alone. *)
Lemma store_spec d i b :
  length d = 8%nat -> 0 <= i < 8 ->
  exists d', store d i b = Some d' /\ length d' = 8%nat /\
             load d' i = Some b /\
             (forall j, i <> j -> load d' j = load d j).
Proof.
  intros Hlen Hi.
  assert (E : store d i b = Some (<[Z.to_nat i := b]> d)).
  { apply store_defined. rewrite Hlen. lia. }
  eexists. split; [exact E |]. split; [| split].
  - rewrite (store_length _ _ _ _ E). exact Hlen.
  - exact (load_store_eq _ _ _ _ E).
  - intros j Hj. exact (load_store_ne _ _ _ _ _ E Hj).
Qed.

Lemma store4_spec d pos b3 b2 b1 b0 :
  length d = 8%nat -> 0 <= pos -> pos + 4 <= 8 ->
  exists d',
    (forall (A : Type) (k : list Z -> option A),
        (d ← store d (3 + pos) b3; d ← store d (2 + pos) b2;
         d ← store d (1 + pos) b1; d ← store d (0 + pos) b0; k d) = k d') /\
    length d' = 8%nat /\
    load d' (3 + pos) = Some b3 /\ load d' (2 + pos) = Some b2 /\
    load d' (1 + pos) = Some b1 /\ load d' (0 + pos) = Some b0 /\
    (forall j, j < pos \/ pos + 4 <= j -> load d' j = load d j).
Proof.
  intros Hlen H0 H4.
  destruct (store_spec d (3 + pos) b3 Hlen ltac:(lia))
    as (d1 & E1 & L1 & A1 & F1).
  destruct (store_spec d1 (2 + pos) b2 L1 ltac:(lia))
    as (d2 & E2 & L2 & A2 & F2).
  destruct (store_spec d2 (1 + pos) b1 L2 ltac:(lia))
    as (d3 & E3 & L3 & A3 & F3).
  destruct (store_spec d3 (0 + pos) b0 L3 ltac:(lia))
    as (d4 & E4 & L4 & A4 & F4).
  exists d4. split.
  { intros A k. rewrite E1. simpl. rewrite E2. simpl. rewrite E3. simpl.
    rewrite E4. reflexivity. }
  split; [exact L4 |].
  repeat split.
  - rewrite F4, F3, F2 by lia. exact A1.
  - rewrite F4, F3 by lia. exact A2.
  - rewrite F4 by lia. exact A3.
  - exact A4.
  - intros j Hj. rewrite F4, F3, F2, F1 by lia. reflexivity.
Qed.

Lemma store2_spec d pos b1 b0 :
  length d = 8%nat -> 0 <= pos -> pos + 2 <= 8 ->
  exists d',
    (forall (A : Type) (k : list Z -> option A),
        (d ← store d (1 + pos) b1; d ← store d (0 + pos) b0; k d) = k d') /\
    length d' = 8%nat /\
    load d' (1 + pos) = Some b1 /\ load d' (0 + pos) = Some b0 /\
    (forall j, j < pos \/ pos + 2 <= j -> load d' j = load d j).
Proof.
  intros Hlen H0 H2.
  destruct (store_spec d (1 + pos) b1 Hlen ltac:(lia))
    as (d1 & E1 & L1 & A1 & F1).
  destruct (store_spec d1 (0 + pos) b0 L1 ltac:(lia))
    as (d2 & E2 & L2 & A2 & F2).
  exists d2. split.
  { intros A k. rewrite E1. simpl. rewrite E2. reflexivity. }
  split; [exact L2 |].
  repeat split.
  - rewrite F2 by lia. exact A1.
  - exact A2.
  - intros j Hj. rewrite F2, F1 by lia. reflexivity.
Qed.

Lemma write4_post ty v pos m :
  ty = Int32 \/ ty = UInt32 ->
  wf m -> in_type ty v -> 0 <= pos -> pos + 4 <= 8 ->
  exists m', write ty v pos m = Some m' /\ write_post ty v pos m m'.
Proof.
  intros Hty Hwf Hv H0 H4.
  destruct (store4_spec (data_ m) pos (octet v 24) (octet v 16) (octet v 8)
              (octet v 0) Hwf H0 H4)
    as (d' & E & L & A3 & A2 & A1 & A0 & F).
  exists (with_data m d'). split.
  { destruct Hty as [-> | ->]; simpl; [unfold write_int32 | unfold write_uint32];
      apply E. }
  unfold write_post. split; [| split; [| split]].
  - destruct Hty as [-> | ->]; simpl in *;
      [unfold readint32 | unfold readuint32];
      simpl; rewrite A3, A2, A1, A0; simpl; f_equal;
      [apply join_int32_octets | apply join_uint32_octets]; assumption.
  - assert (Hs : sizeof ty = 4) by (destruct Hty as [-> | ->]; reflexivity).
    rewrite Hs. simpl. intros i Hi.
    assert (Hc : i = 0 \/ i = 1 \/ i = 2 \/ i = 3) by lia.
    destruct Hc as [-> | [-> | [-> | ->]]].
    + replace (pos + 0) with (0 + pos) by lia. rewrite A0.
      f_equal. apply octet_div_mod. lia.
    + replace (pos + 1) with (1 + pos) by lia. rewrite A1.
      f_equal. apply octet_div_mod. lia.
    + replace (pos + 2) with (2 + pos) by lia. rewrite A2.
      f_equal. apply octet_div_mod. lia.
    + replace (pos + 3) with (3 + pos) by lia. rewrite A3.
      f_equal. apply octet_div_mod. lia.
  - assert (Hs : sizeof ty = 4) by (destruct Hty as [-> | ->]; reflexivity).
    rewrite Hs. exact F.
  - repeat split; try reflexivity. exact L.
Qed.

Lemma write2_post ty v pos m :
  ty = Int16 \/ ty = UInt16 ->
  wf m -> in_type ty v -> 0 <= pos -> pos + 2 <= 8 ->
  exists m', write ty v pos m = Some m' /\ write_post ty v pos m m'.
Proof.
  intros Hty Hwf Hv H0 H2.
  destruct (store2_spec (data_ m) pos (octet v 8) (octet v 0) Hwf H0 H2)
    as (d' & E & L & A1 & A0 & F).
  exists (with_data m d'). split.
  { destruct Hty as [-> | ->]; simpl; [unfold write_int16 | unfold write_uint16];
      apply E. }
  unfold write_post. split; [| split; [| split]].
  - destruct Hty as [-> | ->]; simpl in *;
      [unfold readint16 | unfold readuint16];
      simpl; rewrite A1, A0; simpl; f_equal;
      [apply join_int16_octets | apply join_uint16_octets]; assumption.
  - assert (Hs : sizeof ty = 2) by (destruct Hty as [-> | ->]; reflexivity).
    rewrite Hs. simpl. intros i Hi.
    assert (Hc : i = 0 \/ i = 1) by lia.
    destruct Hc as [-> | ->].
    + replace (pos + 0) with (0 + pos) by lia. rewrite A0.
      f_equal. apply octet_div_mod. lia.
    + replace (pos + 1) with (1 + pos) by lia. rewrite A1.
      f_equal. apply octet_div_mod. lia.
  - assert (Hs : sizeof ty = 2) by (destruct Hty as [-> | ->]; reflexivity).
    rewrite Hs. exact F.
  - repeat split; try reflexivity. exact L.
Qed.

Lemma write1_post ty v pos m :
  ty = Int8 \/ ty = UInt8 ->
  wf m -> in_type ty v -> 0 <= pos -> pos + 1 <= 8 ->
  exists m', write ty v pos m = Some m' /\ write_post ty v pos m m'.
Proof.
  intros Hty Hwf Hv H0 H1.
  set (b := match ty with Int8 => to_uint 8 v | _ => v end).
  destruct (store_spec (data_ m) (0 + pos) b Hwf ltac:(lia))
    as (d' & E & L & A0 & F).
  assert (Hb : b = (v / 2 ^ (8 * 0)) mod 256).
  { change (2 ^ (8 * 0)) with 1. subst b.
    destruct Hty as [-> | ->]; simpl in Hv.
    - widths. euclid.
    - unfold in_uint in Hv. euclid. }
  exists (with_data m d'). split.
  { destruct Hty as [-> | ->]; simpl;
      [unfold write_int8 | unfold write_uint8]; subst b; simpl in E;
      rewrite E; reflexivity. }
  unfold write_post. split; [| split; [| split]].
  - destruct Hty as [-> | ->]; simpl in Hv; subst b; cbn [read].
    + unfold readint8. cbn [data_ with_data]. rewrite A0. simpl. f_equal.
      apply to_int8_to_uint8. exact Hv.
    + unfold readuint8. cbn [data_ with_data]. exact A0.
  - assert (Hs : sizeof ty = 1) by (destruct Hty as [-> | ->]; reflexivity).
    rewrite Hs. intros i Hi. assert (i = 0) as -> by lia.
    cbn [data_ with_data].
    replace (pos + 0) with (0 + pos) by lia. rewrite A0. f_equal. exact Hb.
  - assert (Hs : sizeof ty = 1) by (destruct Hty as [-> | ->]; reflexivity).
    rewrite Hs. intros j Hj. apply F. lia.
  - repeat split; try reflexivity. exact L.
Qed.

(** C6. For each of the widths 8, 16 and 32 bits, signed or unsigned, each
    value [v] of that type and each offset [pos] with [pos + w/8 <= 8]:
    [write(v, pos)] is defined and the matching read at [pos] then returns
    [v]; the value is laid out little-endian, the octet of weight [256^i]
    at data index [pos + i], so the least significant one at [pos]; the
    other octets, the identifier, the flag and the length are as before. *)
Theorem CANMsg_write_read_roundtrip (ty : IntType) (v pos : Z) (m : CANMsg) :
  wf m -> in_type ty v -> 0 <= pos -> pos + sizeof ty <= 8 ->
  exists m',
    write ty v pos m = Some m' /\
    read ty pos m' = Some v /\
    (forall i, 0 <= i < sizeof ty ->
       load (data_ m') (pos + i) = Some ((v / 2 ^ (8 * i)) mod 256)) /\
    (forall j, j < pos \/ pos + sizeof ty <= j ->
       load (data_ m') j = load (data_ m) j) /\
    COBId_ m' = COBId_ m /\ flag_ m' = flag_ m /\ length_ m' = length_ m /\
    wf m'.
Proof.
  intros Hwf Hv H0 Hs.
  destruct ty; simpl in Hs.
  - apply (write1_post Int8); auto.
  - apply (write1_post UInt8); auto.
  - apply (write2_post Int16); auto.
  - apply (write2_post UInt16); auto.
  - apply (write4_post Int32); auto.
  - apply (write4_post UInt32); auto.
Qed.

Lemma CANMsg_write_read_roundtrip_witness :
  exists m',
    write Int32 (-2) 4 (CANMsg_id 5) = Some m' /\
    read Int32 4 m' = Some (-2) /\
    (forall i, 0 <= i < sizeof Int32 ->
       load (data_ m') (4 + i) = Some ((-2 / 2 ^ (8 * i)) mod 256)) /\
    (forall j, j < 4 \/ 4 + sizeof Int32 <= j ->
       load (data_ m') j = load (data_ (CANMsg_id 5)) j) /\
    COBId_ m' = COBId_ (CANMsg_id 5) /\ flag_ m' = flag_ (CANMsg_id 5) /\
    length_ m' = length_ (CANMsg_id 5) /\ wf m'.
Proof.
  apply (CANMsg_write_read_roundtrip Int32 (-2) 4 (CANMsg_id 5)).
  - reflexivity.
  - simpl. unfold in_int. simpl. lia.
  - lia.
  - simpl. lia.
Defined.

Example write_int32_minus2 :
  write Int32 (-2) 4 (CANMsg_id 5) =
  Some (mkCANMsg 5 false 0 [0; 0; 0; 0; 254; 255; 255; 255]).
Proof. reflexivity. Qed.

Example read_int32_minus2 :
  read Int32 4 (mkCANMsg 5 false 0 [0; 0; 0; 0; 254; 255; 255; 255]) = Some (-2).
Proof. reflexivity. Qed.

Example write_uint16_layout :
  write UInt16 0xBEEF 1 (CANMsg_id 5) =
  Some (mkCANMsg 5 false 0 [0; 0xEF; 0xBE; 0; 0; 0; 0; 0]).
Proof. reflexivity. Qed.

(** *** [std::copy], [setData] and the constructors *)

Lemma load_defined d i :
  0 <= i < Z.of_nat (length d) -> exists b, load d i = Some b.
Proof.
  intros [H0 H1]. unfold load.
  apply Z.leb_le in H0 as E. rewrite E.
  destruct (lookup_lt_is_Some_2 d (Z.to_nat i)) as [b Hb]; [lia |].
  exists b. exact Hb.
Qed.

Lemma copy_from_spec src n : forall i dst,
  0 <= i ->
  i + Z.of_nat n <= Z.of_nat (length src) ->
  i + Z.of_nat n <= Z.of_nat (length dst) ->
  exists dst',
    copy_from src i n dst = Some dst' /\
    length dst' = length dst /\
    (forall j, i <= j < i + Z.of_nat n -> load dst' j = load src j) /\
    (forall j, j < i \/ i + Z.of_nat n <= j -> load dst' j = load dst j).
Proof.
  induction n as [| n IH]; intros i dst Hi Hsrc Hdst.
  - exists dst. simpl. repeat split; intros; lia || reflexivity.
  - destruct (load_defined src i) as [b Hb]; [lia |].
    assert (Est : store dst i b = Some (<[Z.to_nat i := b]> dst))
      by (apply store_defined; lia).
    pose proof (store_length _ _ _ _ Est) as Hlen.
    destruct (IH (i + 1) (<[Z.to_nat i := b]> dst)) as (dst' & Ec & L & Hin & Hout);
      [lia | lia | rewrite Hlen; lia |].
    exists dst'. simpl. rewrite Hb. simpl. rewrite Est. simpl.
    split; [exact Ec |]. split; [congruence |]. split.
    + intros j Hj. destruct (Z.eq_dec j i) as [-> | Hne].
      * rewrite Hout by lia. rewrite (load_store_eq _ _ _ _ Est). auto.
      * apply Hin. lia.
    + intros j Hj. rewrite Hout by lia.
      apply (load_store_ne _ _ _ _ _ Est). lia.
Qed.

Lemma zeros8_load j : 0 <= j < 8 -> load zeros8 j = Some 0.
Proof.
  intros Hj.
  assert (Hc : j = 0 \/ j = 1 \/ j = 2 \/ j = 3 \/ j = 4 \/ j = 5 \/ j = 6 \/ j = 7)
    by lia.
  destruct Hc as [-> | [-> | [-> | [-> | [-> | [-> | [-> | ->]]]]]]];
    reflexivity.
Qed.

(** C9. For a frame [m] and [setData(L, d)] with [L <= 8] (and [d] a range
    of at least [L] octets): the call is defined, afterwards the length is
    [L], the octets at 0..L-1 are those of [d], the octets at L..7 are the
    ones [m] had, and the identifier and the flag are unchanged.  The
    constructor from the same arguments leaves zero in the octets at
    L..7, and the constructor from a literal sequence leaves zero in the
    octets after those of the sequence. *)
Theorem setData_keeps_tail (m : CANMsg) (L : Z) (d : list Z) (COBId : Z) :
  wf m -> 0 <= L <= 8 -> L <= Z.of_nat (length d) ->
  (exists m',
      setData L d m = Some m' /\
      length_ m' = L /\
      (forall i, 0 <= i < L -> load (data_ m') i = load d i) /\
      (forall i, L <= i -> load (data_ m') i = load (data_ m) i) /\
      COBId_ m' = COBId_ m /\ flag_ m' = flag_ m /\ wf m') /\
  (exists c,
      CANMsg_ptr COBId L d = Some c /\
      length_ c = L /\
      (forall i, 0 <= i < L -> load (data_ c) i = load d i) /\
      (forall i, L <= i < 8 -> load (data_ c) i = Some 0)) /\
  (Z.of_nat (length d) <= 8 ->
   exists c,
      CANMsg_list COBId L d = Some c /\
      length_ c = L /\
      (forall i, 0 <= i < Z.of_nat (length d) -> load (data_ c) i = load d i) /\
      (forall i, Z.of_nat (length d) <= i < 8 -> load (data_ c) i = Some 0)).
Proof.
  intros Hwf HL Hd. unfold wf in Hwf. split; [| split].
  - destruct (copy_from_spec d (Z.to_nat L) 0 (data_ m))
      as (d' & E & Hlen & Hin & Hout); [lia | lia | rewrite Hwf; lia |].
    exists (mkCANMsg (COBId_ m) (flag_ m) L d').
    unfold setData, std_copy. rewrite E. simpl.
    repeat split; try reflexivity.
    + intros i Hi. apply Hin. lia.
    + intros i Hi. apply Hout. lia.
    + unfold wf. simpl. congruence.
  - destruct (copy_from_spec d (Z.to_nat L) 0 zeros8)
      as (d' & E & Hlen & Hin & Hout); [lia | lia | simpl; lia |].
    exists (mkCANMsg COBId false L d').
    unfold CANMsg_ptr, std_copy. rewrite E. simpl.
    repeat split; try reflexivity.
    + intros i Hi. apply Hin. lia.
    + intros i Hi. rewrite Hout by lia. apply zeros8_load. lia.
  - intros Hshort.
    destruct (copy_from_spec d (length d) 0 zeros8)
      as (d' & E & Hlen & Hin & Hout); [lia | lia | simpl; lia |].
    exists (mkCANMsg COBId false L d').
    unfold CANMsg_list, std_copy. rewrite E. simpl.
    repeat split; try reflexivity.
    + intros i Hi. apply Hin. lia.
    + intros i Hi. rewrite Hout by lia. apply zeros8_load. lia.
Qed.

Lemma setData_keeps_tail_witness :
  (exists m',
      setData 2 [9; 10] (mkCANMsg 7 true 8 [1; 2; 3; 4; 5; 6; 7; 8]) = Some m' /\
      length_ m' = 2 /\
      (forall i, 0 <= i < 2 -> load (data_ m') i = load [9; 10] i) /\
      (forall i, 2 <= i ->
         load (data_ m') i = load [1; 2; 3; 4; 5; 6; 7; 8] i) /\
      COBId_ m' = 7 /\ flag_ m' = true /\ wf m') /\
  (exists c,
      CANMsg_ptr 7 2 [9; 10] = Some c /\
      length_ c = 2 /\
      (forall i, 0 <= i < 2 -> load (data_ c) i = load [9; 10] i) /\
      (forall i, 2 <= i < 8 -> load (data_ c) i = Some 0)) /\
  (Z.of_nat (length [9; 10]) <= 8 ->
   exists c,
      CANMsg_list 7 2 [9; 10] = Some c /\
      length_ c = 2 /\
      (forall i, 0 <= i < Z.of_nat (length [9; 10]) ->
         load (data_ c) i = load [9; 10] i) /\
      (forall i, Z.of_nat (length [9; 10]) <= i < 8 ->
         load (data_ c) i = Some 0)).
Proof.
  apply (setData_keeps_tail (mkCANMsg 7 true 8 [1; 2; 3; 4; 5; 6; 7; 8])
           2 [9; 10] 7).
  - reflexivity.
  - lia.
  - simpl. lia.
Defined.

Lemma CANMsg_id_wf COBId : wf (CANMsg_id COBId).
Proof. reflexivity. Qed.

Lemma copy_from_length src n : forall dst i dst',
  copy_from src i n dst = Some dst' -> length dst' = length dst.
Proof.
  induction n as [| n IH]; intros dst i dst' Hc; simpl in Hc.
  - congruence.
  - destruct (load src i) as [b |]; simpl in Hc; [| discriminate Hc].
    destruct (store dst i b) as [dst1 |] eqn:Es; simpl in Hc;
      [| discriminate Hc].
    rewrite (IH dst1 (i + 1) dst' Hc). exact (store_length _ _ _ _ Es).
Qed.

Lemma CANMsg_ptr_wf COBId L d c : CANMsg_ptr COBId L d = Some c -> wf c.
Proof.
  unfold CANMsg_ptr, std_copy, wf. intros H.
  destruct (copy_from d 0 (Z.to_nat L) zeros8) as [d' |] eqn:E;
    simpl in H; [| discriminate H].
  injection H as <-. simpl.
  exact (copy_from_length _ _ _ _ _ E).
Qed.

Lemma setData_wf L d m m' : wf m -> setData L d m = Some m' -> wf m'.
Proof.
  unfold setData, std_copy, wf. intros Hwf H.
  destruct (copy_from d 0 (Z.to_nat L) (data_ m)) as [d' |] eqn:E;
    simpl in H; [| discriminate H].
  injection H as <-. simpl.
  rewrite (copy_from_length _ _ _ _ _ E). exact Hwf.
Qed.

(** Copying more octets than the array holds is undefined. *)
Example setData_overflow :
  setData 9 [1; 2; 3; 4; 5; 6; 7; 8; 9] (CANMsg_id 5) = None.
Proof. reflexivity. Qed.

Example setData_tail_retained :
  setData 2 [9; 10] (mkCANMsg 7 true 8 [1; 2; 3; 4; 5; 6; 7; 8]) =
  Some (mkCANMsg 7 true 2 [9; 10; 3; 4; 5; 6; 7; 8]).
Proof. reflexivity. Qed.

Example CANMsg_ptr_tail_zero :
  CANMsg_ptr 7 2 [9; 10] = Some (mkCANMsg 7 false 2 [9; 10; 0; 0; 0; 0; 0; 0]).
Proof. reflexivity. Qed.

Example CANMsg_list_tail_zero :
  CANMsg_list 7 2 [9; 10] = Some (mkCANMsg 7 false 2 [9; 10; 0; 0; 0; 0; 0; 0]).
Proof. reflexivity. Qed.

End YalcFacts.

(** ** The device timeout *)

Module DeviceFacts.
Import CInt Device.

Lemma checkDeviceTimeout_disabled d :
  maxDeviceTimeoutCounter (options_ d) = 0 ->
  checkDeviceTimeout d = (true, d).
Proof.
  intros H0. unfold checkDeviceTimeout. rewrite H0. reflexivity.
Qed.

Lemma checkDeviceTimeout_enabled d :
  maxDeviceTimeoutCounter (options_ d) <> 0 ->
  checkDeviceTimeout d =
  (negb (deviceTimeoutCounter_ d >? maxDeviceTimeoutCounter (options_ d)),
   mkDevice (options_ d) (to_uint 32 (deviceTimeoutCounter_ d + 1)) (bus_ d)).
Proof.
  intros Hne. unfold checkDeviceTimeout.
  apply Z.eqb_neq in Hne. rewrite Hne. reflexivity.
Qed.

(** What the default [sanityCheck] of a device computes: with a limit
    other than 0 it increments the timeout counter (an [unsigned int]) and
    returns [false] exactly when the counter it found, before the
    increment, exceeded [maxDeviceTimeoutCounter]; with the limit 0 it
    returns [true] and leaves the device, and so the counter, as it was.
    The options and the bus pointer are never touched. *)
Lemma sanityCheck_default (d : Device) :
  let max := maxDeviceTimeoutCounter (options_ d) in
  let r := fst (sanityCheck d) in
  let d' := snd (sanityCheck d) in
  options_ d' = options_ d /\ bus_ d' = bus_ d /\
  (max <> 0 ->
     deviceTimeoutCounter_ d' = to_uint 32 (deviceTimeoutCounter_ d + 1) /\
     (r = false <-> deviceTimeoutCounter_ d > max)) /\
  (max = 0 -> r = true /\ d' = d).
Proof.
  cbv zeta. unfold sanityCheck.
  destruct (Z.eq_dec (maxDeviceTimeoutCounter (options_ d)) 0) as [H0 | Hne].
  - rewrite (checkDeviceTimeout_disabled d H0). simpl.
    repeat split; try reflexivity; intros; contradiction.
  - rewrite (checkDeviceTimeout_enabled d Hne). simpl.
    repeat split; try reflexivity; try contradiction.
    + intros Hf. apply negb_false_iff in Hf. apply Z.gtb_lt in Hf. lia.
    + intros Hgt. apply negb_false_iff. apply Z.gtb_lt. lia.
Qed.

(** C4, as the code has it.  [deviceTimeoutCounter_++ > max] compares
    the limit with the value the counter had before the increment.  On a
    device whose counter stands at the limit the check takes the counter
    past the limit, to [max + 1], and still returns [true]; it is the
    check after that one that returns [false].  DeviceOptions.hpp calls
    [maxDeviceTimeoutCounter] the "counter limit at which the device is
    considered as timed out". *)
Theorem sanityCheck_passes_exceeded_counter (d : Device) :
  0 < maxDeviceTimeoutCounter (options_ d) < 2 ^ 32 - 1 ->
  deviceTimeoutCounter_ d = maxDeviceTimeoutCounter (options_ d) ->
  fst (sanityCheck d) = true /\
  deviceTimeoutCounter_ (snd (sanityCheck d)) =
    maxDeviceTimeoutCounter (options_ d) + 1 /\
  deviceTimeoutCounter_ (snd (sanityCheck d)) >
    maxDeviceTimeoutCounter (options_ (snd (sanityCheck d))) /\
  fst (sanityCheck (snd (sanityCheck d))) = false.
Proof.
  intros Hmax Hc. unfold sanityCheck.
  assert (Hne : maxDeviceTimeoutCounter (options_ d) <> 0) by lia.
  rewrite (checkDeviceTimeout_enabled d Hne). cbn [fst snd].
  set (d1 := mkDevice _ _ _).
  assert (Hc1 : deviceTimeoutCounter_ d1 =
                maxDeviceTimeoutCounter (options_ d) + 1).
  { subst d1. cbn [deviceTimeoutCounter_]. rewrite Hc.
    unfold to_uint. apply Z.mod_small. lia. }
  assert (Ho1 : options_ d1 = options_ d) by reflexivity.
  split.
  { apply negb_true_iff. rewrite Hc, Z.gtb_ltb. apply Z.ltb_irrefl. }
  split; [exact Hc1 |].
  split; [rewrite Hc1, Ho1; lia |].
  rewrite (checkDeviceTimeout_enabled d1) by (rewrite Ho1; exact Hne).
  cbn [fst]. apply negb_false_iff. rewrite Hc1, Ho1.
  apply Z.gtb_lt. lia.
Qed.

Lemma sanityCheck_passes_exceeded_counter_witness :
  fst (sanityCheck (mkDevice (mkDeviceOptions 1 "dev" 3) 3 None)) = true /\
  deviceTimeoutCounter_
    (snd (sanityCheck (mkDevice (mkDeviceOptions 1 "dev" 3) 3 None))) =
    maxDeviceTimeoutCounter
      (options_ (mkDevice (mkDeviceOptions 1 "dev" 3) 3 None)) + 1 /\
  deviceTimeoutCounter_
    (snd (sanityCheck (mkDevice (mkDeviceOptions 1 "dev" 3) 3 None))) >
    maxDeviceTimeoutCounter
      (options_
         (snd (sanityCheck (mkDevice (mkDeviceOptions 1 "dev" 3) 3 None)))) /\
  fst (sanityCheck
         (snd (sanityCheck (mkDevice (mkDeviceOptions 1 "dev" 3) 3 None))))
  = false.
Proof.
  apply (sanityCheck_passes_exceeded_counter
           (mkDevice (mkDeviceOptions 1 "dev" 3) 3 None)).
  - simpl. lia.
  - reflexivity.
Defined.

(** The fourth check in a row of a device with the limit 3: the counter
    goes from 3 to 4 and the check returns [true]. *)
Example sanityCheck_fourth_tick :
  sanityCheck (mkDevice (mkDeviceOptions 1 "dev" 3) 3 None) =
  (true, mkDevice (mkDeviceOptions 1 "dev" 3) 4 None).
Proof. reflexivity. Qed.

(** Without a reset in between, the results of [n] checks in a row, as
    long as the counter does not wrap. *)
Lemma sanityChecks_counter n : forall d,
  maxDeviceTimeoutCounter (options_ d) <> 0 ->
  deviceTimeoutCounter_ d + Z.of_nat n < 2 ^ 32 ->
  0 <= deviceTimeoutCounter_ d ->
  options_ (snd (sanityChecks n d)) = options_ d /\
  deviceTimeoutCounter_ (snd (sanityChecks n d)) =
    deviceTimeoutCounter_ d + Z.of_nat n /\
  fst (sanityChecks n d) =
    map (fun k => negb (deviceTimeoutCounter_ d + Z.of_nat k
                        >? maxDeviceTimeoutCounter (options_ d)))
        (seq 0 n).
Proof.
  induction n as [| n IH]; intros d Hne Hlt Hpos.
  - simpl. split; [reflexivity |]. split; [lia | reflexivity].
  - cbn [sanityChecks]. unfold sanityCheck.
    rewrite (checkDeviceTimeout_enabled d Hne).
    set (d1 := mkDevice _ _ _).
    assert (Hc : deviceTimeoutCounter_ d1 = deviceTimeoutCounter_ d + 1).
    { subst d1. simpl. unfold to_uint. apply Z.mod_small. lia. }
    destruct (IH d1) as (Ho & Hcnt & Hres);
      [exact Hne | rewrite Hc; lia | rewrite Hc; lia |].
    destruct (sanityChecks n d1) as [rs d2]. simpl in *.
    split; [exact Ho |]. split; [rewrite Hcnt, Hc; lia |].
    rewrite Z.add_0_r. f_equal. rewrite Hres.
    rewrite <- seq_shift, map_map.
    apply map_ext. intros k. rewrite Hc. do 2 f_equal. lia.
Qed.

Example sanityChecks_limit_3 :
  fst (sanityChecks 6 (Device_ctor (mkDeviceOptions 1 "dev" 3))) =
  [true; true; true; true; false; false].
Proof. reflexivity. Qed.

Example sanityChecks_limit_0 :
  sanityChecks 3 (Device_ctor (mkDeviceOptions 1 "dev" 0)) =
  ([true; true; true], Device_ctor (mkDeviceOptions 1 "dev" 0)).
Proof. reflexivity. Qed.

End DeviceFacts.

(** ** The bus runtime *)

Module BusFacts.
Import Bus.

(** Running a computation: the binds and the primitive accesses to the
    world are unfolded, and the projections of the worlds built on the way
    are reduced. *)
Ltac run :=
  cbv beta iota zeta delta
    [mbind M_bind mret M_ret get_bus put_bus emit call undefined defined];
  cbn [bus driver trace isMissingDeviceOrHasError_ allDevicesActive_
       isPassive_ options_ outgoingMsgs_ threads_ running_ fst snd negb].

Section BusOf.

Context {Msg Driver : Type}.
Variable initializeInterface : Driver -> bool * Driver.
Variable writeData : Msg -> Driver -> bool * Driver.
Variable pthread_setschedparam : Thread -> SchedPolicy -> Z -> Z.

Implicit Types (w : World Msg Driver) (msg : Msg).

(** *** Traces *)

Lemma sched_calls_app (s t : list (Event Msg)) :
  sched_calls (s ++ t) = sched_calls s ++ sched_calls t.
Proof.
  induction s as [| e s IH]; [reflexivity |].
  destruct e; simpl; rewrite ?IH; reflexivity.
Qed.

Lemma write_calls_app (s t : list (Event Msg)) :
  write_calls (s ++ t) = write_calls s ++ write_calls t.
Proof.
  induction s as [| e s IH]; [reflexivity |].
  destruct e; simpl; rewrite ?IH; reflexivity.
Qed.

Lemma lock_events_app (s t : list (Event Msg)) :
  lock_events (s ++ t) = lock_events s ++ lock_events t.
Proof.
  induction s as [| e s IH]; [reflexivity |].
  destruct e; simpl; rewrite ?IH; reflexivity.
Qed.

Lemma overflow_log_no_lock w : lock_events (overflow_log w) = [].
Proof. unfold overflow_log. destruct (_ >=? _); reflexivity. Qed.

(** *** Enqueueing *)

Lemma sendMessageWithoutLock_run msg w :
  sendMessageWithoutLock msg w =
  Some (tt, mkWorld (with_queue (bus w) (outgoingMsgs_ (bus w) ++ [msg]))
              (driver w)
              (trace w ++ overflow_log w ++ [NotifyAll condTransmitThread_])).
Proof.
  unfold sendMessageWithoutLock, checkOutgoingMsgsSize, push, set_outgoingMsgs,
    overflow_log, with_queue.
  run. destruct (_ >=? _); run.
  - rewrite <- app_assoc. reflexivity.
  - reflexivity.
Qed.

Lemma emplaceMessageWithoutLock_run msg w :
  emplaceMessageWithoutLock msg w = sendMessageWithoutLock msg w.
Proof. reflexivity. Qed.

Lemma sendMessage_run msg w :
  sendMessage msg w =
  Some (tt, mkWorld (with_queue (bus w) (outgoingMsgs_ (bus w) ++ [msg]))
              (driver w)
              (trace w ++ [Lock] ++ overflow_log w
                 ++ [NotifyAll condTransmitThread_; Unlock])).
Proof.
  unfold sendMessage. run.
  rewrite sendMessageWithoutLock_run.
  unfold overflow_log. run.
  rewrite <- !app_assoc. reflexivity.
Qed.

Lemma emplaceMessage_run msg w : emplaceMessage msg w = sendMessage msg w.
Proof. reflexivity. Qed.

(** C1, as the code has it.  A call of [sendMessage] or [emplaceMessage]
    made while the queue holds [maxQueueSize_] frames or more writes the
    line "Exceeding max queue size ... Dropping message!" to the log and
    then pushes the frame all the same: the queue grows by the frame, and
    the transmit condition is signalled. *)
Theorem sendMessage_pushes_on_full_queue msg w :
  Z.of_nat (length (outgoingMsgs_ (bus w))) >= maxQueueSize_ (options_ (bus w)) ->
  exists w',
    sendMessage msg w = Some (tt, w') /\
    emplaceMessage msg w = Some (tt, w') /\
    outgoingMsgs_ (bus w') = outgoingMsgs_ (bus w) ++ [msg] /\
    length (outgoingMsgs_ (bus w')) = S (length (outgoingMsgs_ (bus w))) /\
    trace w' = trace w ++ [Lock; Log ExceedingMaxQueueSizeDroppingMessage;
                            NotifyAll condTransmitThread_; Unlock].
Proof.
  intros Hfull. eexists.
  split; [apply sendMessage_run |]. split; [apply sendMessage_run |].
  unfold with_queue. run.
  split; [reflexivity |]. split.
  - rewrite length_app. simpl. lia.
  - unfold overflow_log.
    apply Z.geb_ge in Hfull. rewrite Hfull. reflexivity.
Qed.

(** Below the limit the frame is pushed and the transmit condition is
    signalled, with nothing logged. *)
Lemma sendMessage_pushes_below_limit msg w :
  Z.of_nat (length (outgoingMsgs_ (bus w))) < maxQueueSize_ (options_ (bus w)) ->
  exists w',
    sendMessage msg w = Some (tt, w') /\
    emplaceMessage msg w = Some (tt, w') /\
    outgoingMsgs_ (bus w') = outgoingMsgs_ (bus w) ++ [msg] /\
    trace w' = trace w ++ [Lock; NotifyAll condTransmitThread_; Unlock].
Proof.
  intros Hlt. eexists.
  split; [apply sendMessage_run |]. split; [apply sendMessage_run |].
  unfold with_queue. run.
  split; [reflexivity |].
  unfold overflow_log.
  destruct (_ >=? _) eqn:E; [| reflexivity].
  apply Z.geb_ge in E. lia.
Qed.

(** *** Initialisation *)

Lemma set_priority_run t priority line w :
  set_priority pthread_setschedparam t priority line w =
  Some (tt, after w (SetSchedParam t SCHED_FIFO priority ::
                     if negb (pthread_setschedparam t SCHED_FIFO priority =? 0)
                     then [Log line] else [])).
Proof.
  unfold set_priority, after. run.
  destruct (negb _); run; [rewrite <- app_assoc |]; reflexivity.
Qed.

Lemma sched_calls_log_if (c : bool) line :
  sched_calls (if c then [Log line] else [] : list (Event Msg)) = [].
Proof. destruct c; reflexivity. Qed.


(** C2, as the code has it.  [initBus] on a bus configured asynchronous,
    with the interface initialised: the receive and transmit threads are
    started, and the sanity-check thread when [sanityCheckInterval_ > 0];
    every priority is set under [SCHED_FIFO]; but each of the calls of
    [pthread_setschedparam] is handed the handle of [receiveThread_], those
    for the transmit and the sanity-check priority too. *)
Theorem initBus_priorities w d' :
  initializeInterface (driver w) = (true, d') ->
  asynchronous_ (options_ (bus w)) = true ->
  exists w',
    initBus initializeInterface pthread_setschedparam w = Some (true, w') /\
    running_ (bus w') = true /\
    threads_ (bus w') receiveThread_ = Some receiveWorker /\
    threads_ (bus w') transmitThread_ = Some transmitWorker /\
    threads_ (bus w') sanityCheckThread_ =
      (if sanityCheckInterval_ (options_ (bus w)) >? 0
       then Some sanityCheckWorker
       else threads_ (bus w) sanityCheckThread_) /\
    sched_calls (trace w') =
      sched_calls (trace w) ++
      (receiveThread_, SCHED_FIFO, priorityReceiveThread_ (options_ (bus w))) ::
      (receiveThread_, SCHED_FIFO, priorityTransmitThread_ (options_ (bus w))) ::
      (if sanityCheckInterval_ (options_ (bus w)) >? 0
       then [(receiveThread_, SCHED_FIFO,
              prioritySanityCheckThread_ (options_ (bus w)))]
       else []).
Proof.
  intros Hinit Hasync.
  unfold initBus, set_running, thread_start.
  run. rewrite Hinit. run. rewrite Hasync. run.
  rewrite !set_priority_run. unfold after. run.
  destruct (sanityCheckInterval_ (options_ (bus w)) >? 0); run.
  - rewrite set_priority_run. unfold after. run.
    eexists. split; [reflexivity |]. run.
    repeat (split; [reflexivity |]).
    rewrite !sched_calls_app. simpl. rewrite !sched_calls_log_if. simpl.
    rewrite ?app_nil_r, <- ?app_assoc. reflexivity.
  - eexists. split; [reflexivity |]. run.
    repeat (split; [reflexivity |]).
    rewrite !sched_calls_app. simpl. rewrite !sched_calls_log_if. simpl.
    rewrite ?app_nil_r, <- ?app_assoc. reflexivity.
Qed.

(** A failing [initializeInterface] ends [initBus] at once. *)
Lemma initBus_interface_failure w d' :
  initializeInterface (driver w) = (false, d') ->
  initBus initializeInterface pthread_setschedparam w =
  Some (false, mkWorld (bus w) d' (trace w ++ [CallInitializeInterface])).
Proof.
  intros Hinit. unfold initBus. run. rewrite Hinit. reflexivity.
Qed.

(** *** Transmission *)

Ltac explode w :=
  destruct w as [[mis act pas opt que thr rng] drv trc];
  cbn [bus driver trace isMissingDeviceOrHasError_ allDevicesActive_
       isPassive_ options_ outgoingMsgs_ threads_ running_] in *;
  subst.

(** What [writeMessage] computes, case by case. *)
Lemma writeMessage_empty w :
  outgoingMsgs_ (bus w) = [] ->
  writeMessage writeData w = Some ((false, false), w).
Proof.
  intros Hq. explode w. reflexivity.
Qed.

Lemma writeMessage_passive w msg q :
  outgoingMsgs_ (bus w) = msg :: q ->
  isPassive_ (bus w) = true ->
  writeMessage writeData w =
  Some ((true, false), mkWorld (with_queue (bus w) q) (driver w) (trace w)).
Proof.
  intros Hq Hp. explode w. reflexivity.
Qed.

Lemma writeMessage_active w msg q :
  outgoingMsgs_ (bus w) = msg :: q ->
  isPassive_ (bus w) = false ->
  writeMessage writeData w =
  Some (if fst (writeData msg (driver w))
        then ((true, false),
              mkWorld (with_queue (bus w) q) (snd (writeData msg (driver w)))
                (trace w ++ [CallWriteData msg]))
        else ((false, true),
              mkWorld (bus w) (snd (writeData msg (driver w)))
                (trace w ++ [CallWriteData msg]))).
Proof.
  intros Hq Hp. explode w.
  unfold writeMessage, front, pop, set_outgoingMsgs, with_queue. run. cbn.
  destruct (writeData msg drv) as [[|] d']; reflexivity.
Qed.

(** What [processOutputQueue] computes on a running bus with a frame
    queued, on a stopped bus, and on a running bus with nothing queued. *)
Lemma processOutputQueue_passive w msg q :
  outgoingMsgs_ (bus w) = msg :: q ->
  running_ (bus w) = true ->
  isPassive_ (bus w) = true ->
  processOutputQueue writeData w =
  Some (Returned true,
        mkWorld (with_queue (bus w) q) (driver w)
          (trace w ++ [Lock; Unlock; Lock; Unlock])).
Proof.
  intros Hq Hr Hp. explode w.
  unfold processOutputQueue, front, pop, set_outgoingMsgs, isPassive, with_queue.
  run. cbn.
  rewrite <- !app_assoc. reflexivity.
Qed.

Lemma processOutputQueue_active w msg q :
  outgoingMsgs_ (bus w) = msg :: q ->
  running_ (bus w) = true ->
  isPassive_ (bus w) = false ->
  processOutputQueue writeData w =
  Some (if fst (writeData msg (driver w))
        then (Returned true,
              mkWorld (with_queue (bus w) q) (snd (writeData msg (driver w)))
                (trace w ++ [Lock; Unlock; CallWriteData msg; Lock; Unlock]))
        else (Returned false,
              mkWorld (bus w) (snd (writeData msg (driver w)))
                (trace w ++ [Lock; Unlock; CallWriteData msg]))).
Proof.
  intros Hq Hr Hp. explode w.
  unfold processOutputQueue, front, pop, set_outgoingMsgs, isPassive, with_queue.
  run. cbn.
  destruct (writeData msg drv) as [[|] d']; cbn;
    rewrite <- !app_assoc; reflexivity.
Qed.

Lemma processOutputQueue_stopped w :
  running_ (bus w) = false ->
  processOutputQueue writeData w =
  Some (Returned true, after w [Lock; Unlock]).
Proof.
  intros Hr. explode w. unfold processOutputQueue, after. run.
  rewrite andb_false_r. cbn. rewrite <- app_assoc. reflexivity.
Qed.

Lemma processOutputQueue_blocks w :
  outgoingMsgs_ (bus w) = [] ->
  running_ (bus w) = true ->
  processOutputQueue writeData w =
  Some (Blocked,
        after w [Lock; NotifyAll condOutputQueueEmpty_; Wait condTransmitThread_]).
Proof.
  intros Hq Hr. explode w. unfold processOutputQueue, after. run. cbn.
  rewrite <- !app_assoc. reflexivity.
Qed.

Lemma popped_iff w w' msg q :
  outgoingMsgs_ (bus w) = msg :: q ->
  popped w w' <-> outgoingMsgs_ (bus w') = q.
Proof.
  intros Hq. unfold popped. rewrite Hq. split.
  - intros [m Hm]. congruence.
  - intros ->. exists msg. reflexivity.
Qed.

Lemma cons_neq_tail (msg : Msg) q : msg :: q <> q.
Proof.
  intros H. apply (f_equal (@length Msg)) in H. simpl in H. lia.
Qed.

(** The shape of every transmit attempt on a queue [msg :: q]. *)
Lemma transmit_attempt_intro w msg q w' :
  outgoingMsgs_ (bus w) = msg :: q ->
  let passive := isPassive_ (bus w) in
  let answer := fst (writeData msg (driver w)) in
  outgoingMsgs_ (bus w') = (if passive || answer then q else msg :: q) ->
  driver w' = (if passive then driver w else snd (writeData msg (driver w))) ->
  write_calls (trace w') =
    write_calls (trace w) ++ (if passive then [] else [msg]) ->
  isPassive_ (bus w') = passive ->
  running_ (bus w') = running_ (bus w) ->
  options_ (bus w') = options_ (bus w) ->
  transmit_attempt writeData w (passive || answer) w'.
Proof.
  intros Hq passive answer Hq' Hd Hc Hp Hr Ho.
  assert (Hans : forall b, writeData_answers writeData w b <-> answer = b).
  { intros b. unfold writeData_answers. rewrite Hq. split.
    - intros (m & q0 & E & Hb). injection E as <- <-. exact Hb.
    - intros Hb. exists msg, q. split; [reflexivity | exact Hb]. }
  assert (Hpop : popped w w' <-> passive || answer = true).
  { rewrite (popped_iff w w' msg q Hq), Hq'.
    destruct (passive || answer); split; intros H; try reflexivity;
      try discriminate H.
    exfalso. exact (cons_neq_tail msg q H). }
  unfold transmit_attempt. fold passive.
  split; [| split; [| split; [| split; [| split]]]].
  - rewrite Hpop, Hans. apply orb_true_iff.
  - unfold retained. rewrite Hpop, Hq, Hq'.
    destruct (passive || answer); split; intros H; try reflexivity;
      try discriminate; try (exfalso; apply H; reflexivity).
    exfalso. symmetry in H. exact (cons_neq_tail msg q H).
  - intros Hpas. rewrite Hpas in *. simpl.
    split; [reflexivity |]. split; [exact Hd |].
    rewrite Hc. apply app_nil_r.
  - intros Hpas. rewrite Hpas in *. simpl. split.
    + apply Hans. reflexivity.
    + exists msg. rewrite Hq. split; [reflexivity |].
      split; [exact Hd | exact Hc].
  - intros Hpas Hfalse. apply Hans in Hfalse.
    unfold retained. rewrite Hq', Hq, Hpas, Hfalse. reflexivity.
  - split; [exact Hp |]. split; [exact Hr | exact Ho].
Qed.

(** C3, as the code has it.  On a queue that is not empty, [writeMessage]
    always, and [processOutputQueue] on a bus that is running, make one
    transmit attempt: the head frame is popped iff the bus was passive or
    [writeData] returned true; a passive bus does not call [writeData] and
    reports success; when [writeData] returns false on an active bus the
    head frame remains.  [writeMessage] leaves the negation of its result
    in [writeError].  On a bus that is not running, [processOutputQueue]
    returns true and neither pops nor writes. *)
Theorem transmit_pops_iff_written w :
  outgoingMsgs_ (bus w) <> [] ->
  (exists success w',
      writeMessage writeData w = Some ((success, negb success), w') /\
      transmit_attempt writeData w success w') /\
  (running_ (bus w) = true ->
   exists success w',
      processOutputQueue writeData w = Some (Returned success, w') /\
      transmit_attempt writeData w success w') /\
  (running_ (bus w) = false ->
   exists w',
      processOutputQueue writeData w = Some (Returned true, w') /\
      retained w w' /\ driver w' = driver w /\
      write_calls (trace w') = write_calls (trace w)).
Proof.
  intros Hne.
  destruct (outgoingMsgs_ (bus w)) as [| msg q] eqn:Hq; [contradiction |].
  clear Hne.
  pose proof (transmit_attempt_intro w msg q) as Hintro. cbv zeta in Hintro.
  destruct (isPassive_ (bus w)) eqn:Hp;
    [| destruct (fst (writeData msg (driver w))) eqn:Ha];
    cbn [orb] in Hintro.
  - (* passive *)
    split; [| split].
    + exists true. eexists.
      split; [exact (writeMessage_passive w msg q Hq Hp) |].
      apply Hintro; simpl; rewrite ?app_nil_r; auto.
    + intros Hr. exists true. eexists.
      split; [exact (processOutputQueue_passive w msg q Hq Hr Hp) |].
      apply Hintro; simpl; rewrite ?write_calls_app, ?app_nil_r; auto.
    + intros Hr. eexists.
      split; [exact (processOutputQueue_stopped w Hr) |].
      unfold retained, after. simpl.
      rewrite write_calls_app, app_nil_r. auto.
  - (* active, the driver accepts the frame *)
    split; [| split].
    + exists true. eexists. split.
      { rewrite (writeMessage_active w msg q Hq Hp), Ha. reflexivity. }
      apply Hintro; simpl; rewrite ?write_calls_app; auto.
    + intros Hr. exists true. eexists. split.
      { rewrite (processOutputQueue_active w msg q Hq Hr Hp), Ha.
        reflexivity. }
      apply Hintro; simpl; rewrite ?write_calls_app; auto.
    + intros Hr. eexists.
      split; [exact (processOutputQueue_stopped w Hr) |].
      unfold retained, after. simpl.
      rewrite write_calls_app, app_nil_r. auto.
  - (* active, the driver refuses the frame *)
    split; [| split].
    + exists false. eexists. split.
      { rewrite (writeMessage_active w msg q Hq Hp), Ha. reflexivity. }
      apply Hintro; simpl; rewrite ?write_calls_app; auto.
    + intros Hr. exists false. eexists. split.
      { rewrite (processOutputQueue_active w msg q Hq Hr Hp), Ha.
        reflexivity. }
      apply Hintro; simpl; rewrite ?write_calls_app; auto.
    + intros Hr. eexists.
      split; [exact (processOutputQueue_stopped w Hr) |].
      unfold retained, after. simpl.
      rewrite write_calls_app, app_nil_r. auto.
Qed.

(** C10. [writeMessage] called while the outgoing queue is empty returns
    false and leaves false in [writeError]; the bus, its queue, the driver
    and the trace are as before, so [writeData] was not called. *)
Theorem writeMessage_empty_queue w :
  outgoingMsgs_ (bus w) = [] ->
  writeMessage writeData w = Some ((false, false), w).
Proof.
  intros Hq. apply writeMessage_empty. exact Hq.
Qed.

End BusOf.

(** *** The theorems on concrete buses *)

Import Examples.

Lemma sendMessage_pushes_on_full_queue_witness :
  exists w',
    sendMessage 3 full_world = Some (tt, w') /\
    emplaceMessage 3 full_world = Some (tt, w') /\
    outgoingMsgs_ (bus w') = outgoingMsgs_ (bus full_world) ++ [3] /\
    length (outgoingMsgs_ (bus w')) = S (length (outgoingMsgs_ (bus full_world))) /\
    trace w' = trace full_world ++
               [Lock; Log ExceedingMaxQueueSizeDroppingMessage;
                NotifyAll condTransmitThread_; Unlock].
Proof.
  apply (sendMessage_pushes_on_full_queue 3 full_world).
  simpl. lia.
Defined.

Example sendMessage_full_world :
  option_map (fun r => outgoingMsgs_ (bus (snd r))) (sendMessage 3 full_world)
  = Some [1; 2; 3].
Proof. reflexivity. Qed.

Lemma initBus_priorities_witness :
  exists w',
    initBus interface_up priority_granted fresh_world = Some (true, w') /\
    running_ (bus w') = true /\
    threads_ (bus w') receiveThread_ = Some receiveWorker /\
    threads_ (bus w') transmitThread_ = Some transmitWorker /\
    threads_ (bus w') sanityCheckThread_ =
      (if sanityCheckInterval_ (options_ (bus fresh_world)) >? 0
       then Some sanityCheckWorker
       else threads_ (bus fresh_world) sanityCheckThread_) /\
    sched_calls (trace w') =
      sched_calls (trace fresh_world) ++
      (receiveThread_, SCHED_FIFO,
       priorityReceiveThread_ (options_ (bus fresh_world))) ::
      (receiveThread_, SCHED_FIFO,
       priorityTransmitThread_ (options_ (bus fresh_world))) ::
      (if sanityCheckInterval_ (options_ (bus fresh_world)) >? 0
       then [(receiveThread_, SCHED_FIFO,
              prioritySanityCheckThread_ (options_ (bus fresh_world)))]
       else []).
Proof.
  apply (initBus_priorities interface_up priority_granted fresh_world tt);
    reflexivity.
Defined.

Example initBus_fresh_world_sched_calls :
  option_map (fun r => sched_calls (trace (snd r)))
    (initBus interface_up priority_granted fresh_world)
  = Some [(receiveThread_, SCHED_FIFO, 10);
          (receiveThread_, SCHED_FIFO, 20);
          (receiveThread_, SCHED_FIFO, 30)].
Proof. reflexivity. Qed.

Lemma transmit_pops_iff_written_witness :
  (exists success w',
      writeMessage refuse_all active_world = Some ((success, negb success), w') /\
      transmit_attempt refuse_all active_world success w') /\
  (running_ (bus active_world) = true ->
   exists success w',
      processOutputQueue refuse_all active_world = Some (Returned success, w') /\
      transmit_attempt refuse_all active_world success w') /\
  (running_ (bus active_world) = false ->
   exists w',
      processOutputQueue refuse_all active_world = Some (Returned true, w') /\
      retained active_world w' /\ driver w' = driver active_world /\
      write_calls (trace w') = write_calls (trace active_world)).
Proof.
  apply (transmit_pops_iff_written refuse_all active_world).
  simpl. discriminate.
Defined.

(** The attempt of C3 does not describe [processOutputQueue] on a bus
    that is not running: the bus below is passive and has a frame queued,
    the call reports success, and the frame is still queued. *)
Lemma processOutputQueue_stopped_keeps_frame :
  exists w',
    processOutputQueue accept_all stopped_passive_world = Some (Returned true, w') /\
    outgoingMsgs_ (bus stopped_passive_world) = [7] /\
    isPassive_ (bus stopped_passive_world) = true /\
    outgoingMsgs_ (bus w') = [7] /\
    ~ popped stopped_passive_world w' /\
    ~ transmit_attempt accept_all stopped_passive_world true w'.
Proof.
  eexists. split; [reflexivity |]. simpl.
  repeat (split; [reflexivity |]).
  assert (Hnot : ~ popped stopped_passive_world
                     (after stopped_passive_world [Lock; Unlock])).
  { intros [m Hm]. simpl in Hm. discriminate Hm. }
  split; [exact Hnot |].
  intros (Hpop & _). apply Hnot. apply Hpop. left. reflexivity.
Qed.

Lemma writeMessage_empty_queue_witness :
  writeMessage accept_all idle_world = Some ((false, false), idle_world).
Proof.
  apply (writeMessage_empty_queue accept_all idle_world). reflexivity.
Defined.

Example writeMessage_retry :
  option_map (fun r => (fst r, outgoingMsgs_ (bus (snd r))))
    (writeMessage refuse_all active_world)
  = Some ((false, true), [7]).
Proof. reflexivity. Qed.

End BusFacts.

(** ** The CAN bus: dispatch table and SYNC *)

Module CanBusFacts.
Import Bus CanBus.

Lemma CanFrameIdentifier_eq_true lhs rhs :
  CanFrameIdentifier_eq lhs rhs = true <->
  identifier lhs = identifier rhs /\ mask lhs = mask rhs.
Proof.
  unfold CanFrameIdentifier_eq.
  rewrite andb_true_iff, !Z.eqb_eq. reflexivity.
Qed.

Lemma CanFrameIdentifier_eq_iff lhs rhs :
  CanFrameIdentifier_eq lhs rhs = true <-> lhs = rhs.
Proof.
  rewrite CanFrameIdentifier_eq_true. split.
  - destruct lhs, rhs. simpl. intros [-> ->]. reflexivity.
  - intros ->. split; reflexivity.
Qed.

Section Dispatch.

Context {Fp : Type}.

Implicit Types (c : CanBus (Fp := Fp)) (matcher : CanFrameIdentifier).

Lemma registered_lookup matcher c :
  registered matcher c <->
  is_Some (canFrameIdentifierToFunctionMap_ c !! matcher).
Proof.
  unfold registered. split.
  - intros (k & slot & Hk & Heq).
    apply CanFrameIdentifier_eq_iff in Heq. subst k. exists slot. exact Hk.
  - intros [slot Hk]. exists matcher, slot. split; [exact Hk |].
    apply CanFrameIdentifier_eq_iff. reflexivity.
Qed.

Lemma emplace_in_present key value c :
  registered key c -> emplace_in key value c = (false, c).
Proof.
  intros Hr. apply registered_lookup in Hr as [slot Hs].
  unfold emplace_in, emplace. rewrite Hs. destruct c. reflexivity.
Qed.

Lemma emplace_in_absent key value c :
  ~ registered key c ->
  emplace_in key value c =
  (true, mkCanBus (devices_ c)
           (<[key := value]> (canFrameIdentifierToFunctionMap_ c))
           (unmappedMessageCallbackFunction_ c)).
Proof.
  intros Hr. rewrite registered_lookup in Hr.
  unfold emplace_in, emplace.
  destruct (canFrameIdentifierToFunctionMap_ c !! key) as [slot |] eqn:Hs.
  - exfalso. apply Hr. exists slot. reflexivity.
  - reflexivity.
Qed.

Lemma addCanMessage_emplace matcher is_device device fp c :
  addCanMessage matcher is_device device fp c =
  emplace_in matcher (slot_of is_device device fp) c.
Proof. destruct is_device; reflexivity. Qed.

Lemma registered_after_insert key value other c :
  registered other
    (mkCanBus (devices_ c)
       (<[key := value]> (canFrameIdentifierToFunctionMap_ c))
       (unmappedMessageCallbackFunction_ c)) <->
  other = key \/ registered other c.
Proof.
  rewrite !registered_lookup. simpl.
  destruct (decide (key = other)) as [-> | Hne].
  - rewrite lookup_insert_eq. split; [auto | intros _; eexists; reflexivity].
  - rewrite lookup_insert_ne by exact Hne. split; [auto |].
    intros [-> | H]; [contradiction | exact H].
Qed.

(** C5. [addCanMessage] with a matcher: when a matcher equal to it under
    [operator==], in identifier and in mask, is registered, the call
    returns false and the bus with its dispatch map is unchanged;
    otherwise the call returns true, the matcher is mapped to the slot of
    the call and every other matcher to what it was mapped to.  So a
    registration of another matcher with the same identifier and a
    different mask succeeds as well. *)
Theorem addCanMessage_registers_once matcher (is_device : bool) (device : Ptr)
    (fp : Fp) c :
  (registered matcher c ->
     addCanMessage matcher is_device device fp c = (false, c)) /\
  (~ registered matcher c ->
     exists c',
       addCanMessage matcher is_device device fp c = (true, c') /\
       canFrameIdentifierToFunctionMap_ c' !! matcher =
         Some (slot_of is_device device fp) /\
       (forall other, other <> matcher ->
          canFrameIdentifierToFunctionMap_ c' !! other =
          canFrameIdentifierToFunctionMap_ c !! other) /\
       devices_ c' = devices_ c /\
       unmappedMessageCallbackFunction_ c' = unmappedMessageCallbackFunction_ c /\
       (forall other (is_device' : bool) (device' : Ptr) (fp' : Fp),
          identifier other = identifier matcher ->
          mask other <> mask matcher ->
          ~ registered other c ->
          exists c'',
            addCanMessage other is_device' device' fp' c' = (true, c'') /\
            canFrameIdentifierToFunctionMap_ c'' !! matcher =
              Some (slot_of is_device device fp) /\
            canFrameIdentifierToFunctionMap_ c'' !! other =
              Some (slot_of is_device' device' fp'))).
Proof.
  rewrite addCanMessage_emplace. split.
  - apply emplace_in_present.
  - intros Hfree. eexists. split; [apply emplace_in_absent; exact Hfree |].
    simpl. split; [apply lookup_insert_eq |].
    split; [intros other Hne; apply lookup_insert_ne; congruence |].
    split; [reflexivity |]. split; [reflexivity |].
    intros other is_device' device' fp' Hid Hmask Hfree'.
    assert (Hne : other <> matcher) by (intros ->; apply Hmask; reflexivity).
    eexists. split.
    + rewrite addCanMessage_emplace. apply emplace_in_absent.
      rewrite registered_after_insert. intros [E | R]; [exact (Hne E) |].
      exact (Hfree' R).
    + simpl. split.
      * rewrite lookup_insert_ne by exact Hne. apply lookup_insert_eq.
      * apply lookup_insert_eq.
Qed.

End Dispatch.

(** Registrations on an empty bus; member functions are named by a
    number. *)
Example addCanMessage_same_id_two_masks :
  let c0 : CanBus (Fp := nat) := mkCanBus [] ∅ None in
  let '(r1, c1) := addCanMessage (mkCanFrameIdentifier 0x181 0x7ff) true 1%nat 0%nat c0 in
  let '(r2, c2) := addCanMessage (mkCanFrameIdentifier 0x181 0xfff) true 1%nat 0%nat c1 in
  let '(r3, c3) := addCanMessage (mkCanFrameIdentifier 0x181 0x7ff) false 2%nat 5%nat c2 in
  (r1, r2, r3) = (true, true, false) /\ c3 = c2 /\
  canFrameIdentifierToFunctionMap_ c3 !! mkCanFrameIdentifier 0x181 0x7ff =
    Some (Some 1%nat, bind 0%nat 1%nat).
Proof. vm_compute. repeat split. Qed.

(** *** SYNC *)

Section Sync.

Context {Driver : Type}.

Implicit Types w : World CanMsg Driver.

(** The frame [CanMsg(0x80, 0, nullptr)]. *)
Lemma sync_frame :
  CanMsg_ctor 0x80 0 Yalc.nullptr =
  Some (Yalc.mkCANMsg 0x80 false 0 [0; 0; 0; 0; 0; 0; 0; 0]).
Proof. reflexivity. Qed.

(** C8. [sendSync] pushes exactly one frame onto the outgoing queue, with
    identifier 0x80, length 0 and eight zero octets, and does so between a
    lock and an unlock of the queue mutex; [sendSyncWithoutLock] pushes
    the same frame, leaves the same bus, and performs no lock operation. *)
Theorem sendSync_enqueues_sync_frame w :
  exists sync w1 w2,
    sendSync w = Some (tt, w1) /\
    sendSyncWithoutLock w = Some (tt, w2) /\
    Yalc.COBId_ sync = 0x80 /\ Yalc.length_ sync = 0 /\
    Yalc.data_ sync = [0; 0; 0; 0; 0; 0; 0; 0] /\
    outgoingMsgs_ (bus w1) = outgoingMsgs_ (bus w) ++ [sync] /\
    outgoingMsgs_ (bus w2) = outgoingMsgs_ (bus w) ++ [sync] /\
    bus w1 = with_queue (bus w) (outgoingMsgs_ (bus w) ++ [sync]) /\
    bus w2 = bus w1 /\
    lock_events (trace w1) = lock_events (trace w) ++ [Lock; Unlock] /\
    lock_events (trace w2) = lock_events (trace w).
Proof.
  exists (Yalc.mkCANMsg 0x80 false 0 [0; 0; 0; 0; 0; 0; 0; 0]).
  eexists. eexists.
  split.
  { unfold sendSync. rewrite sync_frame.
    change (defined (Some ?m) ≫= ?f) with (f m).
    apply BusFacts.sendMessage_run. }
  split.
  { unfold sendSyncWithoutLock. rewrite sync_frame.
    change (defined (Some ?m) ≫= ?f) with (f m).
    apply BusFacts.sendMessageWithoutLock_run. }
  cbn [bus trace Yalc.COBId_ Yalc.length_ Yalc.data_ outgoingMsgs_ with_queue].
  repeat (split; [reflexivity |]).
  rewrite !BusFacts.lock_events_app, BusFacts.overflow_log_no_lock.
  simpl. rewrite app_nil_r. split; reflexivity.
Qed.

End Sync.

Example sendSync_can_world :
  option_map (fun r => (outgoingMsgs_ (bus (snd r)), trace (snd r)))
    (sendSync Examples.can_world)
  = Some ([Yalc.mkCANMsg 0x80 false 0 [0; 0; 0; 0; 0; 0; 0; 0]],
          [Lock; NotifyAll condTransmitThread_; Unlock]).
Proof. reflexivity. Qed.

Example sendSyncWithoutLock_can_world :
  option_map (fun r => (outgoingMsgs_ (bus (snd r)), trace (snd r)))
    (sendSyncWithoutLock Examples.can_world)
  = Some ([Yalc.mkCANMsg 0x80 false 0 [0; 0; 0; 0; 0; 0; 0; 0]],
          [NotifyAll condTransmitThread_]).
Proof. reflexivity. Qed.

End CanBusFacts.

(** ** Waiting for the empty queue *)

Module WaitQueueFacts.
Import WaitQueue.

Section Waiting.

Context {Msg : Type}.

Implicit Types (s : Shared Msg) (st : Pc * Shared Msg) (a : Action Msg).





Lemma run_snoc schedule a st :
  run (schedule ++ [a]) st = step a (run schedule st).
Proof. unfold run. rewrite fold_left_app. reflexivity. Qed.



(** Once returned, the caller stays returned and keeps the mutex, and the
    queue is not touched, whatever the other threads do. *)
Lemma returned_stable schedule : forall st,
  fst st = Returned -> outgointMsgsMutex_ (snd st) = Some Caller ->
  fst (run schedule st) = Returned /\
  outgointMsgsMutex_ (snd (run schedule st)) = Some Caller /\
  outgoingMsgs_ (snd (run schedule st)) = outgoingMsgs_ (snd st).
Proof.
  induction schedule as [| a schedule IH]; intros [pc s] Hpc Hm;
    simpl in Hpc, Hm; subst pc; [auto |].
  assert (Hstep : fst (step a (Returned, s)) = Returned /\
                  outgointMsgsMutex_ (snd (step a (Returned, s))) = Some Caller /\
                  outgoingMsgs_ (snd (step a (Returned, s))) = outgoingMsgs_ s).
  { destruct a; simpl; unfold owned_by_other; rewrite ?Hm; simpl; auto. }
  destruct Hstep as (H1 & H2 & H3).
  destruct (IH (step a (Returned, s)) H1 H2) as (I1 & I2 & I3).
  change (run (a :: schedule) (Returned, s))
    with (run schedule (step a (Returned, s))).
  split; [exact I1 |]. split; [exact I2 |].
  rewrite I3. exact H3.
Qed.

End Waiting.

Import Examples.


Example waitForEmptyQueue_drain_run :
  step CallerStep (waitForEmptyQueue drain_schedule (mkShared [7] true None)) =
  (Returned, mkShared [] true (Some Caller)).
Proof. reflexivity. Qed.

(** The caller does not return while a frame is queued on a running bus:
    woken for no reason, it goes back to sleep. *)
Example waitForEmptyQueue_spurious_wake :
  waitForEmptyQueue [CallerStep; CallerStep; WakeUp; CallerStep; CallerStep]
    (mkShared [7] true None) =
  (Sleeping, mkShared [7] true None).
Proof. reflexivity. Qed.

End WaitQueueFacts.

(** ** The frame: more on reads and writes *)

Module FrameFacts.
Import CInt Yalc Octets.
Import YalcFacts.

Lemma write_holds ty v pos m :
  wf m -> in_type ty v -> 0 <= pos -> pos + sizeof ty <= 8 ->
  exists m', write ty v pos m = Some m' /\ write_post ty v pos m m'.
Proof.
  intros Hwf Hv H0 Hs.
  destruct ty; simpl in Hs.
  - apply (write1_post Int8); auto.
  - apply (write1_post UInt8); auto.
  - apply (write2_post Int16); auto.
  - apply (write2_post UInt16); auto.
  - apply (write4_post Int32); auto.
  - apply (write4_post UInt32); auto.
Qed.

Lemma load_octet m i b :
  octets m -> load (data_ m) i = Some b -> is_octet b.
Proof.
  unfold octets, load. intros Hall H.
  destruct (0 <=? i); [| discriminate H].
  rewrite Forall_lookup in Hall. exact (Hall _ _ H).
Qed.

Lemma load_in_frame m i :
  wf m -> 0 <= i < 8 -> exists b, load (data_ m) i = Some b.
Proof.
  intros Hwf Hi. apply load_defined. rewrite Hwf. lia.
Qed.

Lemma load_outside d i :
  i < 0 \/ Z.of_nat (length d) <= i -> load d i = None.
Proof.
  unfold load. intros [H | H].
  - apply Z.leb_gt in H. rewrite H. reflexivity.
  - destruct (0 <=? i); [| reflexivity].
    apply lookup_ge_None. lia.
Qed.

Lemma store_outside d i b :
  i < 0 \/ Z.of_nat (length d) <= i -> store d i b = None.
Proof.
  unfold store. intros [H | H].
  - apply Z.leb_gt in H. rewrite H. reflexivity.
  - apply Z.ltb_ge in H. rewrite H, andb_false_r. reflexivity.
Qed.

Lemma store_same d i b : load d i = Some b -> store d i b = Some d.
Proof.
  unfold load. intros H.
  destruct (0 <=? i) eqn:E; [| discriminate H].
  apply Z.leb_le in E.
  pose proof (lookup_lt_Some _ _ _ H) as Hlt.
  rewrite store_defined by lia.
  f_equal. apply list_insert_id. exact H.
Qed.

(** The octets of a value read are the octets it was read from. *)
Lemma octets_of_join_int32 b3 b2 b1 b0 :
  is_octet b3 -> is_octet b2 -> is_octet b1 -> is_octet b0 ->
  let v := join_int32 b3 b2 b1 b0 in
  in_int 32 v /\
  octet v 24 = b3 /\ octet v 16 = b2 /\ octet v 8 = b1 /\ octet v 0 = b0.
Proof.
  intros H3 H2 H1 H0. cbv zeta.
  rewrite join_int32_sum by assumption.
  rewrite !octet_div_mod by lia.
  unfold is_octet, in_int in *. change (2 ^ (32 - 1)) with 2147483648.
  change (2 ^ 0) with 1. change (2 ^ 24) with 16777216.
  change (2 ^ 16) with 65536. change (2 ^ 8) with 256.
  widths. repeat split; euclid.
Qed.

Lemma octets_of_join_uint32 b3 b2 b1 b0 :
  is_octet b3 -> is_octet b2 -> is_octet b1 -> is_octet b0 ->
  let v := join_uint32 b3 b2 b1 b0 in
  in_uint 32 v /\
  octet v 24 = b3 /\ octet v 16 = b2 /\ octet v 8 = b1 /\ octet v 0 = b0.
Proof.
  intros H3 H2 H1 H0. cbv zeta.
  rewrite join_uint32_sum by assumption.
  rewrite !octet_div_mod by lia.
  unfold is_octet, in_uint in *.
  change (2 ^ 0) with 1. change (2 ^ 24) with 16777216.
  change (2 ^ 16) with 65536. change (2 ^ 8) with 256.
  change (2 ^ 32) with 4294967296.
  repeat split; euclid.
Qed.

Lemma octets_of_join_int16 b1 b0 :
  is_octet b1 -> is_octet b0 ->
  let v := join_int16 b1 b0 in
  in_int 16 v /\ octet v 8 = b1 /\ octet v 0 = b0.
Proof.
  intros H1 H0. cbv zeta.
  rewrite join_int16_sum by assumption.
  rewrite !octet_div_mod by lia.
  unfold is_octet, in_int in *. change (2 ^ (16 - 1)) with 32768.
  change (2 ^ 0) with 1. change (2 ^ 8) with 256.
  widths. repeat split; euclid.
Qed.

Lemma octets_of_join_uint16 b1 b0 :
  is_octet b1 -> is_octet b0 ->
  let v := join_uint16 b1 b0 in
  in_uint 16 v /\ octet v 8 = b1 /\ octet v 0 = b0.
Proof.
  intros H1 H0. cbv zeta.
  rewrite join_uint16_sum by assumption.
  rewrite !octet_div_mod by lia.
  unfold is_octet, in_uint in *.
  change (2 ^ 0) with 1. change (2 ^ 8) with 256. change (2 ^ 16) with 65536.
  repeat split; euclid.
Qed.

Lemma octet_of_int8 b :
  is_octet b -> in_int 8 (to_int 8 b) /\ to_uint 8 (to_int 8 b) = b.
Proof.
  unfold is_octet, in_int. change (2 ^ (8 - 1)) with 128.
  intros Hb. widths. split; euclid.
Qed.

Lemma with_data_same m : with_data m (data_ m) = m.
Proof. destruct m. reflexivity. Qed.

(** X1. Reading a value and writing it back at the same place leaves the
    frame as it is: for each width and signedness, and each offset with [pos
    + w/8 <= 8], the read is defined, its result is a value of the type, and
    [write(read(pos), pos)] gives the same frame. *)
Theorem read_then_write_same (ty : IntType) (pos : Z) (m : CANMsg) :
  wf m -> octets m -> 0 <= pos -> pos + sizeof ty <= 8 ->
  exists v,
    read ty pos m = Some v /\ in_type ty v /\ write ty v pos m = Some m.
Proof.
  intros Hwf Hoct H0 Hs.
  assert (Hload : forall i, 0 <= i < sizeof ty ->
            exists b, load (data_ m) (i + pos) = Some b /\ is_octet b).
  { intros i Hi. destruct (load_in_frame m (i + pos) Hwf) as [b Hb]; [lia |].
    exists b. split; [exact Hb | exact (load_octet m _ b Hoct Hb)]. }
  destruct ty; simpl in Hs, Hload; cbn [read write in_type].
  - destruct (Hload 0) as (b0 & L0 & B0); [lia |].
    destruct (octet_of_int8 b0 B0) as [Hin Hback].
    exists (to_int 8 b0). unfold readint8, write_int8.
    rewrite L0. simpl. rewrite Hback, (store_same _ _ _ L0). simpl.
    rewrite with_data_same. auto.
  - destruct (Hload 0) as (b0 & L0 & B0); [lia |].
    exists b0. unfold readuint8, write_uint8.
    rewrite L0, (store_same _ _ _ L0). simpl.
    rewrite with_data_same. auto.
  - destruct (Hload 1) as (b1 & L1 & B1); [lia |].
    destruct (Hload 0) as (b0 & L0 & B0); [lia |].
    destruct (octets_of_join_int16 b1 b0 B1 B0) as (Hin & O1 & O0).
    exists (join_int16 b1 b0). unfold readint16, write_int16.
    rewrite L1, L0. simpl. rewrite O1, O0.
    rewrite (store_same _ _ _ L1). simpl. rewrite (store_same _ _ _ L0). simpl.
    rewrite with_data_same. auto.
  - destruct (Hload 1) as (b1 & L1 & B1); [lia |].
    destruct (Hload 0) as (b0 & L0 & B0); [lia |].
    destruct (octets_of_join_uint16 b1 b0 B1 B0) as (Hin & O1 & O0).
    exists (join_uint16 b1 b0). unfold readuint16, write_uint16.
    rewrite L1, L0. simpl. rewrite O1, O0.
    rewrite (store_same _ _ _ L1). simpl. rewrite (store_same _ _ _ L0). simpl.
    rewrite with_data_same. auto.
  - destruct (Hload 3) as (b3 & L3 & B3); [lia |].
    destruct (Hload 2) as (b2 & L2 & B2); [lia |].
    destruct (Hload 1) as (b1 & L1 & B1); [lia |].
    destruct (Hload 0) as (b0 & L0 & B0); [lia |].
    destruct (octets_of_join_int32 b3 b2 b1 b0 B3 B2 B1 B0)
      as (Hin & O3 & O2 & O1 & O0).
    exists (join_int32 b3 b2 b1 b0). unfold readint32, write_int32.
    rewrite L3, L2, L1, L0. simpl. rewrite O3, O2, O1, O0.
    rewrite (store_same _ _ _ L3). simpl. rewrite (store_same _ _ _ L2). simpl.
    rewrite (store_same _ _ _ L1). simpl. rewrite (store_same _ _ _ L0). simpl.
    rewrite with_data_same. auto.
  - destruct (Hload 3) as (b3 & L3 & B3); [lia |].
    destruct (Hload 2) as (b2 & L2 & B2); [lia |].
    destruct (Hload 1) as (b1 & L1 & B1); [lia |].
    destruct (Hload 0) as (b0 & L0 & B0); [lia |].
    destruct (octets_of_join_uint32 b3 b2 b1 b0 B3 B2 B1 B0)
      as (Hin & O3 & O2 & O1 & O0).
    exists (join_uint32 b3 b2 b1 b0). unfold readuint32, write_uint32.
    rewrite L3, L2, L1, L0. simpl. rewrite O3, O2, O1, O0.
    rewrite (store_same _ _ _ L3). simpl. rewrite (store_same _ _ _ L2). simpl.
    rewrite (store_same _ _ _ L1). simpl. rewrite (store_same _ _ _ L0). simpl.
    rewrite with_data_same. auto.
Qed.

(** *** Bounds *)

Lemma bind_None {A B : Type} (f : A -> option B) : (None ≫= f) = None.
Proof. reflexivity. Qed.

Lemma write_defined ty v pos m :
  wf m -> 0 <= pos -> pos + sizeof ty <= 8 -> is_Some (write ty v pos m).
Proof.
  intros Hwf H0 Hs.
  destruct ty; simpl in Hs; cbn [write].
  - unfold write_int8.
    destruct (store_spec (data_ m) (0 + pos) (to_uint 8 v) Hwf ltac:(lia))
      as (d' & E & _). rewrite E. eexists. reflexivity.
  - unfold write_uint8.
    destruct (store_spec (data_ m) (0 + pos) v Hwf ltac:(lia))
      as (d' & E & _). rewrite E. eexists. reflexivity.
  - unfold write_int16.
    destruct (store2_spec (data_ m) pos (octet v 8) (octet v 0) Hwf H0 Hs)
      as (d' & E & _). rewrite E. eexists. reflexivity.
  - unfold write_uint16.
    destruct (store2_spec (data_ m) pos (octet v 8) (octet v 0) Hwf H0 Hs)
      as (d' & E & _). rewrite E. eexists. reflexivity.
  - unfold write_int32.
    destruct (store4_spec (data_ m) pos (octet v 24) (octet v 16) (octet v 8)
                (octet v 0) Hwf H0 Hs) as (d' & E & _).
    rewrite E. eexists. reflexivity.
  - unfold write_uint32.
    destruct (store4_spec (data_ m) pos (octet v 24) (octet v 16) (octet v 8)
                (octet v 0) Hwf H0 Hs) as (d' & E & _).
    rewrite E. eexists. reflexivity.
Qed.

Lemma read_defined ty pos m :
  wf m -> 0 <= pos -> pos + sizeof ty <= 8 -> is_Some (read ty pos m).
Proof.
  intros Hwf H0 Hs.
  assert (Hload : forall i, 0 <= i < sizeof ty ->
            exists b, load (data_ m) (i + pos) = Some b).
  { intros i Hi. apply (load_in_frame m (i + pos) Hwf). lia. }
  destruct ty; simpl in Hs, Hload; cbn [read];
    [unfold readint8 | unfold readuint8 | unfold readint16
    | unfold readuint16 | unfold readint32 | unfold readuint32];
    repeat lazymatch goal with
      | |- context [load (data_ m) (?i + pos)] =>
          let b := fresh "b" in let L := fresh "L" in
          destruct (Hload i) as [b L]; [lia |]; rewrite L;
          cbn [mbind option_bind]
      end.
  all: eexists; reflexivity.
Qed.

Lemma access_outside ty v pos m :
  wf m -> 8 < pos + sizeof ty ->
  write ty v pos m = None /\ read ty pos m = None.
Proof.
  intros Hwf Hbig. unfold wf in Hwf.
  assert (Hl : forall i, 8 <= i -> load (data_ m) i = None).
  { intros i Hi. apply load_outside. rewrite Hwf. lia. }
  assert (Hs : forall i b, 8 <= i -> store (data_ m) i b = None).
  { intros i b Hi. apply store_outside. rewrite Hwf. lia. }
  destruct ty; simpl in Hbig; cbn [write read];
    [unfold write_int8, readint8 | unfold write_uint8, readuint8
    | unfold write_int16, readint16 | unfold write_uint16, readuint16
    | unfold write_int32, readint32 | unfold write_uint32, readuint32];
    rewrite Hs by lia;
    first [rewrite (Hl (3 + pos)) by lia | rewrite (Hl (1 + pos)) by lia
          | rewrite (Hl (0 + pos)) by lia];
    split; reflexivity.
Qed.

(** X2. There is no bounds check: an access is inside [data_] exactly when
    [pos + w/8 <= 8].  For each width and signedness the write, and the
    read, at [pos] is defined iff that holds. *)
Theorem access_defined_iff (ty : IntType) (v pos : Z) (m : CANMsg) :
  wf m -> 0 <= pos ->
  (is_Some (write ty v pos m) <-> pos + sizeof ty <= 8) /\
  (is_Some (read ty pos m) <-> pos + sizeof ty <= 8).
Proof.
  intros Hwf H0.
  destruct (Z_le_gt_dec (pos + sizeof ty) 8) as [Hin | Hbig].
  - split; (split; [intros _; exact Hin | intros _]).
    + apply write_defined; assumption.
    + apply read_defined; assumption.
  - destruct (access_outside ty v pos m Hwf ltac:(lia)) as [Hw Hr].
    rewrite Hw, Hr.
    split; (split; [intros [x Hx]; discriminate Hx | lia]).
Qed.

(** *** Writes side by side *)

(** A read depends on the octets of its range only. *)
Lemma read_ext ty pos m m' :
  (forall i, 0 <= i < sizeof ty ->
     load (data_ m') (i + pos) = load (data_ m) (i + pos)) ->
  read ty pos m' = read ty pos m.
Proof.
  intros H.
  destruct ty; simpl in H; cbn [read];
    [unfold readint8 | unfold readuint8 | unfold readint16
    | unfold readuint16 | unfold readint32 | unfold readuint32];
    rewrite ?(H 3), ?(H 2), ?(H 1), ?(H 0) by lia; reflexivity.
Qed.

Lemma data_ext (d d' : list Z) :
  length d = length d' -> (forall j, load d j = load d' j) -> d = d'.
Proof.
  intros Hlen H. apply list_eq. intros i.
  specialize (H (Z.of_nat i)). unfold load in H.
  assert (E : (0 <=? Z.of_nat i) = true) by (apply Z.leb_le; lia).
  rewrite E, Nat2Z.id in H. exact H.
Qed.

Lemma frame_ext m m' :
  COBId_ m = COBId_ m' -> flag_ m = flag_ m' -> length_ m = length_ m' ->
  wf m -> wf m' -> (forall j, load (data_ m) j = load (data_ m') j) ->
  m = m'.
Proof.
  destruct m, m'. simpl. unfold wf. simpl. intros -> -> -> Hl Hl' H.
  f_equal. apply data_ext; [congruence | exact H].
Qed.

(** The octets of a frame after two writes on ranges that do not meet. *)
Lemma load_after_two_writes ty1 v1 p1 ty2 v2 p2 m m1 m2 :
  0 <= p1 -> 0 <= p2 ->
  apart p1 (sizeof ty1) p2 (sizeof ty2) ->
  write_post ty1 v1 p1 m m1 -> write_post ty2 v2 p2 m1 m2 ->
  forall j,
    load (data_ m2) j =
    if (p1 <=? j) && (j <? p1 + sizeof ty1)
    then Some ((v1 / 2 ^ (8 * (j - p1))) mod 256)
    else if (p2 <=? j) && (j <? p2 + sizeof ty2)
         then Some ((v2 / 2 ^ (8 * (j - p2))) mod 256)
         else load (data_ m) j.
Proof.
  intros H1 H2 Hap (_ & Oct1 & Fr1 & _) (_ & Oct2 & Fr2 & _) j.
  unfold apart in Hap.
  destruct ((p1 <=? j) && (j <? p1 + sizeof ty1)) eqn:E1.
  - apply andb_true_iff in E1 as [A B].
    apply Z.leb_le in A. apply Z.ltb_lt in B.
    rewrite Fr2 by lia.
    replace j with (p1 + (j - p1)) at 1 by lia. apply Oct1. lia.
  - destruct ((p2 <=? j) && (j <? p2 + sizeof ty2)) eqn:E2.
    + apply andb_true_iff in E2 as [A B].
      apply Z.leb_le in A. apply Z.ltb_lt in B.
      replace j with (p2 + (j - p2)) at 1 by lia. apply Oct2. lia.
    + apply andb_false_iff in E1. apply andb_false_iff in E2.
      rewrite Z.leb_gt, Z.ltb_ge in E1, E2.
      rewrite Fr2, Fr1 by lia. reflexivity.
Qed.

(** X3. Two values written at ranges that do not meet do not disturb each
    other: both writes are defined, each value is read back afterwards, and
    writing them in the other order gives the same frame. *)
Theorem disjoint_writes_independent
    (ty1 : IntType) (v1 p1 : Z) (ty2 : IntType) (v2 p2 : Z) (m : CANMsg) :
  wf m -> in_type ty1 v1 -> in_type ty2 v2 ->
  0 <= p1 -> p1 + sizeof ty1 <= 8 ->
  0 <= p2 -> p2 + sizeof ty2 <= 8 ->
  apart p1 (sizeof ty1) p2 (sizeof ty2) ->
  exists m1 m2 m1',
    write ty1 v1 p1 m = Some m1 /\
    write ty2 v2 p2 m1 = Some m2 /\
    read ty1 p1 m2 = Some v1 /\
    read ty2 p2 m2 = Some v2 /\
    write ty2 v2 p2 m = Some m1' /\
    write ty1 v1 p1 m1' = Some m2.
Proof.
  intros Hwf Hv1 Hv2 H1 Hs1 H2 Hs2 Hap.
  destruct (write_holds ty1 v1 p1 m) as (m1 & W1 & P1); auto.
  assert (Hwf1 : wf m1) by (destruct P1 as (_ & _ & _ & _ & _ & _ & H); exact H).
  destruct (write_holds ty2 v2 p2 m1) as (m2 & W2 & P2); auto.
  destruct (write_holds ty2 v2 p2 m) as (m1' & W1' & P1'); auto.
  assert (Hwf1' : wf m1')
    by (destruct P1' as (_ & _ & _ & _ & _ & _ & H); exact H).
  destruct (write_holds ty1 v1 p1 m1') as (m2' & W2' & P2'); auto.
  exists m1, m2, m1'.
  split; [exact W1 |]. split; [exact W2 |].
  split.
  { destruct P1 as (R1 & _). rewrite <- R1. apply read_ext.
    intros i Hi. destruct P2 as (_ & _ & Fr2 & _).
    apply Fr2. unfold apart in Hap. lia. }
  split; [destruct P2 as (R2 & _); exact R2 |].
  split; [exact W1' |].
  rewrite W2'. f_equal.
  pose proof (load_after_two_writes ty1 v1 p1 ty2 v2 p2 m m1 m2
                H1 H2 Hap P1 P2) as La.
  assert (Hap' : apart p2 (sizeof ty2) p1 (sizeof ty1))
    by (unfold apart in *; lia).
  pose proof (load_after_two_writes ty2 v2 p2 ty1 v1 p1 m m1' m2'
                H2 H1 Hap' P1' P2') as Lb.
  destruct P1 as (_ & _ & _ & C1 & F1 & N1 & _).
  destruct P2 as (_ & _ & _ & C2 & F2 & N2 & Hwf2).
  destruct P1' as (_ & _ & _ & C1' & F1' & N1' & _).
  destruct P2' as (_ & _ & _ & C2' & F2' & N2' & Hwf2').
  apply frame_ext; try congruence.
  intros j. rewrite La, Lb.
  unfold apart in Hap.
  destruct ((p1 <=? j) && (j <? p1 + sizeof ty1)) eqn:E1;
    destruct ((p2 <=? j) && (j <? p2 + sizeof ty2)) eqn:E2;
    try reflexivity.
  apply andb_true_iff in E1 as [A1 B1]. apply andb_true_iff in E2 as [A2 B2].
  apply Z.leb_le in A1, A2. apply Z.ltb_lt in B1, B2. lia.
Qed.

(** *** One value, read at other types *)

Lemma octets_range v : is_octet (octet v 24) /\ is_octet (octet v 16) /\
                       is_octet (octet v 8) /\ is_octet (octet v 0).
Proof. unfold is_octet. repeat split; apply octet_range; lia. Qed.

Lemma join_uint32_any v :
  join_uint32 (octet v 24) (octet v 16) (octet v 8) (octet v 0) = to_uint 32 v.
Proof.
  destruct (octets_range v) as (B3 & B2 & B1 & B0).
  rewrite join_uint32_sum by assumption.
  rewrite !octet_div_mod by lia. widths. change (2 ^ 0) with 1. euclid.
Qed.

Lemma join_int32_any v :
  join_int32 (octet v 24) (octet v 16) (octet v 8) (octet v 0) = to_int 32 v.
Proof.
  destruct (octets_range v) as (B3 & B2 & B1 & B0).
  rewrite join_int32_sum by assumption.
  rewrite !octet_div_mod by lia. widths. change (2 ^ 0) with 1. euclid.
Qed.

Lemma join_uint16_low v :
  join_uint16 (octet v 8) (octet v 0) = to_uint 16 v.
Proof.
  destruct (octets_range v) as (B3 & B2 & B1 & B0).
  rewrite join_uint16_sum by assumption.
  rewrite !octet_div_mod by lia. widths. change (2 ^ 0) with 1. euclid.
Qed.

Lemma join_uint16_high v :
  join_uint16 (octet v 24) (octet v 16) = to_uint 16 (v / 65536).
Proof.
  destruct (octets_range v) as (B3 & B2 & B1 & B0).
  rewrite join_uint16_sum by assumption.
  rewrite !octet_div_mod by lia. widths. euclid.
Qed.

(** X4. A 32-bit value written at [pos], signed or unsigned, is stored as
    its two's complement octets: read back unsigned it is the value modulo
    [2^32], read back signed it is the representative in the [int32_t]
    range, and the 16-bit reads at [pos] and [pos + 2] give its low and its
    high half. *)
Theorem write32_read_as (ty : IntType) (v pos : Z) (m : CANMsg) :
  sizeof ty = 4 ->
  wf m -> in_type ty v -> 0 <= pos -> pos + 4 <= 8 ->
  exists m',
    write ty v pos m = Some m' /\
    readuint32 pos m' = Some (to_uint 32 v) /\
    readint32 pos m' = Some (to_int 32 v) /\
    readuint16 pos m' = Some (to_uint 16 v) /\
    readuint16 (pos + 2) m' = Some (to_uint 16 (v / 65536)).
Proof.
  intros Hty Hwf Hv H0 Hs.
  destruct (store4_spec (data_ m) pos (octet v 24) (octet v 16) (octet v 8)
              (octet v 0) Hwf H0 Hs)
    as (d' & E & L & A3 & A2 & A1 & A0 & F).
  exists (with_data m d'). split.
  { destruct ty; try discriminate Hty; cbn [write];
      [unfold write_int32 | unfold write_uint32]; apply E. }
  unfold readuint32, readint32, readuint16. cbn [data_ with_data].
  replace (1 + (pos + 2)) with (3 + pos) by lia.
  replace (0 + (pos + 2)) with (2 + pos) by lia.
  rewrite A3, A2, A1, A0. cbn [mbind option_bind].
  rewrite join_uint32_any, join_int32_any, join_uint16_low, join_uint16_high.
  auto.
Qed.

(** *** Copies *)

(** [std::copy] is defined exactly when the octets it reads and the
    octets it writes all exist. *)
Lemma copy_from_defined_iff src n : forall i dst,
  0 <= i ->
  (is_Some (copy_from src i n dst) <->
   n = 0%nat \/
   (i + Z.of_nat n <= Z.of_nat (length src) /\
    i + Z.of_nat n <= Z.of_nat (length dst))).
Proof.
  induction n as [| n IH]; intros i dst Hi.
  - simpl. split; [auto | intros _; eexists; reflexivity].
  - cbn [copy_from].
    destruct (Z_lt_ge_dec i (Z.of_nat (length src))) as [Hs | Hs].
    + destruct (load_defined src i) as [b Hb]; [lia |].
      rewrite Hb. cbn [mbind option_bind].
      destruct (Z_lt_ge_dec i (Z.of_nat (length dst))) as [Hd | Hd].
      * rewrite store_defined by lia. cbn [mbind option_bind].
        rewrite IH by lia. rewrite length_insert.
        split.
        -- intros [-> | H]; right; lia.
        -- intros [H | H]; [discriminate H |].
           destruct n; [left; reflexivity | right; lia].
      * rewrite store_outside by lia. cbn [mbind option_bind].
        split; [intros [x Hx]; discriminate Hx |].
        intros [H | H]; [discriminate H | lia].
    + rewrite load_outside by lia. cbn [mbind option_bind].
      split; [intros [x Hx]; discriminate Hx |].
      intros [H | H]; [discriminate H | lia].
Qed.

(** X5. Neither [setData] nor the constructors check the length they are
    given.  [setData(L, d)] and [CANMsg(COBId, L, d)] are defined iff [L] is
    at most 8 and at most the number of octets behind [d].  The constructor
    from a literal sequence is defined iff the sequence has at most 8
    octets, whatever [L] is. *)
Theorem copies_defined_iff (L COBId : Z) (d : list Z) (m : CANMsg) :
  wf m -> 0 <= L ->
  (is_Some (setData L d m) <-> L <= Z.of_nat (length d) /\ L <= 8) /\
  (is_Some (CANMsg_ptr COBId L d) <-> L <= Z.of_nat (length d) /\ L <= 8) /\
  (is_Some (CANMsg_list COBId L d) <-> Z.of_nat (length d) <= 8).
Proof.
  intros Hwf HL. unfold wf in Hwf.
  assert (Hsome : forall (o : option (list Z)) (f : list Z -> CANMsg),
            is_Some (x ← o; Some (f x)) <-> is_Some o).
  { intros [x |] f; simpl; split; intros [y Hy];
      try discriminate Hy; eexists; reflexivity. }
  unfold setData, CANMsg_ptr, CANMsg_list, std_copy.
  rewrite !Hsome, !copy_from_defined_iff by lia.
  rewrite Hwf. simpl length.
  split; [| split].
  - split; [intros [H | H] | intros H; right]; lia.
  - split; [intros [H | H] | intros H; right]; lia.
  - split; [intros [H | H] | intros H; right]; lia.
Qed.

(** *** The theorems on concrete frames *)

Import Scenarios.

Lemma sample_frame_octets : octets sample_frame.
Proof.
  unfold octets, is_octet. simpl.
  repeat (constructor; [lia |]). constructor.
Qed.

Lemma read_then_write_same_witness :
  exists v,
    read Int16 4 sample_frame = Some v /\ in_type Int16 v /\
    write Int16 v 4 sample_frame = Some sample_frame.
Proof.
  apply (read_then_write_same Int16 4 sample_frame).
  - reflexivity.
  - exact sample_frame_octets.
  - lia.
  - simpl. lia.
Defined.

Example read_int16_sample_frame :
  read Int16 4 sample_frame = Some (-1030) /\
  write Int16 (-1030) 4 sample_frame = Some sample_frame.
Proof. split; reflexivity. Qed.

Lemma access_defined_iff_witness :
  (is_Some (write UInt32 1 5 sample_frame) <-> 5 + sizeof UInt32 <= 8) /\
  (is_Some (read UInt32 5 sample_frame) <-> 5 + sizeof UInt32 <= 8).
Proof.
  apply (access_defined_iff UInt32 1 5 sample_frame).
  - reflexivity.
  - lia.
Defined.

Example write_past_the_end :
  write UInt32 1 5 sample_frame = None /\ read UInt32 5 sample_frame = None /\
  write UInt16 1 7 sample_frame = None /\ read UInt8 8 sample_frame = None.
Proof. repeat split; reflexivity. Qed.

Lemma disjoint_writes_independent_witness :
  exists m1 m2 m1',
    write Int16 (-2) 0 sample_frame = Some m1 /\
    write UInt32 3735928559 4 m1 = Some m2 /\
    read Int16 0 m2 = Some (-2) /\
    read UInt32 4 m2 = Some 3735928559 /\
    write UInt32 3735928559 4 sample_frame = Some m1' /\
    write Int16 (-2) 0 m1' = Some m2.
Proof.
  apply (disjoint_writes_independent Int16 (-2) 0 UInt32 3735928559 4
           sample_frame).
  - reflexivity.
  - simpl. unfold in_int. simpl. lia.
  - simpl. unfold in_uint. simpl. lia.
  - lia.
  - simpl. lia.
  - lia.
  - simpl. lia.
  - left. simpl. lia.
Defined.

Lemma write32_read_as_witness :
  exists m',
    write Int32 (-2) 4 sample_frame = Some m' /\
    readuint32 4 m' = Some (to_uint 32 (-2)) /\
    readint32 4 m' = Some (to_int 32 (-2)) /\
    readuint16 4 m' = Some (to_uint 16 (-2)) /\
    readuint16 (4 + 2) m' = Some (to_uint 16 (-2 / 65536)).
Proof.
  apply (write32_read_as Int32 (-2) 4 sample_frame).
  - reflexivity.
  - reflexivity.
  - simpl. unfold in_int. simpl. lia.
  - lia.
  - lia.
Defined.

Example write_int32_read_uint32 :
  (write Int32 (-2) 4 sample_frame ≫= readuint32 4) = Some 4294967294 /\
  (write UInt32 4294967294 4 sample_frame ≫= readint32 4) = Some (-2).
Proof. split; reflexivity. Qed.

Lemma copies_defined_iff_witness :
  (is_Some (setData 9 [1; 2; 3; 4; 5; 6; 7; 8; 9] sample_frame) <->
   9 <= Z.of_nat (length [1; 2; 3; 4; 5; 6; 7; 8; 9]) /\ 9 <= 8) /\
  (is_Some (CANMsg_ptr 513 9 [1; 2; 3; 4; 5; 6; 7; 8; 9]) <->
   9 <= Z.of_nat (length [1; 2; 3; 4; 5; 6; 7; 8; 9]) /\ 9 <= 8) /\
  (is_Some (CANMsg_list 513 9 [1; 2; 3; 4; 5; 6; 7; 8; 9]) <->
   Z.of_nat (length [1; 2; 3; 4; 5; 6; 7; 8; 9]) <= 8).
Proof.
  apply (copies_defined_iff 9 513 [1; 2; 3; 4; 5; 6; 7; 8; 9] sample_frame).
  - reflexivity.
  - lia.
Defined.

Example setData_nine_octets :
  setData 9 [1; 2; 3; 4; 5; 6; 7; 8; 9] sample_frame = None /\
  setData 3 [1; 2] sample_frame = None /\
  is_Some (setData 8 [1; 2; 3; 4; 5; 6; 7; 8; 9] sample_frame).
Proof. repeat split; try reflexivity. eexists. reflexivity. Qed.

End FrameFacts.

(** ** The device: timing out *)

Module TimeoutFacts.
Import CInt Device DeviceFacts.

Lemma seq_passes max :
  0 <= max ->
  map (fun k => negb (0 + Z.of_nat k >? max)) (seq 0 (Z.to_nat max + 2)) =
  repeat true (Z.to_nat max + 1) ++ [false].
Proof.
  intros Hmax.
  replace (Z.to_nat max + 2)%nat with ((Z.to_nat max + 1) + 1)%nat by lia.
  rewrite seq_app, map_app. f_equal.
  - apply (nth_ext _ _ true true).
    + rewrite length_map, length_seq, repeat_length. reflexivity.
    + intros n Hn. rewrite length_map, length_seq in Hn.
      rewrite nth_repeat.
      rewrite (nth_indep _ true (negb (0 + Z.of_nat 0 >? max)))
        by (rewrite length_map, length_seq; exact Hn).
      rewrite (map_nth (fun k => negb (0 + Z.of_nat k >? max))).
      rewrite seq_nth by exact Hn.
      apply negb_true_iff. rewrite Z.gtb_ltb. apply Z.ltb_ge. lia.
  - simpl. f_equal. apply negb_false_iff. apply Z.gtb_lt. lia.
Qed.

(** [n] checks in a row, up to the one on which the counter wraps. *)
Lemma sanityChecks_run n : forall d,
  maxDeviceTimeoutCounter (options_ d) <> 0 ->
  0 <= deviceTimeoutCounter_ d < 2 ^ 32 ->
  deviceTimeoutCounter_ d + Z.of_nat n <= 2 ^ 32 ->
  deviceTimeoutCounter_ (snd (sanityChecks n d)) =
    to_uint 32 (deviceTimeoutCounter_ d + Z.of_nat n) /\
  fst (sanityChecks n d) =
    map (fun k => negb (deviceTimeoutCounter_ d + Z.of_nat k
                        >? maxDeviceTimeoutCounter (options_ d)))
        (seq 0 n).
Proof.
  induction n as [| n IH]; intros d Hne Hc Hn.
  - simpl. split; [| reflexivity].
    rewrite Z.add_0_r. unfold to_uint. symmetry. apply Z.mod_small. exact Hc.
  - cbn [sanityChecks]. unfold sanityCheck.
    rewrite (checkDeviceTimeout_enabled d Hne).
    set (d1 := mkDevice _ _ _).
    assert (Ho : options_ d1 = options_ d) by reflexivity.
    destruct n as [| n'].
    + simpl. rewrite Z.add_0_r. split; reflexivity.
    + assert (Hc1 : deviceTimeoutCounter_ d1 = deviceTimeoutCounter_ d + 1).
      { subst d1. simpl. unfold to_uint. apply Z.mod_small. lia. }
      destruct (IH d1) as (Hcnt & Hres);
        [rewrite Ho; exact Hne | rewrite Hc1; lia | rewrite Hc1; lia |].
      remember (S n') as m eqn:Hm.
      destruct (sanityChecks m d1) as [rs d2]. cbn [fst snd] in *.
      split.
      * rewrite Hcnt, Hc1. f_equal. lia.
      * change (seq 0 (S m)) with (0%nat :: seq 1 m). cbn [map].
        rewrite Z.add_0_r. f_equal. rewrite Hres.
        rewrite <- seq_shift, map_map.
        apply map_ext. intros k. rewrite Hc1, Ho. do 2 f_equal. lia.
Qed.

(** With the limit [UINT_MAX] no counter exceeds the limit. *)
Lemma sanityChecks_never_fail n : forall d,
  maxDeviceTimeoutCounter (options_ d) = 2 ^ 32 - 1 ->
  0 <= deviceTimeoutCounter_ d < 2 ^ 32 ->
  fst (sanityChecks n d) = repeat true n.
Proof.
  induction n as [| n IH]; intros d Hmax Hc; [reflexivity |].
  cbn [sanityChecks]. unfold sanityCheck.
  rewrite (checkDeviceTimeout_enabled d) by (rewrite Hmax; discriminate).
  set (d1 := mkDevice _ _ _).
  assert (H1 : fst (sanityChecks n d1) = repeat true n).
  { apply IH; [exact Hmax |]. subst d1. cbn [deviceTimeoutCounter_].
    unfold to_uint. apply Z.mod_pos_bound. reflexivity. }
  destruct (sanityChecks n d1) as [rs d2]. cbn [fst] in *.
  cbn [repeat]. f_equal; [| exact H1].
  apply negb_true_iff. rewrite Z.gtb_ltb. apply Z.ltb_ge. lia.
Qed.

(** X6. A device that is never heard from, its counter starting at 0.
    With a limit [max] from 1 to [UINT_MAX - 1] the first [max + 1] sanity
    checks return true and the next one returns false; the counter then
    stands at [max + 2] modulo [2^32], which is 0 for the limit
    [UINT_MAX - 1].  With the limit [UINT_MAX] no check ever returns
    false. *)
Theorem sanityChecks_time_out (d : Device) :
  0 < maxDeviceTimeoutCounter (options_ d) < 2 ^ 32 ->
  deviceTimeoutCounter_ d = 0 ->
  (maxDeviceTimeoutCounter (options_ d) < 2 ^ 32 - 1 ->
   fst (sanityChecks (Z.to_nat (maxDeviceTimeoutCounter (options_ d)) + 2) d) =
     repeat true (Z.to_nat (maxDeviceTimeoutCounter (options_ d)) + 1)
     ++ [false] /\
   deviceTimeoutCounter_
     (snd (sanityChecks
             (Z.to_nat (maxDeviceTimeoutCounter (options_ d)) + 2) d)) =
     to_uint 32 (maxDeviceTimeoutCounter (options_ d) + 2)) /\
  (maxDeviceTimeoutCounter (options_ d) = 2 ^ 32 - 1 ->
   forall n, fst (sanityChecks n d) = repeat true n).
Proof.
  intros Hmax H0. split.
  - intros Hlt.
    destruct (sanityChecks_run
                (Z.to_nat (maxDeviceTimeoutCounter (options_ d)) + 2) d)
      as (Hcnt & Hres); [lia | rewrite H0; lia | rewrite H0; lia |].
    split.
    + rewrite Hres, H0. apply seq_passes. lia.
    + rewrite Hcnt, H0. f_equal. lia.
  - intros Heq n. apply sanityChecks_never_fail; [exact Heq |].
    rewrite H0. lia.
Qed.

Lemma sanityChecks_time_out_witness :
  (maxDeviceTimeoutCounter (options_ (Device_ctor (mkDeviceOptions 1 "dev" 3)))
   < 2 ^ 32 - 1 ->
   fst (sanityChecks
          (Z.to_nat (maxDeviceTimeoutCounter
                       (options_ (Device_ctor (mkDeviceOptions 1 "dev" 3)))) + 2)
          (Device_ctor (mkDeviceOptions 1 "dev" 3))) =
     repeat true
       (Z.to_nat (maxDeviceTimeoutCounter
                    (options_ (Device_ctor (mkDeviceOptions 1 "dev" 3)))) + 1)
     ++ [false] /\
   deviceTimeoutCounter_
     (snd (sanityChecks
             (Z.to_nat (maxDeviceTimeoutCounter
                          (options_ (Device_ctor (mkDeviceOptions 1 "dev" 3)))) + 2)
             (Device_ctor (mkDeviceOptions 1 "dev" 3)))) =
     to_uint 32
       (maxDeviceTimeoutCounter
          (options_ (Device_ctor (mkDeviceOptions 1 "dev" 3))) + 2)) /\
  (maxDeviceTimeoutCounter (options_ (Device_ctor (mkDeviceOptions 1 "dev" 3)))
   = 2 ^ 32 - 1 ->
   forall n,
     fst (sanityChecks n (Device_ctor (mkDeviceOptions 1 "dev" 3))) =
     repeat true n).
Proof.
  apply (sanityChecks_time_out (Device_ctor (mkDeviceOptions 1 "dev" 3))).
  - simpl. lia.
  - reflexivity.
Defined.

(** The limit 3: four checks pass, the fifth fails. *)
Example sanityChecks_time_out_limit_3 :
  sanityChecks 5 (Device_ctor (mkDeviceOptions 1 "dev" 3)) =
  ([true; true; true; true; false],
   mkDevice (mkDeviceOptions 1 "dev" 3) 5 None).
Proof. reflexivity. Qed.

(** The limit [UINT_MAX - 1]: the check that fails leaves the counter
    at 0. *)
Example sanityChecks_wrap_on_failure :
  sanityChecks 2
    (mkDevice (mkDeviceOptions 1 "dev" 4294967294) 4294967294 None) =
  ([true; false], mkDevice (mkDeviceOptions 1 "dev" 4294967294) 0 None).
Proof. reflexivity. Qed.

(** The limit [UINT_MAX]: the check passes with the counter at its
    largest value, and the counter wraps. *)
Example sanityChecks_limit_uint_max :
  sanityChecks 2
    (mkDevice (mkDeviceOptions 1 "dev" 4294967295) 4294967295 None) =
  ([true; true], mkDevice (mkDeviceOptions 1 "dev" 4294967295) 1 None).
Proof. reflexivity. Qed.

End TimeoutFacts.

(** ** The worker loops *)

Module WorkerFacts.
Import Bus Workers.
Import BusFacts.

Section WorkersOf.

Context {Msg Driver : Type}.
Variable initializeInterface : Driver -> bool * Driver.
Variable readData : Driver -> bool * Driver.
Variable writeData : Msg -> Driver -> bool * Driver.
Variable pthread_setschedparam : Thread -> SchedPolicy -> Z -> Z.
Variable finishes : Thread -> bool.

Implicit Types (w : World Msg Driver) (msg : Msg).

Lemma bind_run {A B : Type} (c : M A) (f : A -> M B) w :
  (c ≫= f) w = match c w with Some (a, w') => f a w' | None => None end.
Proof. reflexivity. Qed.

Lemma same_settings_refl w : same_settings w w.
Proof. repeat split. Qed.

Lemma same_settings_trans w1 w2 w3 :
  same_settings w1 w2 -> same_settings w2 w3 -> same_settings w1 w3.
Proof.
  unfold same_settings. intros (A1 & A2 & A3 & A4 & A5 & A6)
    (B1 & B2 & B3 & B4 & B5 & B6).
  repeat split; congruence.
Qed.

(** One pass of the transmit loop. *)
Lemma transmitWorker_step fuel w :
  running_ (bus w) = true ->
  transmitWorker writeData (S fuel) w =
  match processOutputQueue writeData w with
  | Some (Returned _, w') => transmitWorker writeData fuel w'
  | Some (Blocked, w') => Some (Suspended, w')
  | None => None
  end.
Proof.
  intros Hr. cbn [transmitWorker]. rewrite bind_run. unfold get_bus at 1.
  rewrite Hr. rewrite bind_run.
  destruct (processOutputQueue writeData w) as [[[r |] w'] |]; reflexivity.
Qed.

Lemma transmitWorker_stopped fuel w :
  running_ (bus w) = false ->
  transmitWorker writeData fuel w = Some (Terminated, w).
Proof.
  intros Hr. destruct fuel; cbn [transmitWorker]; rewrite bind_run;
    unfold get_bus at 1; rewrite Hr; reflexivity.
Qed.

Lemma transmitWorker_out_of_fuel w :
  running_ (bus w) = true ->
  transmitWorker writeData 0 w = Some (OutOfFuel, w).
Proof.
  intros Hr. cbn [transmitWorker]. rewrite bind_run. unfold get_bus at 1.
  rewrite Hr. reflexivity.
Qed.

(** *** The transmit loop *)

Lemma with_queue_settings w q d t :
  same_settings w (mkWorld (with_queue (bus w) q) d t).
Proof. repeat split. Qed.

(** While every attempt pops (the bus is passive, or the driver accepts
    whatever it is handed), the loop empties the queue from the front and
    is then suspended. *)
Lemma transmitWorker_pops_all q : forall fuel w,
  outgoingMsgs_ (bus w) = q ->
  running_ (bus w) = true ->
  (isPassive_ (bus w) = true \/ forall msg d, fst (writeData msg d) = true) ->
  (length q < fuel)%nat ->
  exists w',
    transmitWorker writeData fuel w = Some (Suspended, w') /\
    outgoingMsgs_ (bus w') = [] /\
    same_settings w w' /\
    write_calls (trace w') =
      write_calls (trace w) ++ (if isPassive_ (bus w) then [] else q) /\
    (isPassive_ (bus w) = true -> driver w' = driver w) /\
    exists t,
      trace w' = t ++ [Lock; NotifyAll condOutputQueueEmpty_;
                       Wait condTransmitThread_].
Proof.
  induction q as [| msg q IH]; intros fuel w Hq Hr Hpop Hfuel;
    (destruct fuel as [| fuel]; [simpl in Hfuel; lia |]);
    rewrite (transmitWorker_step fuel w Hr).
  - rewrite (processOutputQueue_blocks writeData w Hq Hr).
    eexists. split; [reflexivity |]. unfold after. simpl.
    split; [exact Hq |]. split; [repeat split |].
    split.
    { rewrite write_calls_app. simpl.
      destruct (isPassive_ (bus w)); reflexivity. }
    split; [reflexivity |].
    exists (trace w). reflexivity.
  - simpl in Hfuel.
    destruct (isPassive_ (bus w)) eqn:Hp.
    + rewrite (processOutputQueue_passive writeData w msg q Hq Hr Hp).
      set (w1 := mkWorld (with_queue (bus w) q) (driver w)
                   (trace w ++ [Lock; Unlock; Lock; Unlock])).
      destruct (IH fuel w1) as (w' & Hrun & Hq' & Hs & Hw & Hd & Ht);
        [reflexivity | exact Hr | left; exact Hp | lia |].
      exists w'. split; [exact Hrun |]. split; [exact Hq' |].
      split; [exact (same_settings_trans w w1 w'
                       (with_queue_settings w q _ _) Hs) |].
      split.
      { rewrite Hw. subst w1. simpl. rewrite Hp, write_calls_app. simpl.
        rewrite !app_nil_r. reflexivity. }
      split; [| exact Ht].
      intros _. rewrite Hd; [reflexivity | exact Hp].
    + assert (Hacc : forall m d, fst (writeData m d) = true).
      { destruct Hpop as [H | H]; [discriminate H | exact H]. }
      rewrite (processOutputQueue_active writeData w msg q Hq Hr Hp), Hacc.
      set (w1 := mkWorld (with_queue (bus w) q)
                   (snd (writeData msg (driver w)))
                   (trace w ++ [Lock; Unlock; CallWriteData msg; Lock; Unlock])).
      destruct (IH fuel w1) as (w' & Hrun & Hq' & Hs & Hw & Hd & Ht);
        [reflexivity | exact Hr | right; exact Hacc | lia |].
      exists w'. split; [exact Hrun |]. split; [exact Hq' |].
      split; [exact (same_settings_trans w w1 w'
                       (with_queue_settings w q _ _) Hs) |].
      split.
      { rewrite Hw. subst w1. simpl. rewrite Hp, write_calls_app. simpl.
        rewrite <- app_assoc. reflexivity. }
      split; [| exact Ht].
      intros H. discriminate H.
Qed.

(** X7. On an active, running bus whose driver accepts every frame, the
    transmit loop hands the queued frames to [writeData] in queue order,
    each once, leaves the queue empty, notifies [condOutputQueueEmpty_] and
    is suspended in the wait on [condTransmitThread_]. *)
Theorem transmitWorker_delivers_in_order fuel w :
  running_ (bus w) = true ->
  isPassive_ (bus w) = false ->
  (forall msg d, fst (writeData msg d) = true) ->
  (length (outgoingMsgs_ (bus w)) < fuel)%nat ->
  exists w',
    transmitWorker writeData fuel w = Some (Suspended, w') /\
    outgoingMsgs_ (bus w') = [] /\
    write_calls (trace w') = write_calls (trace w) ++ outgoingMsgs_ (bus w) /\
    same_settings w w' /\
    exists t,
      trace w' = t ++ [Lock; NotifyAll condOutputQueueEmpty_;
                       Wait condTransmitThread_].
Proof.
  intros Hr Hp Hacc Hfuel.
  destruct (transmitWorker_pops_all (outgoingMsgs_ (bus w)) fuel w)
    as (w' & Hrun & Hq & Hs & Hw & _ & Ht);
    [reflexivity | exact Hr | right; exact Hacc | exact Hfuel |].
  rewrite Hp in Hw. exists w'. auto.
Qed.

(** X8. On a passive, running bus the transmit loop empties the queue
    without a single call of [writeData]: the frames are discarded, the
    driver is not touched, and the bus stays passive. *)
Theorem transmitWorker_passive_discards fuel w :
  running_ (bus w) = true ->
  isPassive_ (bus w) = true ->
  (length (outgoingMsgs_ (bus w)) < fuel)%nat ->
  exists w',
    transmitWorker writeData fuel w = Some (Suspended, w') /\
    outgoingMsgs_ (bus w') = [] /\
    write_calls (trace w') = write_calls (trace w) /\
    driver w' = driver w /\
    isPassive_ (bus w') = true.
Proof.
  intros Hr Hp Hfuel.
  destruct (transmitWorker_pops_all (outgoingMsgs_ (bus w)) fuel w)
    as (w' & Hrun & Hq & Hs & Hw & Hd & _);
    [reflexivity | exact Hr | left; exact Hp | exact Hfuel |].
  rewrite Hp, app_nil_r in Hw. exists w'.
  destruct Hs as (_ & _ & Hp' & _).
  repeat split; auto. congruence.
Qed.

(** X9. Whatever the driver answers, a run of the transmit loop with no
    other thread at the bus meanwhile is defined, changes no flag and no
    option, and only ever removes frames from the front of the queue: what
    is left is a suffix of the queue it started with, and every frame handed
    to [writeData] was in that queue.  The loop ends [Terminated] exactly
    when [running_] is false, and then it has done nothing; it is suspended
    only with the queue empty. *)
Theorem transmitWorker_keeps_order fuel : forall w,
  exists e w',
    transmitWorker writeData fuel w = Some (e, w') /\
    same_settings w w' /\
    (exists k, outgoingMsgs_ (bus w') = drop k (outgoingMsgs_ (bus w))) /\
    (exists calls,
        write_calls (trace w') = write_calls (trace w) ++ calls /\
        Forall (fun m => In m (outgoingMsgs_ (bus w))) calls) /\
    (e = Terminated <-> running_ (bus w) = false) /\
    (e = Terminated -> w' = w) /\
    (e = Suspended -> outgoingMsgs_ (bus w') = []).
Proof.
  induction fuel as [| fuel IH]; intros w;
    destruct (running_ (bus w)) eqn:Hr.
  - exists OutOfFuel, w. rewrite (transmitWorker_out_of_fuel w Hr).
    split; [reflexivity |]. split; [apply same_settings_refl |].
    split; [exists 0%nat; reflexivity |].
    split; [exists []; rewrite app_nil_r; auto |].
    repeat split; intros H; discriminate H.
  - exists Terminated, w. rewrite (transmitWorker_stopped 0 w Hr).
    split; [reflexivity |]. split; [apply same_settings_refl |].
    split; [exists 0%nat; reflexivity |].
    split; [exists []; rewrite app_nil_r; auto |].
    repeat split; auto; intros H; discriminate H.
  - rewrite (transmitWorker_step fuel w Hr).
    destruct (outgoingMsgs_ (bus w)) as [| msg q] eqn:Hq.
    + rewrite (processOutputQueue_blocks writeData w Hq Hr).
      exists Suspended. eexists. split; [reflexivity |]. unfold after. simpl.
      split; [repeat split |].
      split; [exists 0%nat; exact Hq |].
      split; [exists []; rewrite write_calls_app; auto |].
      repeat split; auto; intros H; discriminate H.
    + assert (Hnext : forall d t,
                exists e w',
                  transmitWorker writeData fuel
                    (mkWorld (with_queue (bus w) q) d
                       (trace w ++ t)) = Some (e, w') /\
                  same_settings w w' /\
                  (exists k, outgoingMsgs_ (bus w') = drop k (msg :: q)) /\
                  (exists calls,
                      write_calls (trace w') =
                        write_calls (trace w) ++ write_calls t ++ calls /\
                      Forall (fun m => In m (msg :: q)) calls) /\
                  (e = Terminated <-> true = false) /\
                  (e = Terminated -> w' = w) /\
                  (e = Suspended -> outgoingMsgs_ (bus w') = [])).
      { intros d t.
        destruct (IH (mkWorld (with_queue (bus w) q) d (trace w ++ t)))
          as (e & w' & Hrun & Hs & (k & Hk) & (calls & Hc & Hin) & Ht & Hw & Hsus).
        simpl in Hk, Hc, Hin, Ht. rewrite Hr in Ht.
        exists e, w'. split; [exact Hrun |].
        split; [exact (same_settings_trans _ _ _
                         (with_queue_settings w q _ _) Hs) |].
        split; [exists (S k); exact Hk |].
        split.
        { exists calls. rewrite Hc, write_calls_app, <- app_assoc.
          split; [reflexivity |].
          eapply Forall_impl; [exact Hin |]. intros m Hm. right. exact Hm. }
        split; [exact Ht |]. split; [| exact Hsus].
        intros He. apply Ht in He. discriminate He. }
      destruct (isPassive_ (bus w)) eqn:Hp.
      * rewrite (processOutputQueue_passive writeData w msg q Hq Hr Hp).
        destruct (Hnext (driver w) [Lock; Unlock; Lock; Unlock])
          as (e & w' & Hrun & Hs & Hk & (calls & Hc & Hin) & Ht & Hw & Hsus).
        exists e, w'. split; [exact Hrun |]. split; [exact Hs |].
        split; [exact Hk |]. split; [| auto].
        exists calls. simpl in Hc. auto.
      * rewrite (processOutputQueue_active writeData w msg q Hq Hr Hp).
        destruct (fst (writeData msg (driver w))) eqn:Ha.
        -- destruct (Hnext (snd (writeData msg (driver w)))
                       [Lock; Unlock; CallWriteData msg; Lock; Unlock])
             as (e & w' & Hrun & Hs & Hk & (calls & Hc & Hin) & Ht & Hw & Hsus).
           exists e, w'. split; [exact Hrun |]. split; [exact Hs |].
           split; [exact Hk |]. split; [| auto].
           exists (msg :: calls). simpl in Hc. split; [exact Hc |].
           constructor; [left; reflexivity | exact Hin].
        -- set (w1 := mkWorld (bus w) (snd (writeData msg (driver w)))
                        (trace w ++ [Lock; Unlock; CallWriteData msg])).
           destruct (IH w1)
             as (e & w' & Hrun & Hs & (k & Hk) & (calls & Hc & Hin) & Ht & Hw & Hsus).
           subst w1. simpl in Hk, Hc, Hin, Ht. rewrite Hq in Hk, Hin.
           rewrite Hr in Ht.
           exists e, w'. split; [exact Hrun |]. split; [exact Hs |].
           split; [exists k; exact Hk |].
           split.
           { exists (msg :: calls). rewrite Hc, write_calls_app. simpl.
             rewrite <- app_assoc. split; [reflexivity |].
             constructor; [left; reflexivity | exact Hin]. }
           split; [exact Ht |]. split; [| exact Hsus].
           intros He. apply Ht in He. discriminate He.
  - exists Terminated, w. rewrite (transmitWorker_stopped (S fuel) w Hr).
    split; [reflexivity |]. split; [apply same_settings_refl |].
    split; [exists 0%nat; reflexivity |].
    split; [exists []; rewrite app_nil_r; auto |].
    repeat split; auto; intros H; discriminate H.
Qed.

(** X10. A frame the driver refuses stays at the head and is offered again
    on the very next pass: after [fuel] passes [writeData] has been called
    [fuel] times with it, the bus is as it was, and the loop has neither
    ended nor been suspended. *)
Theorem transmitWorker_retries_refused_frame fuel : forall w msg q,
  outgoingMsgs_ (bus w) = msg :: q ->
  running_ (bus w) = true ->
  isPassive_ (bus w) = false ->
  (forall d, fst (writeData msg d) = false) ->
  exists w',
    transmitWorker writeData fuel w = Some (OutOfFuel, w') /\
    bus w' = bus w /\
    write_calls (trace w') = write_calls (trace w) ++ repeat msg fuel.
Proof.
  induction fuel as [| fuel IH]; intros w msg q Hq Hr Hp Href.
  - exists w. rewrite (transmitWorker_out_of_fuel w Hr).
    simpl. rewrite app_nil_r. auto.
  - rewrite (transmitWorker_step fuel w Hr).
    rewrite (processOutputQueue_active writeData w msg q Hq Hr Hp), Href.
    destruct (IH (mkWorld (bus w) (snd (writeData msg (driver w)))
                    (trace w ++ [Lock; Unlock; CallWriteData msg])) msg q)
      as (w' & Hrun & Hb & Hc); auto.
    exists w'. split; [exact Hrun |]. split; [exact Hb |].
    rewrite Hc. simpl. rewrite write_calls_app. simpl.
    rewrite <- app_assoc. reflexivity.
Qed.

(** *** Producers *)

Lemma sendMessages_run msgs : forall w,
  exists w',
    sendMessages msgs w = Some (tt, w') /\
    outgoingMsgs_ (bus w') = outgoingMsgs_ (bus w) ++ msgs /\
    same_settings w w' /\
    driver w' = driver w /\
    write_calls (trace w') = write_calls (trace w).
Proof.
  induction msgs as [| msg msgs IH]; intros w.
  - exists w. simpl. rewrite app_nil_r.
    split; [reflexivity |]. split; [reflexivity |].
    split; [apply same_settings_refl | auto].
  - cbn [sendMessages]. rewrite bind_run, sendMessage_run.
    set (w1 := mkWorld _ _ _).
    destruct (IH w1) as (w' & Hrun & Hq & Hs & Hd & Hc).
    exists w'. split; [exact Hrun |].
    split; [rewrite Hq; subst w1; simpl; rewrite <- app_assoc; reflexivity |].
    split; [exact (same_settings_trans w w1 w'
                     (with_queue_settings w _ _ _) Hs) |].
    split; [exact Hd |].
    rewrite Hc. subst w1. simpl.
    rewrite !write_calls_app. unfold overflow_log.
    destruct (_ >=? _); simpl; rewrite app_nil_r; reflexivity.
Qed.

(** X11. Frames are transmitted in the order of the [sendMessage] calls,
    behind the frames already queued: after a producer has sent [msgs], the
    transmit loop of an active, running bus with an accepting driver hands
    [writeData] the old queue and then [msgs], in that order. *)
Theorem sendMessages_then_transmit msgs fuel w :
  running_ (bus w) = true ->
  isPassive_ (bus w) = false ->
  (forall msg d, fst (writeData msg d) = true) ->
  (length (outgoingMsgs_ (bus w)) + length msgs < fuel)%nat ->
  exists w1 w2,
    sendMessages msgs w = Some (tt, w1) /\
    transmitWorker writeData fuel w1 = Some (Suspended, w2) /\
    outgoingMsgs_ (bus w2) = [] /\
    write_calls (trace w2) =
      write_calls (trace w) ++ outgoingMsgs_ (bus w) ++ msgs.
Proof.
  intros Hr Hp Hacc Hfuel.
  destruct (sendMessages_run msgs w) as (w1 & Hsend & Hq1 & Hs1 & Hd1 & Hc1).
  destruct Hs1 as (_ & _ & Hp1 & _ & _ & Hr1).
  destruct (transmitWorker_pops_all (outgoingMsgs_ (bus w1)) fuel w1)
    as (w2 & Hrun & Hq2 & _ & Hc2 & _);
    [reflexivity | congruence | right; exact Hacc
    | rewrite Hq1, length_app; exact Hfuel |].
  exists w1, w2. split; [exact Hsend |]. split; [exact Hrun |].
  split; [exact Hq2 |].
  rewrite Hc2, Hp1, Hp, Hc1, Hq1. reflexivity.
Qed.

(** *** Starting and stopping *)

Lemma started_app (s t : list (Event Msg)) :
  started (s ++ t) = started s ++ started t.
Proof.
  induction s as [| e s IH]; [reflexivity |].
  destruct e; simpl; rewrite ?IH; reflexivity.
Qed.

Lemma joined_app (s t : list (Event Msg)) :
  joined (s ++ t) = joined s ++ joined t.
Proof.
  induction s as [| e s IH]; [reflexivity |].
  destruct e; simpl; rewrite ?IH; reflexivity.
Qed.

Ltac open_world w :=
  destruct w as [[mis act pas opt que thr rng] drv trc];
  cbn [bus driver trace isMissingDeviceOrHasError_ allDevicesActive_
       isPassive_ options_ outgoingMsgs_ threads_ running_] in *.

Lemma started_log_if (c : bool) line :
  started (if c then [Log line] else [] : list (Event Msg)) = [].
Proof. destruct c; reflexivity. Qed.

Lemma joined_log_if (c : bool) line :
  joined (if c then [Log line] else [] : list (Event Msg)) = [].
Proof. destruct c; reflexivity. Qed.

Lemma initBus_run w :
  exists w',
    initBus initializeInterface pthread_setschedparam w =
      Some (fst (initializeInterface (driver w)), w') /\
    driver w' = snd (initializeInterface (driver w)) /\
    outgoingMsgs_ (bus w') = outgoingMsgs_ (bus w) /\
    isPassive_ (bus w') = isPassive_ (bus w) /\
    options_ (bus w') = options_ (bus w) /\
    running_ (bus w') =
      (running_ (bus w) || fst (initializeInterface (driver w))) /\
    started (trace w') =
      started (trace w) ++
      (if fst (initializeInterface (driver w))
       then threads_of (options_ (bus w)) else []) /\
    joined (trace w') = joined (trace w) /\
    (forall th,
        threads_ (bus w') th =
        if fst (initializeInterface (driver w))
           && existsb (thread_eqb th) (threads_of (options_ (bus w)))
        then Some (worker_of th)
        else threads_ (bus w) th).
Proof.
  open_world w.
  unfold initBus, set_running, thread_start, threads_of. run.
  destruct (initializeInterface drv) as [[|] d'] eqn:Hi; run;
    [destruct (asynchronous_ opt) eqn:Ha; run;
       [rewrite !set_priority_run; unfold after; run;
        destruct (sanityCheckInterval_ opt >? 0) eqn:Hs; run;
          [rewrite set_priority_run; unfold after; run |] |] |];
    (eexists; split; [reflexivity |]); run;
    rewrite ?orb_true_r, ?orb_false_r;
    repeat (split; [reflexivity |]);
    (split; [rewrite !started_app; simpl; rewrite ?started_log_if; simpl;
             rewrite ?app_nil_r, <- ?app_assoc; reflexivity |]);
    (split; [rewrite !joined_app; simpl; rewrite ?joined_log_if; simpl;
             rewrite ?app_nil_r; reflexivity |]);
    intros []; reflexivity.
Qed.

(** X12. On a bus whose thread members hold no thread, as constructed,
    [initBus] returns what [initializeInterface] returned.  When that is
    false the bus object is untouched and no thread is started.  When it is
    true [running_] is set and exactly the threads of the configuration are
    started, each with its own member function: none on a synchronous bus,
    the receive and transmit threads on an asynchronous one, and the
    sanity-check thread as well when [sanityCheckInterval_ > 0].  The queue
    and the passive flag are never touched. *)
Theorem initBus_outcome w :
  (forall th, threads_ (bus w) th = None) ->
  exists w',
    initBus initializeInterface pthread_setschedparam w =
      Some (fst (initializeInterface (driver w)), w') /\
    outgoingMsgs_ (bus w') = outgoingMsgs_ (bus w) /\
    isPassive_ (bus w') = isPassive_ (bus w) /\
    (fst (initializeInterface (driver w)) = false ->
       bus w' = bus w /\ started (trace w') = started (trace w)) /\
    (fst (initializeInterface (driver w)) = true ->
       running_ (bus w') = true /\
       started (trace w') =
         started (trace w) ++ threads_of (options_ (bus w)) /\
       forall th,
         threads_ (bus w') th =
         if existsb (thread_eqb th) (threads_of (options_ (bus w)))
         then Some (worker_of th) else None).
Proof.
  intros Hnone.
  destruct (initBus_run w)
    as (w' & Hrun & Hd & Hq & Hp & Ho & Hr & Hs & Hj & Ht).
  exists w'. split; [exact Hrun |]. split; [exact Hq |]. split; [exact Hp |].
  split.
  - intros Hf. rewrite Hf in *. split; [| rewrite Hs; apply app_nil_r].
    destruct (initializeInterface (driver w)) as [ok d'] eqn:Hi.
    simpl in Hf. subst ok.
    rewrite (initBus_interface_failure initializeInterface
               pthread_setschedparam w d' Hi) in Hrun.
    injection Hrun as <-. reflexivity.
  - intros Ht'. rewrite Ht' in *. split; [rewrite Hr; apply orb_true_r |].
    split; [exact Hs |]. intros th. rewrite Ht, Hnone. reflexivity.
Qed.

Lemma receiveWorker_stopped fuel w :
  running_ (bus w) = false ->
  receiveWorker readData fuel w = Some (Terminated, w).
Proof.
  intros Hr. destruct fuel; cbn [receiveWorker]; rewrite bind_run;
    unfold get_bus at 1; rewrite Hr; reflexivity.
Qed.

(** A member is joinable iff it holds a thread. *)
Lemma joinable_absent (b : Bus Msg) th :
  existsb (thread_eqb th) (joinable b) = false -> threads_ b th = None.
Proof.
  unfold joinable. cbn [List.filter].
  destruct th;
    destruct (threads_ b receiveThread_) eqn:E1;
    destruct (threads_ b transmitThread_) eqn:E2;
    destruct (threads_ b sanityCheckThread_) eqn:E3;
    simpl; intros H; try reflexivity; discriminate H.
Qed.

Lemma joins_returned_all ths :
  forallb finishes ths = true -> joins_returned finishes ths = ths.
Proof.
  induction ths as [| th ths IH]; [reflexivity |].
  simpl. intros H. apply andb_true_iff in H as [H1 H2].
  rewrite H1, (IH H2). reflexivity.
Qed.

(** [stopThreads(true)], member by member. *)
Lemma stopThreads_true_run w :
  exists r w',
    stopThreads finishes true w = Some (r, w') /\
    running_ (bus w') = false /\
    trace w' =
      trace w ++ NotifyAll condTransmitThread_ ::
                 NotifyAll condOutputQueueEmpty_ ::
                 map ThreadJoin (join_calls finishes (joinable (bus w))) /\
    (forall th,
        threads_ (bus w') th =
        if existsb (thread_eqb th)
             (joins_returned finishes (joinable (bus w)))
        then None else threads_ (bus w) th) /\
    (r = Returned tt <-> forallb finishes (joinable (bus w)) = true).
Proof.
  open_world w. unfold joinable. cbn [List.filter].
  destruct (thr receiveThread_) eqn:E1;
    destruct (thr transmitThread_) eqn:E2;
    destruct (thr sanityCheckThread_) eqn:E3;
    destruct (finishes receiveThread_) eqn:F1;
    destruct (finishes transmitThread_) eqn:F2;
    destruct (finishes sanityCheckThread_) eqn:F3;
    unfold stopThreads, and_then, set_running, join_if_joinable;
    repeat (progress (run; cbn [thread_eqb]; rewrite ?E1, ?E2, ?E3, ?F1, ?F2, ?F3));
    (eexists; eexists; split; [reflexivity |]); run;
    (split; [reflexivity |]);
    cbn [join_calls joins_returned forallb map];
    rewrite ?F1, ?F2, ?F3; cbn [join_calls joins_returned forallb map andb];
    (split; [rewrite <- ?app_assoc; reflexivity |]);
    (split;
     [ intros th; destruct th; simpl; rewrite ?E1, ?E2, ?E3; reflexivity
     | split; intros H; first [reflexivity | discriminate H] ]).
Qed.

(** X13. [stopThreads(true)] stores false to [running_], notifies
    [condTransmitThread_] and [condOutputQueueEmpty_], and then calls
    [join] on the thread members that hold a thread, in the order receive,
    transmit, sanity check, each once the one before has returned.  It
    returns exactly when the worker of every such member finishes; the
    members are then not joinable any more, and a second
    [stopThreads(true)] calls no [join].  When a worker does not finish
    the caller stays blocked in that [join]: the members before it are
    joined, the later ones are not looked at.  [stopThreads(false)] calls
    no [join] and leaves the members as they are.  In every case
    [running_] is false afterwards, so that the receive and the transmit
    loop end at their next test of it without doing anything. *)
Theorem stopThreads_joins_joinable fuel w :
  (exists r w',
      stopThreads finishes true w = Some (r, w') /\
      running_ (bus w') = false /\
      trace w' =
        trace w ++ NotifyAll condTransmitThread_ ::
                   NotifyAll condOutputQueueEmpty_ ::
                   map ThreadJoin (join_calls finishes (joinable (bus w))) /\
      (forall th,
          threads_ (bus w') th =
          if existsb (thread_eqb th)
               (joins_returned finishes (joinable (bus w)))
          then None else threads_ (bus w) th) /\
      (r = Returned tt <-> forallb finishes (joinable (bus w)) = true) /\
      (r = Returned tt ->
         joinable (bus w') = [] /\
         exists w'',
           stopThreads finishes true w' = Some (Returned tt, w'') /\
           joined (trace w'') = joined (trace w')) /\
      transmitWorker writeData fuel w' = Some (Terminated, w') /\
      receiveWorker readData fuel w' = Some (Terminated, w')) /\
  (exists w',
      stopThreads finishes false w = Some (Returned tt, w') /\
      running_ (bus w') = false /\
      threads_ (bus w') = threads_ (bus w) /\
      trace w' = trace w ++ [NotifyAll condTransmitThread_;
                             NotifyAll condOutputQueueEmpty_] /\
      transmitWorker writeData fuel w' = Some (Terminated, w') /\
      receiveWorker readData fuel w' = Some (Terminated, w')).
Proof.
  split.
  - destruct (stopThreads_true_run w)
      as (r & w' & Hrun & Hr & Ht & Hth & Hret).
    exists r, w'. split; [exact Hrun |]. split; [exact Hr |].
    split; [exact Ht |]. split; [exact Hth |]. split; [exact Hret |].
    split.
    + intros Hreturned. apply Hret in Hreturned.
      assert (Hnone : forall th, threads_ (bus w') th = None).
      { intros th. rewrite Hth.
        rewrite (joins_returned_all _ Hreturned).
        destruct (existsb (thread_eqb th) (joinable (bus w))) eqn:Hin;
          [reflexivity |].
        apply joinable_absent. exact Hin. }
      assert (Hj : joinable (bus w') = []).
      { unfold joinable. cbn [List.filter]. rewrite !Hnone. reflexivity. }
      split; [exact Hj |].
      destruct (stopThreads_true_run w')
        as (r2 & w'' & Hrun2 & _ & Ht2 & _ & Hret2).
      rewrite Hj in Ht2, Hret2. cbn [join_calls map forallb] in Ht2, Hret2.
      assert (Hr2 : r2 = Returned tt) by (apply Hret2; reflexivity).
      subst r2. exists w''. split; [exact Hrun2 |].
      rewrite Ht2, joined_app. simpl. apply app_nil_r.
    + split; [apply transmitWorker_stopped | apply receiveWorker_stopped];
        exact Hr.
  - open_world w. unfold stopThreads, set_running. run.
    eexists. split; [reflexivity |]. run.
    split; [reflexivity |]. split; [reflexivity |].
    split; [rewrite <- app_assoc; reflexivity |].
    split; [apply transmitWorker_stopped | apply receiveWorker_stopped];
      reflexivity.
Qed.

(** *** The receive loop *)

Lemma read_calls_app (s t : list (Event Msg)) :
  read_calls (s ++ t) = (read_calls s + read_calls t)%nat.
Proof.
  induction s as [| e s IH]; [reflexivity |].
  destruct e; simpl; rewrite ?IH; reflexivity.
Qed.

Lemma auto_activations_app (s t : list (Event Msg)) :
  auto_activations (s ++ t) = (auto_activations s + auto_activations t)%nat.
Proof.
  induction s as [| e s IH]; [reflexivity |].
  destruct e as [[] | | | | | | | | | |]; simpl; rewrite ?IH; reflexivity.
Qed.

(** One [readMessage]: the bus is activated exactly when a frame was read
    on a passive bus with [activateBusOnReception_] set. *)
Lemma readMessage_run w :
  let ok := fst (readData (driver w)) in
  let activated :=
    ok && isPassive_ (bus w) && activateBusOnReception_ (options_ (bus w)) in
  exists w',
    readMessage readData w = Some (ok, w') /\
    driver w' = snd (readData (driver w)) /\
    outgoingMsgs_ (bus w') = outgoingMsgs_ (bus w) /\
    options_ (bus w') = options_ (bus w) /\
    threads_ (bus w') = threads_ (bus w) /\
    running_ (bus w') = running_ (bus w) /\
    isPassive_ (bus w') = (isPassive_ (bus w) && negb activated) /\
    write_calls (trace w') = write_calls (trace w) /\
    read_calls (trace w') = S (read_calls (trace w)) /\
    auto_activations (trace w') =
      (auto_activations (trace w) + if activated then 1 else 0)%nat.
Proof.
  open_world w. unfold readMessage, set_isPassive. run.
  destruct (readData drv) as [[|] d'] eqn:Hr; run;
    [destruct pas; run; [destruct (activateBusOnReception_ opt); run |] |];
    (eexists; split; [reflexivity |]); run;
    repeat (split; [reflexivity |]);
    rewrite ?write_calls_app, ?read_calls_app, ?auto_activations_app; simpl;
    rewrite ?app_nil_r, ?andb_true_r; repeat split; lia.
Qed.

Lemma receiveWorker_step fuel w :
  running_ (bus w) = true ->
  receiveWorker readData (S fuel) w =
  match readMessage readData w with
  | Some (_, w') => receiveWorker readData fuel w'
  | None => None
  end.
Proof.
  intros Hr. cbn [receiveWorker]. rewrite bind_run. unfold get_bus at 1.
  rewrite Hr. rewrite bind_run.
  destruct (readMessage readData w) as [[r w'] |]; reflexivity.
Qed.

Lemma receiveWorker_out_of_fuel w :
  running_ (bus w) = true ->
  receiveWorker readData 0 w = Some (OutOfFuel, w).
Proof.
  intros Hr. cbn [receiveWorker]. rewrite bind_run. unfold get_bus at 1.
  rewrite Hr. reflexivity.
Qed.

(** X14. Whatever [readData] returns, and as long as it acts on the
    transport only, the receive loop never touches the outgoing queue, never
    calls [writeData], changes neither [running_] nor the options, and never
    makes an active bus passive.  It logs "Auto-activated bus" at most once,
    exactly when it turns a passive bus active, which it does only with
    [activateBusOnReception_] set.  While [running_] is true every pass
    calls [readData] once. *)
Theorem receiveWorker_invariant fuel : forall w,
  exists e w',
    receiveWorker readData fuel w = Some (e, w') /\
    outgoingMsgs_ (bus w') = outgoingMsgs_ (bus w) /\
    write_calls (trace w') = write_calls (trace w) /\
    running_ (bus w') = running_ (bus w) /\
    options_ (bus w') = options_ (bus w) /\
    (isPassive_ (bus w') = true -> isPassive_ (bus w) = true) /\
    (activateBusOnReception_ (options_ (bus w)) = false ->
       isPassive_ (bus w') = isPassive_ (bus w)) /\
    auto_activations (trace w') =
      (auto_activations (trace w) +
       if isPassive_ (bus w) && negb (isPassive_ (bus w')) then 1 else 0)%nat /\
    (e = Terminated <-> running_ (bus w) = false) /\
    (running_ (bus w) = true ->
       e = OutOfFuel /\
       read_calls (trace w') = (read_calls (trace w) + fuel)%nat) /\
    (running_ (bus w) = true -> (0 < fuel)%nat ->
     activateBusOnReception_ (options_ (bus w)) = true ->
     fst (readData (driver w)) = true ->
       isPassive_ (bus w') = false).
Proof.
  induction fuel as [| fuel IH]; intros w;
    destruct (running_ (bus w)) eqn:Hr.
  - exists OutOfFuel, w. rewrite (receiveWorker_out_of_fuel w Hr).
    repeat split; auto; try lia; try discriminate.
    destruct (isPassive_ (bus w)); simpl; lia.
  - exists Terminated, w. rewrite (receiveWorker_stopped 0 w Hr).
    repeat split; auto; try lia; try discriminate.
    destruct (isPassive_ (bus w)); simpl; lia.
  - rewrite (receiveWorker_step fuel w Hr).
    destruct (readMessage_run w)
      as (w1 & Hrun & Hd & Hq & Ho & Ht & Hr1 & Hp & Hw & Hrc & Ha).
    cbv zeta in Hrun. rewrite Hrun.
    destruct (IH w1)
      as (e & w' & Hrun' & Hq' & Hw' & Hr' & Ho' & Hp' & Hk' & Ha' & He' & Hf' & _).
    exists e, w'. split; [exact Hrun' |].
    split; [congruence |]. split; [congruence |]. split; [congruence |].
    split; [congruence |].
    split.
    { intros H. apply Hp' in H. rewrite Hp in H.
      apply andb_true_iff in H. tauto. }
    split.
    { intros Hno. rewrite Hk' by congruence. rewrite Hp, Hno.
      rewrite andb_false_r. simpl. apply andb_true_r. }
    split.
    { rewrite Ha', Ha. clear - Hp Hp'.
      destruct (isPassive_ (bus w1)), (isPassive_ (bus w')),
        (isPassive_ (bus w)), (fst (readData (driver w))),
        (activateBusOnReception_ (options_ (bus w)));
        simpl in *; try discriminate Hp; try lia;
        specialize (Hp' eq_refl); discriminate Hp'. }
    split.
    { rewrite He', Hr1, Hr. split; intros H; discriminate H. }
    split.
    { intros _. destruct Hf' as [He Hrc']; [congruence |].
      split; [exact He |]. rewrite Hrc', Hrc. lia. }
    intros _ _ Hflag Hok.
    destruct (isPassive_ (bus w')) eqn:E'; [| reflexivity].
    specialize (Hp' eq_refl). rewrite Hp, Hok, Hflag in Hp'.
    destruct (isPassive_ (bus w)); discriminate Hp'.
  - exists Terminated, w. rewrite (receiveWorker_stopped (S fuel) w Hr).
    repeat split; auto; try lia; try discriminate.
    destruct (isPassive_ (bus w)); simpl; lia.
Qed.

(** *** Passive and active *)

Lemma set_isPassive_run (p : bool) w :
  exists w',
    set_isPassive p w = Some (tt, w') /\
    isPassive_ (bus w') = p /\
    outgoingMsgs_ (bus w') = outgoingMsgs_ (bus w) /\
    running_ (bus w') = running_ (bus w) /\
    driver w' = driver w /\
    write_calls (trace w') = write_calls (trace w).
Proof.
  open_world w. unfold set_isPassive. run.
  eexists. split; [reflexivity |]. run. repeat split.
Qed.

(** X15. A frame sent while the bus is passive never reaches the driver,
    and the bus works again once activated: on a running bus with an empty
    queue, [passivate], send [a], one run of the transmit loop, [activate],
    send [b], another run, with a driver that accepts [b], hands [writeData]
    the frame [b] and nothing else, and leaves the queue empty and the bus
    active. *)
Theorem passivate_discards_activate_resumes a b w :
  outgoingMsgs_ (bus w) = [] ->
  running_ (bus w) = true ->
  (forall d, fst (writeData b d) = true) ->
  exists w',
    passive_then_active writeData a b w = Some (Suspended, w') /\
    write_calls (trace w') = write_calls (trace w) ++ [b] /\
    outgoingMsgs_ (bus w') = [] /\
    isPassive_ (bus w') = false.
Proof.
  intros Hq Hr Hacc.
  (* passivate *)
  destruct (set_isPassive_run true w) as (w1 & E1 & P1 & Q1 & R1 & D1 & C1).
  (* sendMessage a *)
  destruct (sendMessages_run [a] w1) as (w2 & E2 & Q2 & S2 & D2 & C2).
  destruct S2 as (_ & _ & P2 & _ & _ & R2).
  (* the transmit loop on the passive bus *)
  destruct (transmitWorker_pops_all (outgoingMsgs_ (bus w2)) 2 w2)
    as (w3 & E3 & Q3 & S3 & C3 & D3 & _);
    [reflexivity | congruence | left; congruence
    | rewrite Q2, Q1, Hq; simpl; lia |].
  destruct S3 as (_ & _ & P3 & _ & _ & R3).
  rewrite P2, P1, app_nil_r in C3.
  (* activate *)
  destruct (set_isPassive_run false w3) as (w4 & E4 & P4 & Q4 & R4 & D4 & C4).
  (* sendMessage b *)
  destruct (sendMessages_run [b] w4) as (w5 & E5 & Q5 & S5 & D5 & C5).
  destruct S5 as (_ & _ & P5 & _ & _ & R5).
  assert (Hq5 : outgoingMsgs_ (bus w5) = [b])
    by (rewrite Q5, Q4, Q3; reflexivity).
  assert (Hr5 : running_ (bus w5) = true) by congruence.
  assert (Hp5 : isPassive_ (bus w5) = false) by congruence.
  (* the transmit loop on the active bus: one frame, then the wait *)
  assert (E6 : exists w6,
             transmitWorker writeData 2 w5 = Some (Suspended, w6) /\
             write_calls (trace w6) = write_calls (trace w5) ++ [b] /\
             outgoingMsgs_ (bus w6) = [] /\ isPassive_ (bus w6) = false).
  { rewrite (transmitWorker_step 1 w5 Hr5).
    rewrite (processOutputQueue_active writeData w5 b [] Hq5 Hr5 Hp5), Hacc.
    rewrite transmitWorker_step by exact Hr5.
    rewrite processOutputQueue_blocks by (reflexivity || exact Hr5).
    eexists. split; [reflexivity |]. unfold after. simpl.
    rewrite !write_calls_app. simpl. rewrite app_nil_r. auto. }
  destruct E6 as (w6 & E6 & C6 & Q6 & P6).
  exists w6. split.
  { unfold passive_then_active, passivate, activate.
    assert (Ea : sendMessage a w1 = Some (tt, w2)).
    { revert E2. cbn [sendMessages]. rewrite bind_run.
      destruct (sendMessage a w1) as [[[] wa] |]; [| discriminate].
      intros H. exact H. }
    assert (Eb : sendMessage b w4 = Some (tt, w5)).
    { revert E5. cbn [sendMessages]. rewrite bind_run.
      destruct (sendMessage b w4) as [[[] wb] |]; [| discriminate].
      intros H. exact H. }
    rewrite bind_run, E1, bind_run, Ea, bind_run, E3, bind_run, E4,
      bind_run, Eb. exact E6. }
  split; [| auto]. congruence.
Qed.

End WorkersOf.

(** *** The theorems on concrete buses *)

Import Examples Scenarios.

Lemma transmitWorker_delivers_in_order_witness :
  exists w',
    transmitWorker accept_all 3 full_world = Some (Suspended, w') /\
    outgoingMsgs_ (bus w') = [] /\
    write_calls (trace w') =
      write_calls (trace full_world) ++ outgoingMsgs_ (bus full_world) /\
    same_settings full_world w' /\
    exists t,
      trace w' = t ++ [Lock; NotifyAll condOutputQueueEmpty_;
                       Wait condTransmitThread_].
Proof.
  apply (transmitWorker_delivers_in_order accept_all 3 full_world).
  - reflexivity.
  - reflexivity.
  - intros msg d. reflexivity.
  - simpl. lia.
Defined.

Example transmitWorker_full_world :
  option_map (fun r => (fst r, outgoingMsgs_ (bus (snd r)),
                        write_calls (trace (snd r))))
    (transmitWorker accept_all 3 full_world)
  = Some (Suspended, [], [1; 2]).
Proof. reflexivity. Qed.

Lemma transmitWorker_passive_discards_witness :
  exists w',
    transmitWorker refuse_all 3 passive_world = Some (Suspended, w') /\
    outgoingMsgs_ (bus w') = [] /\
    write_calls (trace w') = write_calls (trace passive_world) /\
    driver w' = driver passive_world /\
    isPassive_ (bus w') = true.
Proof.
  apply (transmitWorker_passive_discards refuse_all 3 passive_world).
  - reflexivity.
  - reflexivity.
  - simpl. lia.
Defined.

Example transmitWorker_passive_world :
  option_map (fun r => (fst r, outgoingMsgs_ (bus (snd r)),
                        write_calls (trace (snd r))))
    (transmitWorker refuse_all 3 passive_world)
  = Some (Suspended, [], []).
Proof. reflexivity. Qed.

Lemma transmitWorker_retries_refused_frame_witness :
  exists w',
    transmitWorker refuse_all 3 active_world = Some (OutOfFuel, w') /\
    bus w' = bus active_world /\
    write_calls (trace w') = write_calls (trace active_world) ++ repeat 7 3.
Proof.
  apply (transmitWorker_retries_refused_frame refuse_all 3 active_world 7 []).
  - reflexivity.
  - reflexivity.
  - reflexivity.
  - intros d. reflexivity.
Defined.

Lemma sendMessages_then_transmit_witness :
  exists w1 w2,
    sendMessages [8; 9] active_world = Some (tt, w1) /\
    transmitWorker accept_all 4 w1 = Some (Suspended, w2) /\
    outgoingMsgs_ (bus w2) = [] /\
    write_calls (trace w2) =
      write_calls (trace active_world) ++ outgoingMsgs_ (bus active_world)
      ++ [8; 9].
Proof.
  apply (sendMessages_then_transmit accept_all [8; 9] 4 active_world).
  - reflexivity.
  - reflexivity.
  - intros msg d. reflexivity.
  - simpl. lia.
Defined.

Example sendMessages_active_world :
  option_map (fun r => write_calls (trace (snd r)))
    (sendMessages [8; 9] active_world ≫= fun r =>
     transmitWorker accept_all 4 (snd r))
  = Some [7; 8; 9].
Proof. reflexivity. Qed.

Lemma initBus_outcome_witness :
  exists w',
    initBus interface_up priority_granted fresh_world =
      Some (fst (interface_up (driver fresh_world)), w') /\
    outgoingMsgs_ (bus w') = outgoingMsgs_ (bus fresh_world) /\
    isPassive_ (bus w') = isPassive_ (bus fresh_world) /\
    (fst (interface_up (driver fresh_world)) = false ->
       bus w' = bus fresh_world /\
       started (trace w') = started (trace fresh_world)) /\
    (fst (interface_up (driver fresh_world)) = true ->
       running_ (bus w') = true /\
       started (trace w') =
         started (trace fresh_world) ++ threads_of (options_ (bus fresh_world)) /\
       forall th,
         threads_ (bus w') th =
         if existsb (thread_eqb th) (threads_of (options_ (bus fresh_world)))
         then Some (worker_of th) else None).
Proof.
  apply (initBus_outcome interface_up priority_granted fresh_world).
  intros th. reflexivity.
Defined.

(** Every worker finishes: the three threads [initBus] started on
    [fresh_world] are joined in order, and a second call joins none. *)
Example initBus_stopThreads_fresh_world :
  option_map (fun r => (fst r, started (trace (snd r)),
                        joined (trace (snd r)), joinable (bus (snd r))))
    (initBus interface_up priority_granted fresh_world ≫= fun r =>
     stopThreads (fun _ => true) true (snd r))
  = Some (Returned tt,
          [receiveThread_; transmitThread_; sanityCheckThread_],
          [receiveThread_; transmitThread_; sanityCheckThread_], []).
Proof. reflexivity. Qed.

(** The transmit worker does not finish: [stopThreads(true)] is blocked in
    its [join], the receive thread is joined and the sanity-check thread
    is not looked at. *)
Example stopThreads_blocked_in_join :
  option_map (fun r => (fst r, joined (trace (snd r)), joinable (bus (snd r)),
                        running_ (bus (snd r))))
    (initBus interface_up priority_granted fresh_world ≫= fun r =>
     stopThreads (fun th => negb (thread_eqb th transmitThread_)) true (snd r))
  = Some (Blocked, [receiveThread_; transmitThread_],
          [transmitThread_; sanityCheckThread_], false).
Proof. reflexivity. Qed.

Lemma passivate_discards_activate_resumes_witness :
  exists w',
    passive_then_active accept_all 1 2 idle_world = Some (Suspended, w') /\
    write_calls (trace w') = write_calls (trace idle_world) ++ [2] /\
    outgoingMsgs_ (bus w') = [] /\
    isPassive_ (bus w') = false.
Proof.
  apply (passivate_discards_activate_resumes accept_all 1 2 idle_world).
  - reflexivity.
  - reflexivity.
  - intros d. reflexivity.
Defined.

(** A passive bus with [activateBusOnReception_] set is activated by the
    first frame read. *)
Example receiveWorker_auto_activates :
  option_map (fun r : LoopEnd * World Z unit =>
                (fst r, isPassive_ (bus (snd r)),
                 auto_activations (trace (snd r)),
                 read_calls (trace (snd r))))
    (receiveWorker frame_received 3
       (mkWorld (mkBus false false true
                   (mkBusOptions "can0" true true true 2 100 10 20 30)
                   [] (fun _ => None) true) tt []))
  = Some (OutOfFuel, false, 1%nat, 3%nat).
Proof. reflexivity. Qed.

End WorkerFacts.

(** ** Sequences of registrations *)

Module RegistryFacts.
Import CanBus DeviceCanOpen Registry.
Import CanBusFacts.

Section RegistryOf.

Context {Fp : Type}.

Implicit Types (c : CanBus (Fp := Fp)) (regs : list (Registration Fp)).

Lemma addCanMessages_cons r regs c :
  addCanMessages (r :: regs) c =
  (fst (addCanMessage (reg_matcher r) (reg_is_device r) (reg_device r)
          (reg_fp r) c)
     :: fst (addCanMessages regs
               (snd (addCanMessage (reg_matcher r) (reg_is_device r)
                       (reg_device r) (reg_fp r) c))),
   snd (addCanMessages regs
          (snd (addCanMessage (reg_matcher r) (reg_is_device r)
                  (reg_device r) (reg_fp r) c)))).
Proof.
  cbn [addCanMessages].
  destruct (addCanMessage _ _ _ _ c) as [ok c1]. cbn [fst snd].
  destruct (addCanMessages regs c1) as [oks c2]. reflexivity.
Qed.

(** One call, by the lookup of its matcher. *)
Lemma addCanMessage_lookup matcher (is_device : bool) device (fp : Fp) c :
  let r := addCanMessage matcher is_device device fp c in
  fst r = match canFrameIdentifierToFunctionMap_ c !! matcher with
          | Some _ => false
          | None => true
          end /\
  devices_ (snd r) = devices_ c /\
  unmappedMessageCallbackFunction_ (snd r)
    = unmappedMessageCallbackFunction_ c /\
  forall k,
    canFrameIdentifierToFunctionMap_ (snd r) !! k =
    match canFrameIdentifierToFunctionMap_ c !! k with
    | Some s => Some s
    | None => if CanFrameIdentifier_eq matcher k
              then Some (slot_of is_device device fp) else None
    end.
Proof.
  cbv zeta. rewrite addCanMessage_emplace. unfold emplace_in, emplace.
  destruct (canFrameIdentifierToFunctionMap_ c !! matcher) as [s |] eqn:Hm;
    simpl.
  - split; [reflexivity |].
    split; [reflexivity |]. split; [reflexivity |].
    intros k. destruct (canFrameIdentifierToFunctionMap_ c !! k) eqn:Hk;
      [reflexivity |].
    destruct (CanFrameIdentifier_eq matcher k) eqn:E; [| reflexivity].
    apply CanFrameIdentifier_eq_iff in E. subst k. congruence.
  - split; [reflexivity |].
    split; [reflexivity |]. split; [reflexivity |].
    intros k. destruct (CanFrameIdentifier_eq matcher k) eqn:E.
    + apply CanFrameIdentifier_eq_iff in E. subst k.
      rewrite lookup_insert_eq, Hm. reflexivity.
    + assert (Hne : matcher <> k).
      { intros ->. rewrite (proj2 (CanFrameIdentifier_eq_iff k k) eq_refl) in E.
        discriminate E. }
      rewrite lookup_insert_ne by exact Hne.
      destruct (canFrameIdentifierToFunctionMap_ c !! k); reflexivity.
Qed.

(** X16. The first registration of a matcher wins.  After any sequence of
    [addCanMessage] calls a matcher that was registered before still has its
    slot, a matcher that was not has the slot of the first call that named
    it, and a matcher no call named is still absent; the device container
    and the unmapped-message callback are untouched. *)
Theorem addCanMessages_first_wins regs : forall c,
  devices_ (snd (addCanMessages regs c)) = devices_ c /\
  unmappedMessageCallbackFunction_ (snd (addCanMessages regs c))
    = unmappedMessageCallbackFunction_ c /\
  forall k,
    canFrameIdentifierToFunctionMap_ (snd (addCanMessages regs c)) !! k =
    match canFrameIdentifierToFunctionMap_ c !! k with
    | Some s => Some s
    | None => first_slot k regs
    end.
Proof.
  induction regs as [| r regs IH]; intros c.
  - simpl. repeat split. intros k.
    destruct (canFrameIdentifierToFunctionMap_ c !! k); reflexivity.
  - rewrite addCanMessages_cons. cbn [fst snd].
    destruct (addCanMessage_lookup (reg_matcher r) (reg_is_device r)
                (reg_device r) (reg_fp r) c) as (_ & Hd & Hu & Hk).
    cbv zeta in Hd, Hu, Hk.
    destruct (IH (snd (addCanMessage (reg_matcher r) (reg_is_device r)
                         (reg_device r) (reg_fp r) c)))
      as (Hd' & Hu' & Hk').
    split; [congruence |]. split; [congruence |].
    intros k. rewrite Hk', Hk. cbn [first_slot].
    destruct (canFrameIdentifierToFunctionMap_ c !! k); [reflexivity |].
    destruct (CanFrameIdentifier_eq (reg_matcher r) k); reflexivity.
Qed.

(** One call, by its result. *)
Lemma addCanMessage_result matcher (is_device : bool) device (fp : Fp) c :
  (canFrameIdentifierToFunctionMap_ c !! matcher = None /\
   addCanMessage matcher is_device device fp c =
   (true, mkCanBus (devices_ c)
            (<[matcher := slot_of is_device device fp]>
               (canFrameIdentifierToFunctionMap_ c))
            (unmappedMessageCallbackFunction_ c))) \/
  (is_Some (canFrameIdentifierToFunctionMap_ c !! matcher) /\
   addCanMessage matcher is_device device fp c = (false, c)).
Proof.
  rewrite addCanMessage_emplace. unfold emplace_in, emplace.
  destruct (canFrameIdentifierToFunctionMap_ c !! matcher) as [s |] eqn:Hm.
  - right. split; [eexists; reflexivity |]. destruct c. reflexivity.
  - left. split; reflexivity.
Qed.

(** X17. The dispatch map grows by one entry for each call that returns
    true and not at all for the others, and there is one result per call.
    Every call of a sequence returns true iff its matchers are pairwise
    different and none of them was registered before. *)
Theorem addCanMessages_results regs : forall c,
  length (fst (addCanMessages regs c)) = length regs /\
  size (canFrameIdentifierToFunctionMap_ (snd (addCanMessages regs c))) =
    (size (canFrameIdentifierToFunctionMap_ c)
     + accepted (fst (addCanMessages regs c)))%nat /\
  (Forall (fun ok => ok = true) (fst (addCanMessages regs c)) <->
   NoDup (map reg_matcher regs) /\
   Forall (fun r => canFrameIdentifierToFunctionMap_ c !! reg_matcher r = None)
     regs).
Proof.
  induction regs as [| r regs IH]; intros c.
  - simpl. unfold accepted. simpl. split; [reflexivity |].
    split; [lia |].
    split; [intros _; split; constructor | intros _; constructor].
  - rewrite addCanMessages_cons. cbn [fst snd].
    destruct (addCanMessage_result (reg_matcher r) (reg_is_device r)
                (reg_device r) (reg_fp r) c) as [[Hm E] | [Hm E]];
      rewrite E; cbn [fst snd]; clear E.
    + set (c1 := mkCanBus _ _ _).
      destruct (IH c1) as (Hlen & Hsize & Hall).
      split; [simpl; rewrite Hlen; reflexivity |].
      split.
      { rewrite Hsize. subst c1. cbn [canFrameIdentifierToFunctionMap_].
        rewrite map_size_insert_None by exact Hm.
        unfold accepted. simpl. lia. }
      rewrite Forall_cons, Hall. cbn [map]. rewrite NoDup_cons, Forall_cons.
      subst c1. cbn [canFrameIdentifierToFunctionMap_].
      split.
      * intros (_ & Hnd & Hfree). split.
        -- split; [| exact Hnd].
           intros Hin. apply list_elem_of_In, in_map_iff in Hin
             as (r' & Heq & Hin).
           rewrite Forall_forall in Hfree.
           specialize (Hfree r' ltac:(apply list_elem_of_In; exact Hin)).
           rewrite Heq, lookup_insert_eq in Hfree. discriminate Hfree.
        -- split; [exact Hm |].
           eapply Forall_impl; [exact Hfree |]. intros r' Hr'. simpl in Hr'.
           destruct (decide (reg_matcher r = reg_matcher r')) as [Heq | Hne].
           ++ rewrite Heq, lookup_insert_eq in Hr'. discriminate Hr'.
           ++ rewrite lookup_insert_ne in Hr' by exact Hne. exact Hr'.
      * intros ((Hnotin & Hnd) & _ & Hfree).
        split; [reflexivity |]. split; [exact Hnd |].
        rewrite Forall_forall in Hfree |- *. intros r' Hin.
        rewrite lookup_insert_ne; [apply Hfree; exact Hin |].
        intros Heq. apply Hnotin. rewrite Heq.
        apply list_elem_of_In, in_map. apply list_elem_of_In. exact Hin.
    + destruct (IH c) as (Hlen & Hsize & _).
      split; [simpl; rewrite Hlen; reflexivity |].
      split; [rewrite Hsize; unfold accepted; simpl; lia |].
      rewrite Forall_cons. cbn [map]. rewrite Forall_cons.
      split.
      * intros [H _]. discriminate H.
      * intros (_ & Hnone & _). destruct Hm as [s Hs]. congruence.
Qed.


(** *** The identifiers of CANopen devices *)

Lemma by_id_is_id_overload base nodeId device (fp : Fp) c :
  addCanMessage (reg_matcher (by_id base nodeId device fp))
    (reg_is_device (by_id base nodeId device fp))
    (reg_device (by_id base nodeId device fp))
    (reg_fp (by_id base nodeId device fp)) c =
  addCanMessage_id_device (cob_id base nodeId) device fp c.
Proof. reflexivity. Qed.

Lemma cob_id_small base nodeId :
  In base TxIds -> 0 <= nodeId < 256 -> cob_id base nodeId = base + nodeId.
Proof.
  intros Hb Hn. unfold cob_id, CInt.to_uint. apply Z.mod_small.
  change (2 ^ 32) with 4294967296.
  unfold TxIds in Hb. simpl in Hb.
  unfold TxPDO1Id, TxPDO2Id, TxPDO3Id, TxPDO4Id, TxSDOId, TxNMT in Hb.
  intuition lia.
Qed.

Lemma cob_id_inj base1 n1 base2 n2 :
  In base1 TxIds -> In base2 TxIds ->
  0 <= n1 < 256 -> 0 <= n2 < 256 ->
  cob_id base1 n1 = cob_id base2 n2 -> base1 = base2 /\ n1 = n2.
Proof.
  intros Hb1 Hb2 Hn1 Hn2.
  rewrite !cob_id_small by assumption.
  unfold TxIds in Hb1, Hb2. simpl in Hb1, Hb2.
  unfold TxPDO1Id, TxPDO2Id, TxPDO3Id, TxPDO4Id, TxSDOId, TxNMT in *.
  intuition lia.
Qed.

(** Matchers that are pairwise different and not registered are all
    accepted. *)
Lemma addCanMessages_accepts regs : forall c,
  NoDup (map reg_matcher regs) ->
  Forall (fun r => canFrameIdentifierToFunctionMap_ c !! reg_matcher r = None)
    regs ->
  Forall (fun ok => ok = true) (fst (addCanMessages regs c)) /\
  size (canFrameIdentifierToFunctionMap_ (snd (addCanMessages regs c))) =
    (size (canFrameIdentifierToFunctionMap_ c) + length regs)%nat.
Proof.
  induction regs as [| r regs IH]; intros c Hnd Hfree.
  - simpl. split; [constructor | lia].
  - rewrite addCanMessages_cons. cbn [fst snd].
    cbn [map] in Hnd. apply NoDup_cons in Hnd as [Hnotin Hnd].
    apply Forall_cons in Hfree as [Hm Hfree].
    destruct (addCanMessage_result (reg_matcher r) (reg_is_device r)
                (reg_device r) (reg_fp r) c) as [[_ E] | [[s Hs] _]];
      [| congruence].
    rewrite E. cbn [fst snd]. clear E.
    set (c1 := mkCanBus _ _ _).
    destruct (IH c1 Hnd) as [Hall Hsize].
    { subst c1. cbn [canFrameIdentifierToFunctionMap_].
      rewrite Forall_forall in Hfree |- *. intros r' Hin.
      rewrite lookup_insert_ne; [apply Hfree; exact Hin |].
      intros Heq. apply Hnotin. rewrite Heq.
      apply list_elem_of_In, in_map. apply list_elem_of_In. exact Hin. }
    split; [constructor; [reflexivity | exact Hall] |].
    rewrite Hsize. subst c1. cbn [canFrameIdentifierToFunctionMap_].
    rewrite map_size_insert_None by exact Hm. simpl. lia.
Qed.

(** X18. Devices with node ids below 256 never collide in the dispatch map:
    registering by id the identifiers [base + nodeId], with [base] one of
    the six Tx identifiers of DeviceCanOpen, on a bus where none of them is
    registered, every call returns true as long as no pair of base and node
    id repeats; the map then holds one entry more per call. *)
Theorem tx_registrations_accepted (items : list (Z * Z * Ptr * Fp)) c :
  Forall (fun i => In (fst (fst (fst i))) TxIds /\
                   0 <= snd (fst (fst i)) < 256) items ->
  NoDup (map (fun i => fst (fst i)) items) ->
  Forall (fun i =>
            canFrameIdentifierToFunctionMap_ c
              !! CanFrameIdentifier_id
                   (cob_id (fst (fst (fst i))) (snd (fst (fst i)))) = None)
    items ->
  let regs :=
    map (fun i => by_id (fst (fst (fst i))) (snd (fst (fst i)))
                    (snd (fst i)) (snd i)) items in
  Forall (fun ok => ok = true) (fst (addCanMessages regs c)) /\
  size (canFrameIdentifierToFunctionMap_ (snd (addCanMessages regs c))) =
    (size (canFrameIdentifierToFunctionMap_ c) + length items)%nat.
Proof.
  intros Hrange Hnd Hfree regs.
  assert (Hlen : length regs = length items)
    by (subst regs; apply length_map).
  rewrite <- Hlen. apply addCanMessages_accepts.
  - subst regs. rewrite map_map. cbn [reg_matcher by_id].
    clear Hfree Hlen.
    induction items as [| i items IH]; [constructor |].
    cbn [map] in *. apply NoDup_cons in Hnd as [Hnotin Hnd].
    apply Forall_cons in Hrange as [[Hb Hn] Hrange].
    apply NoDup_cons. split; [| apply IH; assumption].
    intros Hin. apply list_elem_of_In, in_map_iff in Hin as (j & Heq & Hj).
    apply Hnotin. apply list_elem_of_In, in_map_iff.
    exists j. split; [| exact Hj].
    rewrite Forall_forall in Hrange.
    destruct (Hrange j ltac:(apply list_elem_of_In; exact Hj)) as [Hbj Hnj].
    injection Heq as Heq.
    destruct (cob_id_inj _ _ _ _ Hbj Hb Hnj Hn Heq) as [E1 E2].
    destruct j as [[[bj nj] dj] fj], i as [[[bi ni] di] fi]. simpl in *.
    congruence.
  - subst regs. rewrite Forall_map. exact Hfree.
Qed.

End RegistryOf.

(** *** The theorems on a concrete bus *)

Import Scenarios.

Lemma tx_registrations_accepted_witness :
  let regs :=
    map (fun i => by_id (fst (fst (fst i))) (snd (fst (fst i)))
                    (snd (fst i)) (snd i)) two_nodes in
  Forall (fun ok => ok = true) (fst (addCanMessages regs empty_bus)) /\
  size (canFrameIdentifierToFunctionMap_ (snd (addCanMessages regs empty_bus))) =
    (size (canFrameIdentifierToFunctionMap_ empty_bus) + length two_nodes)%nat.
Proof.
  apply (tx_registrations_accepted two_nodes empty_bus).
  - unfold two_nodes.
    repeat (constructor; [split; [simpl; auto 10 | simpl; lia] |]).
    constructor.
  - apply (bool_decide_unpack _). vm_compute. exact I.
  - unfold two_nodes.
    repeat (constructor; [reflexivity |]). constructor.
Defined.

Example addCanMessages_two_nodes :
  fst (addCanMessages
         (map (fun i => by_id (fst (fst (fst i))) (snd (fst (fst i)))
                          (snd (fst i)) (snd i)) two_nodes)
         empty_bus)
  = [true; true; true; true; true; true].
Proof. reflexivity. Qed.

(** The node ids 1 and 257 differ, but [TxPDO2Id + 1] and
    [TxPDO1Id + 257] are the same identifier: the second registration is
    refused. *)
Example addCanMessages_node_257 :
  fst (addCanMessages
         [by_id TxPDO2Id 1 10%nat 0%nat; by_id TxPDO1Id 257 20%nat 0%nat]
         empty_bus)
  = [true; false].
Proof. reflexivity. Qed.

End RegistryFacts.
